(** * StudyView3D: manifest resolution and 2-D viewport geometry

    A shallow embedding of the decision logic of the viewer core:
    - [Document] (manifest tree, view indices, path resolution, messages,
      lookups by guid and the helpers of loading),
    - [Model] (page-to-model viewport transform, clip queries, units),
    - [ViewerState] (state filters, light presets).

    JavaScript numbers are IEEE-754 doubles and are embedded as primitive
    floats; strings are embedded as [string]; objects used as dictionaries
    are finite maps of their own properties, read through their prototype
    where the code reads them by key; exceptions are an explicit error
    result. *)

From Stdlib Require Import ZArith Floats Strings.String Strings.Ascii Lia List Sorting.Sorted.
From Stdlib Require Import DecimalString.
From stdpp Require Import base option list strings gmap fin_maps.

#[local] Set Warnings "-inexact-float".

Open Scope Z_scope.
Open Scope string_scope.
Open Scope list_scope.
Open Scope nat_scope.

(** ** Exceptions *)

Inductive JsError : Type :=
| TypeError
| ReferenceError
| RangeError
| URIError.

Inductive Result (A : Type) : Type :=
| Ok (a : A)
| Throw (e : JsError).

Arguments Ok {A} a.
Arguments Throw {A} e.

#[global] Instance Result_ret : MRet Result := fun _ a => Ok a.

#[global] Instance Result_bind : MBind Result := fun _ _ k r =>
  match r with
  | Ok a => k a
  | Throw e => Throw e
  end.

(** ** String primitives of the host language *)

Module JsString.

(** [s.indexOf(pat)], as the index of the first occurrence. *)
Fixpoint indexOf (pat s : string) : option nat :=
  match s with
  | EmptyString => if String.prefix pat s then Some 0 else None
  | String _ s' =>
      if String.prefix pat s then Some 0
      else option_map S (indexOf pat s')
  end.

(** [s.lastIndexOf(pat)], as the index of the last occurrence. *)
Fixpoint lastIndexOf (pat s : string) : option nat :=
  match s with
  | EmptyString => if String.prefix pat s then Some 0 else None
  | String _ s' =>
      match lastIndexOf pat s' with
      | Some k => Some (S k)
      | None => if String.prefix pat s then Some 0 else None
      end
  end.

(** The number the host returns: the index, or -1 when there is none. *)
Definition index_number (o : option nat) : Z :=
  match o with
  | Some k => Z.of_nat k
  | None => (-1)%Z
  end.

(** [s.substr(start, len)]; [len = None] is the one-argument form.  A
    negative [start] counts from the end of the string. *)
Definition substr (s : string) (start : Z) (len : option Z) : string :=
  let size := Z.of_nat (String.length s) in
  let from := if (start <? 0)%Z then Z.max (size + start) 0 else Z.min start size in
  let n := match len with
           | None => (size - from)%Z
           | Some l => Z.min (Z.max l 0) (size - from)
           end in
  String.substring (Z.to_nat from) (Z.to_nat n) s.

(** [s.replace(pat, '')] with a string pattern: the first occurrence of
    [pat] is removed. *)
Definition remove_first (pat s : string) : string :=
  match indexOf pat s with
  | None => s
  | Some k =>
      String.substring 0 k s +:+
      String.substring (k + String.length pat) (String.length s) s
  end.

(** A value used as a condition: the empty string is falsy. *)
Definition truthy (s : string) : bool :=
  match s with
  | EmptyString => false
  | _ => true
  end.

End JsString.

(** ** Numbers *)

Module JsNumber.

(** The literal [1e-3]. *)
Definition precision : float := 0x1.0624dd2f1a9fcp-10%float.

Definition is_nan (x : float) : bool := negb (PrimFloat.eqb x x).

(** A number used as a condition: zero and NaN are falsy. *)
Definition truthy (x : float) : bool :=
  negb (PrimFloat.eqb x 0%float) && negb (is_nan x).

(** [ToNumber] of a possibly missing number: [undefined] becomes NaN. *)
Definition of_option (o : option float) : float :=
  match o with
  | Some x => x
  | None => PrimFloat.nan
  end.

End JsNumber.

(** ** Manifest nodes *)

(** Primitive values found in a manifest and in search filters. *)
Inductive prim : Type :=
| PStr (s : string)
| PNum (x : float)
| PBool (b : bool)
| PNull.

(** [a === b] on primitives. *)
Definition strict_eq (a b : prim) : bool :=
  match a, b with
  | PStr s, PStr t => String.eqb s t
  | PNum x, PNum y => PrimFloat.eqb x y
  | PBool x, PBool y => Bool.eqb x y
  | PNull, PNull => true
  | _, _ => false
  end.

(** The value of a property: a primitive, or an object (array, node),
    which is never strictly equal to a primitive. *)
Inductive jsval : Type :=
| JPrim (p : prim)
| JObject.

Record Message : Type := { msg_type : string; msg_text : string }.

(** The fields of a manifest node other than [children]; [extra] holds any
    further primitive-valued properties (status, name, ...). *)
Record NodeFields : Type := {
  type : option string;
  role : option string;
  mime : option string;
  guid : option string;
  urn : option string;
  tileSize : option float;
  resolution : option (list float);
  paperWidth : option prim;
  paperHeight : option prim;
  paperUnits : option prim;
  max_level : option float;
  messages : option (list Message);
  extra : gmap string prim
}.

#[local] Unset Elimination Schemes.
Inductive node : Type :=
| Node (fields : NodeFields) (children : option (list node)).
#[local] Set Elimination Schemes.

Definition fields (n : node) : NodeFields := let 'Node f _ := n in f.
Definition children (n : node) : option (list node) := let 'Node _ c := n in c.

(** [item.children ? item.children.length : 0] *)
Definition childCount (n : node) : nat :=
  match children n with
  | Some cs => length cs
  | None => 0
  end.

(** [item[key]] for a property of the item's own: [None] when it has
    none.  The [parent] property is set on every child by the Document
    constructor and is an object. *)
Definition node_get (n : node) (key : string) : option jsval :=
  let f := fields n in
  let str (o : option string) := (fun s => JPrim (PStr s)) <$> o in
  let num (o : option float) := (fun x => JPrim (PNum x)) <$> o in
  if String.eqb key "type" then str (type f)
  else if String.eqb key "role" then str (role f)
  else if String.eqb key "mime" then str (mime f)
  else if String.eqb key "guid" then str (guid f)
  else if String.eqb key "urn" then str (urn f)
  else if String.eqb key "tileSize" then num (tileSize f)
  else if String.eqb key "resolution" then (fun _ => JObject) <$> resolution f
  else if String.eqb key "paperWidth" then JPrim <$> paperWidth f
  else if String.eqb key "paperHeight" then JPrim <$> paperHeight f
  else if String.eqb key "paperUnits" then JPrim <$> paperUnits f
  else if String.eqb key "max_level" then num (max_level f)
  else if String.eqb key "messages" then (fun _ => JObject) <$> messages f
  else if String.eqb key "children" then (fun _ => JObject) <$> children n
  else if String.eqb key "parent" then Some JObject
  else JPrim <$> extra f !! key.

(** A filter: the enumerable properties of the [properties] argument. *)
Definition Filter : Type := list (string * prim).

(** [!(p in item) || properties[p] !== item[p]] fails for the entry.  A
    property that the item only inherits is a function or an object, which
    is never strictly equal to the primitive of a filter: such a key does
    not match, like a key that is absent. *)
Definition entry_matches (item : node) (entry : string * prim) : bool :=
  match node_get item (fst entry) with
  | Some (JPrim v) => strict_eq (snd entry) v
  | Some JObject => false
  | None => false
  end.

Definition hasProperties (item : node) (properties : Filter) : bool :=
  forallb (entry_matches item) properties.

(** [Document.getSubItemsWithProperties] on a non-null item. *)
Fixpoint subItemsWithProperties (properties : Filter) (recursive : bool)
    (item : node) : list node :=
  match item with
  | Node _ None => []
  | Node _ (Some cs) =>
      (fix loop (cs : list node) : list node :=
         match cs with
         | [] => []
         | child :: rest =>
             (if hasProperties child properties then [child] else [])
             ++ (if recursive
                 then subItemsWithProperties properties recursive child
                 else [])
             ++ loop rest
         end) cs
  end.

Definition getSubItemsWithProperties (item : option node) (properties : Filter)
    (recursive : bool) : list node :=
  match item with
  | None => []
  | Some n => subItemsWithProperties properties recursive n
  end.

(** ** The host environment

    Names the Document and Model code reads but does not define. *)

(** The browser's global object bound to the identifier [parent]. *)
Inductive HostObject : Type := WindowObject.

Record Host : Type := {
  (** [ViewingService.OSS_PREFIX] *)
  OSS_PREFIX : string;
  (** the global [VIEWING_URL] *)
  VIEWING_URL : string;
  (** [Global.offline] and [Global.offlineResourcePrefix] *)
  offline : bool;
  offlineResourcePrefix : string;
  (** the built-in [decodeURIComponent], which throws on a malformed escape *)
  decodeURIComponent : string -> Result string;
  (** [LeafletLoader.computeLevelOffset] *)
  computeLevelOffset : float -> float;
  (** the global binding of the identifier [parent], if any *)
  global_parent : option HostObject
}.

(** ** Plain objects

    The string-keyed properties every plain object inherits from
    [Object.prototype]: functions, and the accessor [__proto__], which
    reads as the prototype of the object it is read on and which, when it
    is assigned an object, makes that object the prototype (an assigned
    number is ignored). *)
Module JsObject.

Definition methods : list string :=
  ["constructor"; "hasOwnProperty"; "isPrototypeOf"; "propertyIsEnumerable";
   "toLocaleString"; "toString"; "valueOf";
   "__defineGetter__"; "__defineSetter__"; "__lookupGetter__"; "__lookupSetter__"].

(** What a property of [Object.prototype] reads as on an object whose
    prototype it is: [Object.prototype] itself for [__proto__], and the
    function of the name otherwise. *)
Inductive builtin : Type :=
| ObjectPrototype
| Method (name : string).

(** [Object.prototype[key]], [None] when it has no such property. *)
Definition inherited (key : string) : option builtin :=
  if String.eqb key "__proto__" then Some ObjectPrototype
  else if existsb (String.eqb key) methods then Some (Method key)
  else None.

End JsObject.

(** ** Document *)

(** The [outLoadOptions] object, as far as the leaflet extraction writes it;
    an unset field is [None]. *)
Module LoadOptions.
Record t : Type := {
  urlPattern : option string;
  tileSize : option float;
  texWidth : option float;
  texHeight : option float;
  paperWidth : option prim;
  paperHeight : option prim;
  paperUnits : option prim;
  levelOffset : option float;
  maxLevel : option float
}.

Definition empty : t :=
  {| urlPattern := None; tileSize := None; texWidth := None; texHeight := None;
     paperWidth := None; paperHeight := None; paperUnits := None;
     levelOffset := None; maxLevel := None |}.
End LoadOptions.

(** A reference to a node of the manifest: the child indices leading to it
    from the root.  The parent of a node is the node one index shorter. *)
Definition ItemRef : Type := list nat.

Fixpoint node_at (n : node) (p : ItemRef) : option node :=
  match p with
  | [] => Some n
  | i :: p' =>
      match children n with
      | Some cs =>
          match cs !! i with
          | Some c => node_at c p'
          | None => None
          end
      | None => None
      end
  end.

(** A property key made of a guid: a missing guid is the key "undefined". *)
Definition key_of (g : option string) : string := default "undefined" g.

Definition type_is (n : node) (t : string) : bool :=
  match type (fields n) with
  | Some s => String.eqb s t
  | None => false
  end.

(** A value read from the view index: an item, another property of an
    item, a property of [Object.prototype], or [undefined]. *)
Inductive Indexed : Type :=
| Item (n : node)
| Property (v : jsval)
| Builtin (b : JsObject.builtin)
| Undefined.

(** [this.myViewGeometry], a plain object created as [{}].  [entries] are
    its own properties.  [prototype] is the item that an assignment to the
    key [__proto__] has made its prototype, together with the item that the
    constructor sets the [parent] of that item to (none for the root);
    without one the prototype is [Object.prototype]. *)
Record ViewIndex : Type := {
  entries : gmap string node;
  prototype : option (node * option node)
}.

Definition empty_index : ViewIndex := {| entries := ∅; prototype := None |}.

(** An assignment to [__proto__] does not reach the accessor of
    [Object.prototype]: the index has an own property of the name, or its
    prototype item has one. *)
Definition proto_shadowed (ix : ViewIndex) : bool :=
  bool_decide (is_Some (entries ix !! "__proto__"))
  || match prototype ix with
     | Some (g, _) => bool_decide (is_Some (extra (fields g) !! "__proto__"))
     | None => false
     end.

(** [index[key] = item], where the parent of [item] is [above]. *)
Definition index_set (key : string) (item : node) (above : option node)
    (ix : ViewIndex) : ViewIndex :=
  if String.eqb key "__proto__" && negb (proto_shadowed ix)
  then {| entries := entries ix; prototype := Some (item, above) |}
  else {| entries := <[key := item]> (entries ix); prototype := prototype ix |}.

(** [item[key]] for an own property of an item whose parent is [above],
    read once the constructor is done; [None] when the item has no such
    property of its own. *)
Definition own_property (item : node) (above : option node) (key : string)
    : option Indexed :=
  if String.eqb key "parent" then
    match above with
    | Some p => Some (Item p)
    | None => (fun v => Property (JPrim v)) <$> extra (fields item) !! key
    end
  else Property <$> node_get item key.

(** [index[key]]: an own property, else a property of the prototype item,
    else a property of [Object.prototype]. *)
Definition index_get (ix : ViewIndex) (key : string) : Indexed :=
  match entries ix !! key with
  | Some g => Item g
  | None =>
      match prototype ix with
      | Some (g, above) =>
          match own_property g above key with
          | Some v => v
          | None =>
              match JsObject.inherited key with
              | Some JsObject.ObjectPrototype => Item g
              | Some b => Builtin b
              | None => Undefined
              end
          end
      | None =>
          match JsObject.inherited key with
          | Some b => Builtin b
          | None => Undefined
          end
      end
  end.

(** [counts[key] = n] on [this.myNumViews]: a number assigned to
    [__proto__] is ignored, so the prototype of this object stays
    [Object.prototype]. *)
Definition count_set (key : string) (n : nat) (counts : gmap string nat)
    : gmap string nat :=
  if String.eqb key "__proto__" then counts else <[key := n]> counts.


(** [myViewGeometry] is the view index; [myNumViews] holds the own
    properties of the count object. *)
Record Document : Type := {
  myPath : string;
  myData : option node;
  myViewGeometry : ViewIndex;
  myNumViews : gmap string nat;
  myPropertyDb : option string;
  acmSessionId : option string
}.

(** The part of the Document that [annotateViews] writes. *)
Record Annotations : Type := {
  viewGeometry : ViewIndex;
  numViews : gmap string nat;
  propertyDb : option string
}.

Definition no_annotations : Annotations :=
  {| viewGeometry := empty_index; numViews := ∅; propertyDb := None |}.

Section WithHost.

Variable host : Host.

(** The location of the shared property database for a database urn. *)
Definition propertyDbPath (u : string) : string :=
  if (JsString.index_number (JsString.indexOf (OSS_PREFIX host) u) =? 0)%Z
  then JsString.substr u 0
         (Some (JsString.index_number (JsString.lastIndexOf "%2F" u) + 3)%Z)
  else JsString.substr u 0
         (Some (JsString.index_number (JsString.lastIndexOf "/" u) + 1)%Z).

(** [item.mime == "application/autodesk-db" && item.urn] *)
Definition is_shared_db (item : node) : bool :=
  match mime (fields item), urn (fields item) with
  | Some m, Some u => String.eqb m "application/autodesk-db" && JsString.truthy u
  | _, _ => false
  end.

(** The loop over the children of a geometry item: every view child is
    entered in the view index and counted.  [above] is the parent of
    [item]. *)
Fixpoint annotateGeometry (item : node) (above : option node) (cs : list node)
    (ix : ViewIndex) (viewCount : nat) : ViewIndex * nat :=
  match cs with
  | [] => (ix, viewCount)
  | child :: rest =>
      if type_is child "view"
      then annotateGeometry item above rest
             (index_set (key_of (guid (fields child))) item above ix) (S viewCount)
      else annotateGeometry item above rest ix viewCount
  end.

(** [annotateViews(item)], where the parent of [item] is [above]. *)
Fixpoint annotateViews (above : option node) (item : node) (a : Annotations)
    : Annotations :=
  match item with
  | Node f ch =>
      if type_is item "geometry" && negb (Nat.eqb (childCount item) 0) then
        let '(ix, viewCount) :=
          annotateGeometry item above (default [] ch) (viewGeometry a) 0 in
        {| viewGeometry := ix;
           numViews := count_set (key_of (guid f)) viewCount (numViews a);
           propertyDb := propertyDb a |}
      else if is_shared_db item then
        {| viewGeometry := viewGeometry a;
           numViews := numViews a;
           propertyDb := Some (propertyDbPath (default "" (urn f))) |}
      else
        match ch with
        | None => a
        | Some cs =>
            (fix loop (cs : list node) (a : Annotations) : Annotations :=
               match cs with
               | [] => a
               | child :: rest => loop rest (annotateViews (Some item) child a)
               end) cs a
        end
  end.

(** The constructor.  The parent pointers it installs are represented by
    paths from the root, see [ItemRef]; the one of the prototype item of
    the view index is kept with it. *)
Definition Document_new (dataJSON : option node) (path : string)
    (acmsession : option string) : Document :=
  let a := match dataJSON with
           | Some root => annotateViews None root no_annotations
           | None => no_annotations
           end in
  {| myPath := path;
     myData := dataJSON;
     myViewGeometry := viewGeometry a;
     myNumViews := numViews a;
     myPropertyDb := propertyDb a;
     acmSessionId := acmsession |}.

Definition getPropertyDbPath (doc : Document) : option string := myPropertyDb doc.

Definition getRootItem (doc : Document) : option node := myData doc.

(** [this.myViewGeometry[item.guid]] *)
Definition getViewGeometry (doc : Document) (item : node) : Indexed :=
  index_get (myViewGeometry doc) (key_of (guid (fields item))).


(** [getFullPath]; the argument and the result are [None] for
    [undefined]. *)
Definition getFullPath (doc : Document) (urn : option string)
    : Result (option string) :=
  match urn with
  | None => Ok None
  | Some u =>
      if negb (JsString.truthy u) then Ok (Some u)
      else if offline host then
        prefix ← decodeURIComponent host (offlineResourcePrefix host);
        Ok (Some (prefix +:+
                  JsString.substr u (JsString.index_number (JsString.indexOf "/" u)) None))
      else if (JsString.index_number (JsString.indexOf "urn" u) =? 0)%Z then
        Ok (Some (VIEWING_URL host +:+ "/items/" +:+ u))
      else if (JsString.index_number (JsString.indexOf "$file$" u) =? 0)%Z
              && negb (JsString.index_number
                         (JsString.indexOf "/bubble.json" (myPath doc)) =? -1)%Z then
        Ok (Some (JsString.remove_first "/bubble.json" (myPath doc) +:+
                  JsString.remove_first "$file$" u))
      else Ok (Some u)
  end.

(** [getLeafletParams]: reading [resolution[0]] of a leaflet item without
    a [resolution] throws. *)
Definition getLeafletParams (out : LoadOptions.t) (geomItem leafletItem : node)
    : Result LoadOptions.t :=
  let lf := fields leafletItem in
  let size := match tileSize lf with
              | Some x => if JsNumber.truthy x then x else 512%float
              | None => 512%float
              end in
  match resolution lf with
  | None => Throw TypeError
  | Some res =>
      let offset := computeLevelOffset host size in
      let items :=
        getSubItemsWithProperties (Some geomItem) [("role", PStr "leaflet-zip")] false in
      Ok {| LoadOptions.urlPattern := urn lf;
            LoadOptions.tileSize := Some size;
            LoadOptions.texWidth := res !! 0;
            LoadOptions.texHeight := res !! 1;
            LoadOptions.paperWidth := paperWidth lf;
            LoadOptions.paperHeight := paperHeight lf;
            LoadOptions.paperUnits := paperUnits lf;
            LoadOptions.levelOffset := Some offset;
            LoadOptions.maxLevel :=
              match items with
              | zip :: _ =>
                  Some (PrimFloat.sub (JsNumber.of_option (max_level (fields zip))) offset)
              | [] => LoadOptions.maxLevel out
              end |}
  end.

Definition role_is (n : node) (r : string) : bool :=
  match role (fields n) with
  | Some s => String.eqb s r
  | None => false
  end.

(** The end of [getViewablePath] for a geometry item: the full path of the
    first item found, else the empty string. *)
Definition firstItemPath (doc : Document) (items : list node)
    (out : option LoadOptions.t) : Result (option string * option LoadOptions.t) :=
  match items with
  | first :: _ => path ← getFullPath doc (urn (fields first)); Ok (path, out)
  | [] => Ok (Some "", out)
  end.

(** [getViewablePath] on an item of type [geometry]. *)
Definition geometryViewablePath (doc : Document) (item : node)
    (outLoadOptions : option LoadOptions.t)
    : Result (option string * option LoadOptions.t) :=
  if role_is item "3d" then
    firstItemPath doc
      (getSubItemsWithProperties (Some item) [("mime", PStr "application/autodesk-svf")] false)
      outLoadOptions
  else if role_is item "2d" then
    let items := getSubItemsWithProperties (Some item) [("role", PStr "leaflet")] false in
    out ← match items, outLoadOptions with
           | leaflet :: _, Some o => o' ← getLeafletParams o item leaflet; Ok (Some o')
           | _, _ => Ok outLoadOptions
           end;
    let items :=
      if Nat.eqb (length items) 0
      then getSubItemsWithProperties (Some item)
             [("mime", PStr "application/autodesk-f2d")] false
      else items in
    let items :=
      if Nat.eqb (length items) 0
      then getSubItemsWithProperties (Some item) [("role", PStr "tileRoot")] true
      else items in
    firstItemPath doc items out
  else firstItemPath doc [] outLoadOptions.

(** [getViewablePath].  A view item is resolved through the value the view
    index gives for it, by a recursive call without load options; [fuel]
    bounds the depth of the calls on items and [None] is returned when it
    runs out.  A value that is not an item is falsy, or has no [type]: the
    result is the empty string either way. *)
Fixpoint getViewablePath (fuel : nat) (doc : Document) (item : node)
    (outLoadOptions : option LoadOptions.t)
    : option (Result (option string * option LoadOptions.t)) :=
  match fuel with
  | 0 => None
  | S fuel' =>
      if type_is item "geometry" then
        Some (geometryViewablePath doc item outLoadOptions)
      else if type_is item "view" then
        match getViewGeometry doc item with
        | Item geometryItem =>
            match getViewablePath fuel' doc geometryItem None with
            | Some (Ok (path, _)) => Some (Ok (path, outLoadOptions))
            | Some (Throw e) => Some (Throw e)
            | None => None
            end
        | Property _ | Builtin _ | Undefined => Some (Ok (Some "", outLoadOptions))
        end
      else Some (Ok (Some "", outLoadOptions))
  end.

(** [parent === root] in [getMessages]: the identifier [parent] is not
    declared in the function or around it, so it names the global; reading
    an unbound global throws, and the browser's object is not a manifest
    node. *)
Definition parent_is_root (root : option node) : Result bool :=
  match global_parent host with
  | None => Throw ReferenceError
  | Some WindowObject => Ok false
  end.

(** The loop of [getMessages]: [above] holds the child indices of
    [current], innermost first, and [current.parent] is obtained by
    dropping its head. *)
Fixpoint collectMessages (tree : node) (excludeGlobal : bool) (root : option node)
    (above : list nat) (messages_so_far : list Message) : Result (list Message) :=
  stop ← (if excludeGlobal then parent_is_root root else Ok false);
  if (stop : bool) then Ok messages_so_far
  else
    let current := node_at tree (rev above) in
    let collected :=
      messages_so_far ++
      default [] (current ≫= fun n => messages (fields n)) in
    match above with
    | [] => Ok collected
    | _ :: above' => collectMessages tree excludeGlobal root above' collected
    end.

(** [getMessages]; the item is [None] for a null item. *)
Definition getMessages (doc : Document) (item : option ItemRef)
    (excludeGlobal : bool) : Result (list Message) :=
  match item, myData doc with
  | Some p, Some tree =>
      let root := if excludeGlobal then getRootItem doc else None in
      collectMessages tree excludeGlobal root (rev p) []
  | _, _ => Ok []
  end.

End WithHost.

(** ** Shader sources *)

(** [string.split('\n')] *)
Fixpoint split_lines (s : string) : list string :=
  match s with
  | EmptyString => [EmptyString]
  | String c s' =>
      if Ascii.eqb c "010"%char then EmptyString :: split_lines s'
      else
        match split_lines s' with
        | line :: rest => String c line :: rest
        | [] => [String c EmptyString]
        end
  end.

(** [lines.join('\n')] *)
Fixpoint join_lines (lines : list string) : string :=
  match lines with
  | [] => EmptyString
  | [line] => line
  | line :: rest => line +:+ String "010"%char (join_lines rest)
  end.

(** [(i + 1) + ': ' + lines[i]] *)
Definition numbered (i : nat) (line : string) : string :=
  NilZero.string_of_uint (Nat.to_uint (i + 1)) +:+ ": " +:+ line.

(** [addLineNumbers(string)] *)
Definition addLineNumbers (s : string) : string :=
  join_lines (imap numbered (split_lines s)).

(** ** Document: lookups and loading *)

(** The order in which the object at a reference enumerates its keys, as
    far as [getItemById] depends on it: whether [guid] comes before
    [children]. *)
Definition KeyOrder : Type := ItemRef -> bool.

(** The traversal of [getItemById] from the node [data] at the reference
    [here]; the result is the reference of the item returned.  Of the
    properties of a node only [children] holds objects with a [guid]. *)
Fixpoint itemById (order : KeyOrder) (id : string) (here : ItemRef) (data : node)
    : option ItemRef :=
  match data with
  | Node f ch =>
      let own :=
        match guid f with
        | Some g => if String.eqb g id then Some here else None
        | None => None
        end in
      let below :=
        match ch with
        | None => None
        | Some cs =>
            (fix each (i : nat) (cs : list node) : option ItemRef :=
               match cs with
               | [] => None
               | c :: rest =>
                   match itemById order id (here ++ [i]) c with
                   | Some item => Some item
                   | None => each (S i) rest
                   end
               end) 0 cs
        end in
      if order here
      then match own with Some item => Some item | None => below end
      else match below with Some item => Some item | None => own end
  end.

(** [getItemById]: [None] is the null result. *)
Definition getItemById (order : KeyOrder) (doc : Document) (id : string)
    : option ItemRef :=
  match myData doc with
  | Some root => itemById order id [] root
  | None => None
  end.




(** [getViewableCount] of [Document.load]: the geometry items below the
    first viewable folder. *)
Definition getViewableCount (doc : Document) : nat :=
  let viewableItems :=
    getSubItemsWithProperties (getRootItem doc)
      [("type", PStr "folder"); ("role", PStr "viewable")] true in
  let root := head viewableItems in
  let geometryItems :=
    getSubItemsWithProperties root [("type", PStr "geometry")] true in
  length geometryItems.

(** The counters of [getGlobalMessages]. *)
Record Tally : Type := {
  collectedmessages : list Message;
  translateFailedCount : nat;
  translateProgressCount : nat
}.

(** [obj.status === 'inprogress'] *)
Definition in_progress (obj : node) : bool :=
  match extra (fields obj) !! "status" with
  | Some (PStr s) => String.eqb s "inprogress"
  | _ => false
  end.

(** [msg.type === 'error'] *)
Definition is_error (msg : Message) : bool := String.eqb (msg_type msg) "error".

(** [obj.messages || []] *)
Definition messagesOf (obj : node) : list Message := default [] (messages (fields obj)).

(** The [traverse] of [getGlobalMessages], with the default nested key
    [children]: the item's own messages are collected, then the children
    are visited from the last to the first. *)
Fixpoint traverseMessages (obj : node) (t : Tally) : Tally :=
  match obj with
  | Node f ch =>
      let msgs := messagesOf obj in
      let t :=
        {| collectedmessages := collectedmessages t ++ msgs;
           translateFailedCount :=
             translateFailedCount t +
             (if Nat.ltb 0 (length (List.filter is_error msgs)) then 1 else 0);
           translateProgressCount :=
             translateProgressCount t + (if in_progress obj then 1 else 0) |} in
      match ch with
      | None => t
      | Some cs =>
          (fix backwards (cs : list node) (t : Tally) : Tally :=
             match cs with
             | [] => t
             | c :: rest => traverseMessages c (backwards rest t)
             end) cs t
      end
  end.

(** The [$translation] mark of [getGlobalMessages]. *)
Definition translationProgress (t : Tally) : string :=
  let progress := "translated" in
  let progress := if Nat.ltb 0 (translateFailedCount t) then "failed" else progress in
  if Nat.ltb 0 (translateProgressCount t) then "processing" else progress.

(** [getGlobalMessages(data)]: the collected messages, each with the
    [$translation] mark it is given. *)
Definition getGlobalMessages (data : node) : list (Message * string) :=
  let t := traverseMessages data
             {| collectedmessages := []; translateFailedCount := 0;
                translateProgressCount := 0 |} in
  map (fun msg => (msg, translationProgress t)) (collectedmessages t).

(** [window.location], where there is a window. *)
Record Location : Type := { protocol : string; location_host : string }.

(** [getDocumentPath] of [Document.load]. *)
Definition getDocumentPath (window : option Location) (documentId : string) : string :=
  if (JsString.index_number (JsString.indexOf "urn:" documentId) =? -1)%Z then
    if negb (JsString.index_number (JsString.indexOf "://" documentId) =? -1)%Z
    then documentId
    else
      let relativePath := documentId in
      match window with
      | Some location =>
          let relativePath :=
            if negb (JsString.index_number (JsString.indexOf "/" relativePath) =? 0)%Z
            then "/" +:+ relativePath
            else relativePath in
          protocol location +:+ "//" +:+ location_host location +:+ relativePath
      | None => relativePath
      end
  else documentId.

(** ** 4x4 matrices

    A matrix object is represented by its [elements] array, which the
    matrix classes keep in column-major order. *)

Module Matrix4.

Definition t : Type := list float.

(** Modelled from the spec: the constructors of the matrix classes
    ([new THREE.Matrix4()], [new LmvMatrix4(true)]; not under src/) give the
    neutral transform, whose elements are those of the identity. *)
Definition identity : t :=
  [1; 0; 0; 0;
   0; 1; 0; 0;
   0; 0; 1; 0;
   0; 0; 0; 1]%float.

(** Modelled from the spec: [LmvMatrix4.set] (not under src/), which builds
    the page-to-logical matrix from its rows; the arguments are given row
    by row and stored column by column. *)
Definition set (n11 n12 n13 n14 n21 n22 n23 n24
                n31 n32 n33 n34 n41 n42 n43 n44 : float) : t :=
  [n11; n21; n31; n41;
   n12; n22; n32; n42;
   n13; n23; n33; n43;
   n14; n24; n34; n44].

(** [m.elements.set(array)] on a new matrix: the array is copied over the
    first entries of the 16-entry typed array; a longer array is a range
    error. *)
Definition elements_set (array : list float) : Result t :=
  if Nat.ltb 16 (length array) then Throw RangeError
  else Ok (array ++ drop (length array) identity).

(** The numerical operations of the matrix class, which are not part of
    the code embedded here. *)
Record Ops : Type := {
  (** [a.getInverse(m)]: the new value of [a] *)
  getInverse : t -> t;
  (** [a.multiply(b)]: the new value of [a] *)
  multiply : t -> t -> t
}.

End Matrix4.

(** ** Model *)

Module Model.

(** Arrays are objects: a viewport refers to its transform array by its
    address in a store of arrays. *)
Definition loc : Type := nat.
Abbreviation Store := (gmap nat (list float)).

Record PageDimensions : Type := {
  page_width : float;
  page_height : float;
  logical_width : float;
  logical_height : float;
  logical_offset_x : float;
  logical_offset_y : float
}.

Record Metadata : Type := { page_dimensions : option PageDimensions }.

Record Viewport : Type := { transform : loc }.

Record Clip : Type := { contourCounts : list nat; points : list float }.

(** The 2-D geometry data held in [myData]; a field that may be missing
    is an option, and so is an array entry that may be null. *)
Record F2D : Type := {
  pageToModelTransform : option Matrix4.t;
  metadata : option Metadata;
  viewports : option (list (option Viewport));
  viewportTransforms : option (gmap nat Matrix4.t);
  clips : option (list (option Clip))
}.

Record State : Type := { store : Store; myData : F2D }.

(** [f2d.viewportTransforms = cache] *)
Definition set_viewportTransforms (f2d : F2D) (cache : gmap nat Matrix4.t) : F2D :=
  {| pageToModelTransform := pageToModelTransform f2d;
     metadata := metadata f2d;
     viewports := viewports f2d;
     viewportTransforms := Some cache;
     clips := clips f2d |}.

(** [e[i]]: an entry that is not there reads as [undefined], which every
    use below converts to NaN. *)
Definition array_get (e : list float) (i : nat) : float :=
  default PrimFloat.nan (e !! i).

(** [e[i] = v]: an assignment past the end extends the array. *)
Definition array_set (e : list float) (i : nat) (v : float) : list float :=
  if Nat.ltb i (length e) then <[i := v]> e
  else e ++ replicate (i - length e) PrimFloat.nan ++ [v].

(** [temp = e[i]; e[i] = e[j]; e[j] = temp] *)
Definition swap_entries (e : list float) (i j : nat) : list float :=
  let temp := array_get e i in
  let e := array_set e i (array_get e j) in
  array_set e j temp.

(** [for (i = from; i < from + 4; i++)] swap [e[i]] and [e[i + offset]] *)
Definition swap_rows (e : list float) (from offset : nat) : list float :=
  fold_left (fun e i => swap_entries e i (i + offset)) (seq from 4) e.

(** The contents of the array after [repairViewportMatrix]. *)
Definition repairedElements (elements : list float) : list float :=
  let e := elements in
  let e :=
    if PrimFloat.ltb (PrimFloat.abs (array_get e 0)) JsNumber.precision then
      if PrimFloat.ltb JsNumber.precision (PrimFloat.abs (array_get e 4))
      then swap_rows e 0 4
      else swap_rows e 0 8
    else e in
  if PrimFloat.ltb (PrimFloat.abs (array_get e 5)) JsNumber.precision
  then swap_rows e 4 4
  else e.

(** [repairViewportMatrix(elements)] works in place on the array it is
    given. *)
Definition repairViewportMatrix (elements : loc) (s : Store) : Store :=
  match s !! elements with
  | Some e => <[elements := repairedElements e]> s
  | None => s
  end.

(** [array.slice()]: a new array with the same contents, at an address
    not in use. *)
Definition slice (array : loc) (s : Store) : option (loc * Store) :=
  match s !! array with
  | Some e => let copy := fresh (dom s) in Some (copy, <[copy := e]> s)
  | None => None
  end.

Section WithOps.

Variable ops : Matrix4.Ops.

Definition pageToLogical (pd : PageDimensions) : Matrix4.t :=
  Matrix4.set
    (logical_width pd / page_width pd) 0 0 (logical_offset_x pd)
    0 (logical_height pd / page_height pd) 0 (logical_offset_y pd)
    0 0 1 0
    0 0 0 1.

(** [getPageToModelTransform]: the result and the state after the
    call. *)
Definition getPageToModelTransform (st : State) (vpId : nat)
    : Result (Matrix4.t * State) :=
  let f2d := myData st in
  match pageToModelTransform f2d with
  | Some m => Ok (m, st)
  | None =>
      match metadata f2d with
      | None => Throw TypeError
      | Some md =>
          let pd := page_dimensions md in
          match viewports f2d with
          | None => Throw TypeError
          | Some vps =>
              match vps !! vpId with
              | Some (Some vp) =>
                  (* a missing cache is created: [new Array(...)] *)
                  let cache := default ∅ (viewportTransforms f2d) in
                  match cache !! vpId with
                  | Some cached =>
                      Ok (cached,
                          {| store := store st;
                             myData := set_viewportTransforms f2d cache |})
                  | None =>
                      match pd, slice (transform vp) (store st) with
                      | Some pd, Some (modelToLogicalArray, store1) =>
                          let store2 := repairViewportMatrix modelToLogicalArray store1 in
                          modelToLogical ←
                            Matrix4.elements_set (default [] (store2 !! modelToLogicalArray));
                          let logicalToModel :=
                            Matrix4.multiply ops
                              (Matrix4.getInverse ops modelToLogical)
                              (pageToLogical pd) in
                          Ok (logicalToModel,
                              {| store := store2;
                                 myData :=
                                   set_viewportTransforms f2d
                                     (<[vpId := logicalToModel]> cache) |})
                      | _, _ => Throw TypeError
                      end
                  end
              | _ => Ok (Matrix4.identity, st)
              end
          end
      end
  end.

End WithOps.

(** *** Clip regions *)

Record Point : Type := { x : float; y : float }.

(** Contour [k] takes the next [contourCounts[k]] point indices. *)
Fixpoint reorganizeContours (contourCounts : list nat) (index : nat)
    : list (list nat) :=
  match contourCounts with
  | [] => []
  | count :: rest => seq index count :: reorganizeContours rest (index + count)
  end.

(** [for (j = 0; j < points.length; j += 2)]: a last coordinate without a
    partner is paired with [undefined], which every use converts to
    NaN. *)
Fixpoint reorganizePoints (points : list float) : list Point :=
  match points with
  | [] => []
  | [px] => [{| x := px; y := PrimFloat.nan |}]
  | px :: py :: rest => {| x := px; y := py |} :: reorganizePoints rest
  end.

(** [a >= b] *)
Definition geb (a b : float) : bool := PrimFloat.leb b a.

(** One round of the loop of [pointInContour] over the vertex [vtx1]. *)
Definition contourStep (px py : float) (vtx0 vtx1 : Point) (yflag0 inside_flag : bool)
    : bool * bool :=
  let yflag1 := geb (y vtx1) py in
  let inside_flag :=
    if negb (Bool.eqb yflag0 yflag1) then
      if Bool.eqb
           (geb ((y vtx1 - py) * (x vtx0 - x vtx1))
                ((x vtx1 - px) * (y vtx0 - y vtx1)))%float
           yflag1
      then negb inside_flag
      else inside_flag
    else inside_flag in
  (yflag1, inside_flag).

Fixpoint contourLoop (px py : float) (pts : list Point) (cntr : list nat)
    (vtx0 : Point) (yflag0 inside_flag : bool) : Result bool :=
  match cntr with
  | [] => Ok inside_flag
  | j :: rest =>
      match pts !! j with
      | None => Throw TypeError
      | Some vtx1 =>
          let '(yflag1, inside_flag) := contourStep px py vtx0 vtx1 yflag0 inside_flag in
          contourLoop px py pts rest vtx1 yflag1 inside_flag
      end
  end.

(** [pointInContour]: reading a coordinate of a point that is not there
    throws, as does an empty contour. *)
Definition pointInContour (px py : float) (cntr : list nat) (pts : list Point)
    : Result bool :=
  match last cntr with
  | None => Throw TypeError
  | Some l =>
      match pts !! l with
      | None => Throw TypeError
      | Some vtx0 => contourLoop px py pts cntr vtx0 (geb (y vtx0) py) false
      end
  end.

Fixpoint polygonLoop (px py : float) (contours : list (list nat)) (pts : list Point)
    (inside : bool) : Result bool :=
  match contours with
  | [] => Ok inside
  | cntr :: rest =>
      hit ← pointInContour px py cntr pts;
      polygonLoop px py rest pts (if (hit : bool) then negb inside else inside)
  end.

Definition pointInPolygon (px py : float) (contours : list (list nat))
    (pts : list Point) : Result bool :=
  polygonLoop px py contours pts false.

(** The contours and points of a clip, as [getClip] and [pointInClip]
    build them. *)
Definition decodeClip (c : Clip) : list (list nat) * list Point :=
  (reorganizeContours (contourCounts c) 0, reorganizePoints (points c)).

(** [getClip]: reading the fields of a clip that is not there throws. *)
Definition getClip (data : F2D) (vpId : nat) : Result (list (list nat) * list Point) :=
  match clips data with
  | None => Throw TypeError
  | Some cs =>
      match cs !! vpId with
      | Some (Some c) => Ok (decodeClip c)
      | _ => Throw TypeError
      end
  end.

(** The loop of [pointInClip] from index [i] on, over the clips from
    that index on. *)
Fixpoint clipLoop (point : Point) (vpId : nat) (i : nat)
    (rest : list (option Clip)) (clipIds : list nat) : Result (list nat) :=
  match rest with
  | [] => Ok clipIds
  | c :: rest' =>
      if Nat.eqb i vpId then clipLoop point vpId (S i) rest' clipIds
      else
        match c with
        | None => Throw TypeError
        | Some clip =>
            let '(contours, pts) := decodeClip clip in
            inside ← pointInPolygon (x point) (y point) contours pts;
            clipLoop point vpId (S i) rest'
              (if (inside : bool) then clipIds ++ [i] else clipIds)
        end
  end.

Definition pointInClip (data : F2D) (point : Point) (vpId : nat)
    : Result (list nat) :=
  match clips data with
  | None => Throw TypeError
  | Some cs => clipLoop point vpId 1 (drop 1 cs) []
  end.

End Model.

(** ** Model: metadata and units *)

Module ModelInfo.

(** The constants of [ModelUnits], which is not part of the code embedded
    here. *)
Inductive ModelUnit : Type := METER | FOOT | INCH | CENTIMETER | MILLIMETER.

(** An item of the metadata: an object with its properties, or null. *)
Inductive MetaItem : Type :=
| MetaNull
| MetaObject (properties : gmap string jsval).

(** The part of [myData] the unit functions read. *)
Record Data : Type := {
  is2d : bool;
  overriddenUnits : option string;
  metadata : option (gmap string MetaItem)
}.

(** What [getMetadata] returns: the item, the subitem, or its
    [defaultValue] argument. *)
Inductive MetaResult : Type :=
| TheItem (item : MetaItem)
| TheSubitem (value : jsval)
| TheDefault.

(** [getMetadata(itemName, subitemName, defaultValue)]; a missing or empty
    [subitemName] is [None].  Reading a subitem of a null item throws. *)
Definition getMetadata (myData : option Data) (itemName : string)
    (subitemName : option string) : Result MetaResult :=
  match myData with
  | None => Ok TheDefault
  | Some data =>
      match metadata data with
      | None => Ok TheDefault
      | Some md =>
          match md !! itemName with
          | None => Ok TheDefault
          | Some item =>
              match subitemName with
              | Some name =>
                  if JsString.truthy name then
                    match item with
                    | MetaNull => Throw TypeError
                    | MetaObject properties =>
                        match properties !! name with
                        | Some subitem => Ok (TheSubitem subitem)
                        | None => Ok TheDefault
                        end
                    end
                  else Ok (TheItem item)
              | None => Ok (TheItem item)
              end
          end
      end
  end.

(** [c.toLowerCase()] on a character: only the letters A to Z change.  The
    characters outside ASCII that the host lowers never become one of the
    letters of the unit names below. *)
Definition lowerChar (c : ascii) : ascii :=
  let n := nat_of_ascii c in
  if Nat.leb 65 n && Nat.leb n 90 then ascii_of_nat (n + 32) else c.

Fixpoint toLowerCase (s : string) : string :=
  match s with
  | EmptyString => EmptyString
  | String c s' => String (lowerChar c) (toLowerCase s')
  end.

(** The value of a [getMetadata] call with the default [null] used as a
    condition. *)
Definition truthyResult (r : MetaResult) : bool :=
  match r with
  | TheDefault => false
  | TheItem MetaNull => false
  | TheItem (MetaObject _) => true
  | TheSubitem JObject => true
  | TheSubitem (JPrim (PStr s)) => JsString.truthy s
  | TheSubitem (JPrim (PNum x)) => JsNumber.truthy x
  | TheSubitem (JPrim (PBool b)) => b
  | TheSubitem (JPrim PNull) => false
  end.

(** [if (unit) unit = unit.toLowerCase();]: the string the [switch] then
    compares, [None] when the unit is falsy and not a string (it matches no
    case).  A truthy unit that is not a string has no [toLowerCase]. *)
Definition lowered (unit : MetaResult) : Result (option string) :=
  match unit with
  | TheSubitem (JPrim (PStr s)) => Ok (Some (if JsString.truthy s then toLowerCase s else s))
  | _ => if truthyResult unit then Throw TypeError else Ok None
  end.

(** The [switch] of [getUnitScale]. *)
Definition scaleSwitch (unit : option string) : float :=
  match unit with
  | None => 1.0
  | Some u =>
      if String.eqb u "meter" || String.eqb u "meters" || String.eqb u "m"
      then 1.0
      else if String.eqb u "feet and inches" || String.eqb u "foot"
              || String.eqb u "feet" || String.eqb u "ft"
      then 0.3048
      else if String.eqb u "inch" || String.eqb u "inches" || String.eqb u "in"
      then 0.0254
      else if String.eqb u "centimeter" || String.eqb u "centimeters" || String.eqb u "cm"
      then 0.01
      else if String.eqb u "millimeter" || String.eqb u "millimeters" || String.eqb u "mm"
      then 0.001
      else 1.0
  end%float.

(** The [switch] of [getUnitString] and of [getDisplayUnit]. *)
Definition unitSwitch (unit : option string) : option ModelUnit :=
  match unit with
  | None => None
  | Some u =>
      if String.eqb u "meter" || String.eqb u "meters" || String.eqb u "m"
      then Some METER
      else if String.eqb u "feet and inches" || String.eqb u "foot"
              || String.eqb u "feet" || String.eqb u "ft"
      then Some FOOT
      else if String.eqb u "inch" || String.eqb u "inches" || String.eqb u "in"
      then Some INCH
      else if String.eqb u "centimeter" || String.eqb u "centimeters" || String.eqb u "cm"
      then Some CENTIMETER
      else if String.eqb u "millimeter" || String.eqb u "millimeters" || String.eqb u "mm"
      then Some MILLIMETER
      else None
  end.

(** [!!(this.myData && this.myData.is2d)] *)
Definition is2dModel (myData : option Data) : bool :=
  match myData with
  | Some data => is2d data
  | None => false
  end.

Definition getUnitScale (myData : option Data) : Result float :=
  unit ← (if negb (is2dModel myData)
          then getMetadata myData "distance unit" (Some "value")
          else getMetadata myData "page_dimensions" (Some "page_units"));
  unit ← lowered unit;
  Ok (scaleSwitch unit).

(** [this.myData && this.myData.overriddenUnits] *)
Definition overridden (myData : option Data) : option string :=
  match myData with
  | Some data =>
      match overriddenUnits data with
      | Some u => if JsString.truthy u then Some u else None
      | None => None
      end
  | None => None
  end.

Definition getUnitString (myData : option Data) : Result (option ModelUnit) :=
  unit ← (if negb (is2dModel myData) then
            match overridden myData with
            | Some u => Ok (TheSubitem (JPrim (PStr u)))
            | None => getMetadata myData "distance unit" (Some "value")
            end
          else getMetadata myData "page_dimensions" (Some "page_units"));
  unit ← lowered unit;
  Ok (unitSwitch unit).

Definition getDisplayUnit (myData : option Data) : Result (option ModelUnit) :=
  unit ← (if negb (is2dModel myData)
          then getMetadata myData "distance unit" (Some "value")
          else
            model_units ← getMetadata myData "page_dimensions" (Some "model_units");
            if truthyResult model_units then Ok model_units
            else getMetadata myData "page_dimensions" (Some "page_units"));
  unit ← lowered unit;
  Ok (unitSwitch unit).

End ModelInfo.

(** ** Viewer state *)

Module ViewerState.

(** A value of a viewer state or of a filter: plain data.  An array is an
    object whose properties are its indices, with the flag set; a deleted
    element is a missing index.  [properties] are the own properties of an
    object; what it inherits is read through [filterValue] below. *)
#[local] Unset Elimination Schemes.
Inductive json : Type :=
| JNull
| JBool (b : bool)
| JNumber (x : float)
| JString (s : string)
| JObj (array : bool) (properties : gmap string json).
#[local] Set Elimination Schemes.

(** What a call of [applyFilter] comes to: the state it leaves, an
    exception, or an outcome that hangs on the properties of built-in
    objects other than [Object.prototype] (functions, the prototype of
    arrays), which differ between hosts and are not embedded. *)
Inductive Outcome : Type :=
| Filtered (state : json)
| Raised (e : JsError)
| HostDefined.

(** The cases [applyFilter] makes of [filter[key]]: [undefined], a
    boolean, an object of the filter, a function inherited from
    [Object.prototype], any other value, and a property of the prototype
    of arrays, if it has one of the name. *)
Inductive FilterKind : Type :=
| Unspecified
| Flag (b : bool)
| Nested (array : bool) (properties : gmap string json)
| Function
| Invalid
| HostProperty.

(** A key written with decimal digits only: no built-in object has a
    property of such a name. *)
Definition all_digits (key : string) : bool :=
  negb (String.eqb key "")
  && forallb (fun c => Nat.leb 48 (nat_of_ascii c) && Nat.leb (nat_of_ascii c) 57)
       (list_ascii_of_string key).

(** [filter[key]] for a filter that is an object: an own property, else
    what the filter inherits.  An array has its [length], a number, and
    inherits from the prototype of arrays; a plain object inherits from
    [Object.prototype], whose [__proto__] reads as [Object.prototype]
    itself, which is not [instanceof Object]. *)
Definition filterValue (array : bool) (filter : gmap string json) (key : string)
    : FilterKind :=
  match filter !! key with
  | Some (JBool b) => Flag b
  | Some (JObj a f) => Nested a f
  | Some _ => Invalid
  | None =>
      if array then
        if String.eqb key "length" then Invalid
        else if all_digits key then Unspecified
        else HostProperty
      else
        match JsObject.inherited key with
        | Some JsObject.ObjectPrototype => Invalid
        | Some (JsObject.Method _) => Function
        | None => Unspecified
        end
  end.

(** What the loop comes to at one key: the value the key is left with,
    its removal, an exception, or an outcome left open. *)
Inductive KeyOutcome : Type :=
| Kept (value : json)
| Removed
| Failed
| Open.

Definition is_open (o : KeyOutcome) : bool :=
  match o with Open => true | _ => false end.

Definition is_failed (o : KeyOutcome) : bool :=
  match o with Failed => true | _ => false end.

Definition kept_value (o : KeyOutcome) : option json :=
  match o with Kept v => Some v | _ => None end.

(** The outcome of the loop from the outcomes at its keys.  The order in
    which the keys are taken decides between an exception at one key and
    an open outcome at another, so the outcome is left open then. *)
Definition loopOutcome (array : bool) (outcomes : gmap string KeyOutcome) : Outcome :=
  if existsb (fun kv => is_open kv.2) (map_to_list outcomes) then HostDefined
  else if existsb (fun kv => is_failed kv.2) (map_to_list outcomes) then Raised TypeError
  else Filtered (JObj array (omap kept_value outcomes)).

(** The loop of [applyFilter(viewerState, filter)] for a filter that is
    an object.  The loop is entered with objects only: with the state
    object of the callers, and below it with the values that are
    [instanceof Object].  A state with a property [hasOwnProperty] of its
    own has the call [viewerState.hasOwnProperty(key)] of the first round
    throw, as no value of plain data is a function.  Under a function as
    the filter, a state without properties is left as it is, and the
    outcome for any other state is left open. *)
Fixpoint filtered (viewerState : json) (array : bool) (filter : gmap string json)
    : Outcome :=
  match viewerState with
  | JObj a state =>
      match state !! "hasOwnProperty" with
      | Some _ => Raised TypeError
      | None =>
          loopOutcome a
            (map_imap
               (fun key value =>
                  Some
                    match filterValue array filter key with
                    | Unspecified => Removed
                    | Flag false => Removed
                    | Flag true => Kept value
                    | Nested fa f =>
                        match value with
                        | JObj _ _ =>
                            match filtered value fa f with
                            | Filtered v => Kept v
                            | Raised _ => Failed
                            | HostDefined => Open
                            end
                        | _ => Kept value
                        end
                    | Function =>
                        match value with
                        | JObj _ sub => if Nat.eqb (size sub) 0 then Kept value else Open
                        | _ => Kept value
                        end
                    | Invalid => Kept value
                    | HostProperty => Open
                    end) state)
      end
  | _ => Filtered viewerState
  end.

(** The [filter] argument: [true], or an object. *)
Inductive Filter : Type :=
| FILTER_ALL
| FilterObject (array : bool) (properties : gmap string json).

(** [applyFilter(viewerState, filter)] on a state that is an object, given
    by its properties. *)
Definition applyFilter (array : bool) (properties : gmap string json)
    (filter : Filter) : Outcome :=
  match filter with
  | FILTER_ALL => Filtered (JObj array properties)
  | FilterObject fa f => filtered (JObj array properties) fa f
  end.

(** [getLightPresetIndex]; [presets] are the names of [LightPresets]. *)
Fixpoint lightPresetFrom (presets : list string) (environmentName : string) (i : nat)
    : Z :=
  match presets with
  | [] => (-1)%Z
  | name :: rest =>
      if String.eqb name environmentName then Z.of_nat i
      else lightPresetFrom rest environmentName (S i)
  end.

Definition getLightPresetIndex (presets : list string) (environmentName : string) : Z :=
  lightPresetFrom presets environmentName 0.

End ViewerState.

(** * Reference definitions

    Definitions the properties below are stated with; they are not part of
    the embedded code. *)

(** ** Subtrees and references *)

(** The nodes of a subtree, parent before descendants, siblings in order. *)
Fixpoint preorder (n : node) : list node :=
  n :: match n with
       | Node _ None => []
       | Node _ (Some cs) =>
           (fix each (cs : list node) : list node :=
              match cs with
              | [] => []
              | c :: rest => preorder c ++ each rest
              end) cs
       end.

(** The nodes of the proper subtree of [n], in pre-order. *)
Definition descendants (n : node) : list node :=
  flat_map preorder (default [] (children n)).

(** The references, relative to [n], of the nodes of its subtree, in
    pre-order. *)
Fixpoint subtreeRefs (n : node) : list ItemRef :=
  [] :: match n with
        | Node _ None => []
        | Node _ (Some cs) =>
            (fix each (i : nat) (cs : list node) : list ItemRef :=
               match cs with
               | [] => []
               | c :: rest => map (cons i) (subtreeRefs c) ++ each (S i) rest
               end) 0 cs
        end.

(** The references of the proper subtree of [n]. *)
Definition descendantRefs (n : node) : list ItemRef := tail (subtreeRefs n).

(** The references of the children from index [i] on. *)
Definition childRefs : nat -> list node -> list ItemRef :=
  fix each (i : nat) (cs : list node) : list ItemRef :=
    match cs with
    | [] => []
    | c :: rest => map (cons i) (subtreeRefs c) ++ each (S i) rest
    end.

(** The test the search applies to the node a reference leads to. *)
Definition matches_at (n : node) (flt : Filter) (p : ItemRef) : bool :=
  match node_at n p with
  | Some c => hasProperties c flt
  | None => false
  end.

(** The names of the properties of an item that the embedding holds in
    fields of their own; every other property is in [extra]. *)
Definition field_names : list string :=
  ["type"; "role"; "mime"; "guid"; "urn"; "tileSize"; "resolution"; "paperWidth";
   "paperHeight"; "paperUnits"; "max_level"; "messages"; "children"; "parent"].

(** ** Occurrences in strings *)

(** [pat] occurs in [s] at index [k]. *)
Definition occurs_at (pat s : string) (k : nat) : Prop :=
  exists pre post, s = pre +:+ pat +:+ post /\ String.length pre = k.

(** The first and the last occurrence of [pat] in [s]. *)
Definition first_occurrence (pat s : string) (k : nat) : Prop :=
  occurs_at pat s k /\ forall j, occurs_at pat s j -> k <= j.

Definition last_occurrence (pat s : string) (k : nat) : Prop :=
  occurs_at pat s k /\ forall j, occurs_at pat s j -> j <= k.

(** ** The pass that builds the indices *)

(** A geometry item with children: its views are indexed and counted, and
    the pass does not look below it. *)
Definition has_view_index (item : node) : bool :=
  type_is item "geometry" && negb (Nat.eqb (childCount item) 0).

(** An item taken for the shared property database: the pass does not look
    below it either. *)
Definition db_hit (item : node) : bool :=
  negb (has_view_index item) && is_shared_db item.

(** The nodes [annotateViews] is applied to, in the order of the calls. *)
Fixpoint visited (n : node) : list node :=
  n :: match n with
       | Node _ None => []
       | Node _ (Some cs) =>
           if has_view_index n || is_shared_db n then []
           else (fix each (cs : list node) : list node :=
                   match cs with
                   | [] => []
                   | c :: rest => visited c ++ each rest
                   end) cs
       end.

(** The number of direct children of type view. *)
Definition count_views (g : node) : nat :=
  length (List.filter (fun c => type_is c "view") (default [] (children g))).

(** The index key of a node. *)
Definition guid_key (n : node) : string := key_of (guid (fields n)).

(** The nodes [annotateViews] is applied to, each with its parent, in the
    order of the calls. *)
Fixpoint visitedFrom (above : option node) (n : node) : list (option node * node) :=
  (above, n) ::
    match n with
    | Node _ None => []
    | Node _ (Some cs) =>
        if has_view_index n || is_shared_db n then []
        else (fix each (cs : list node) : list (option node * node) :=
                match cs with
                | [] => []
                | c :: rest => visitedFrom (Some n) c ++ each rest
                end) cs
    end.

(** What one call of [annotateViews] does at its own item. *)
Definition annotateOne (host : Host) (a : Annotations) (located : option node * node)
    : Annotations :=
  let '(above, item) := located in
  if has_view_index item then
    {| viewGeometry :=
         (annotateGeometry item above (default [] (children item)) (viewGeometry a) 0).1;
       numViews := count_set (key_of (guid (fields item))) (count_views item) (numViews a);
       propertyDb := propertyDb a |}
  else if is_shared_db item then
    {| viewGeometry := viewGeometry a;
       numViews := numViews a;
       propertyDb := Some (propertyDbPath host (default "" (urn (fields item)))) |}
  else a.

(** ** Parent chains *)

(** The messages of the node [above] leads to and of its ancestors, the
    node's own first and the root's last. *)
Fixpoint chainMessages (tree : node) (above : list nat) : list Message :=
  default [] (node_at tree (rev above) ≫= fun n => messages (fields n)) ++
  match above with
  | [] => []
  | _ :: above' => chainMessages tree above'
  end.

(** ** Viewport transforms and clips *)

(** A 16-entry array with its first two rows exchanged. *)
Definition swapRows01 (e : list float) : list float :=
  take 4 (drop 4 e) ++ take 4 e ++ drop 8 e.

(** The matrix a call returns, without the state. *)
Definition returned {A B : Type} (r : Result (A * B)) : Result A :=
  match r with
  | Ok (a, _) => Ok a
  | Throw e => Throw e
  end.

(** A clip every contour of which has points, all among the decoded
    points. *)
Definition clip_wf (c : Model.Clip) : Prop :=
  Forall (fun count => 0 < count) (Model.contourCounts c)
  /\ sum_list (Model.contourCounts c) <= length (Model.reorganizePoints (Model.points c)).

(** The region of a clip entry contains the point: the polygon test on the
    decoded clip says so. *)
Definition contains (entry : option (option Model.Clip)) (point : Model.Point) : bool :=
  match entry with
  | Some (Some clip) =>
      match Model.pointInPolygon (Model.x point) (Model.y point)
              (Model.decodeClip clip).1 (Model.decodeClip clip).2 with
      | Ok inside => inside
      | Throw _ => false
      end
  | _ => false
  end.

(** The ids [pointInClip] is to return, by their defining property. *)
Definition clipsAround (cs : list (option Model.Clip)) (point : Model.Point)
    (vpId : nat) : list nat :=
  List.filter (fun i => negb (Nat.eqb i vpId) && contains (cs !! i) point)
    (seq 1 (length cs - 1)).

(** ** Lookups by guid *)

(** The search of [itemById] among the children from index [i] on. *)
Definition childrenById (order : KeyOrder) (id : string) (here : ItemRef)
    : nat -> list node -> option ItemRef :=
  fix each (i : nat) (cs : list node) : option ItemRef :=
    match cs with
    | [] => None
    | c :: rest =>
        match itemById order id (here ++ [i]) c with
        | Some item => Some item
        | None => each (S i) rest
        end
    end.

(** The node at a reference carries the guid. *)
Definition has_guid_at (root : node) (id : string) (p : ItemRef) : Prop :=
  exists m, node_at root p = Some m /\ guid (fields m) = Some id.

(** ** The view index *)

(** The view children of the geometry items the pass indexes, each with
    its geometry item, in the order in which they are entered. *)
Definition indexedViews (root : node) : list (node * node) :=
  flat_map
    (fun g => map (fun c => (g, c))
                (List.filter (fun c => type_is c "view") (default [] (children g))))
    (List.filter has_view_index (visited root)).

(** The assignments to the view index in the course of the pass over the
    items of a list, in their order: the parent of the geometry item, the
    geometry item and its view child. *)
Definition indexWrites (l : list (option node * node))
    : list (option node * node * node) :=
  flat_map
    (fun located =>
       if has_view_index located.2
       then map (fun c => (located.1, located.2, c))
              (List.filter (fun c => type_is c "view") (default [] (children located.2)))
       else [])
    l.

(** One assignment to the view index. *)
Definition indexWrite (ix : ViewIndex) (w : option node * node * node) : ViewIndex :=
  index_set (guid_key w.2) w.1.2 w.1.1 ix.

(** [item.mime] is the string [m]. *)
Definition mime_is (n : node) (m : string) : bool :=
  match mime (fields n) with
  | Some s => String.eqb s m
  | None => false
  end.

(** ** Messages *)

(** The references of an item and of its ancestors, the item first and
    the root last. *)
Definition ancestorRefs (p : ItemRef) : list ItemRef :=
  map (fun k => take k p) (rev (seq 0 (S (length p)))).

(** The messages of the item at a reference, none when there is no such
    item. *)
Definition messagesAt (tree : node) (p : ItemRef) : list Message :=
  default [] (node_at tree p ≫= fun n => messages (fields n)).

(** The nodes of a subtree, parent before descendants, siblings from the
    last to the first. *)
Fixpoint mirrorOrder (n : node) : list node :=
  n :: match n with
       | Node _ None => []
       | Node _ (Some cs) =>
           (fix each (cs : list node) : list node :=
              match cs with
              | [] => []
              | c :: rest => each rest ++ mirrorOrder c
              end) cs
       end.

(** The children loop of [traverseMessages]. *)
Definition backwardsMessages : list node -> Tally -> Tally :=
  fix backwards (cs : list node) (t : Tally) : Tally :=
    match cs with
    | [] => t
    | c :: rest => traverseMessages c (backwards rest t)
    end.

Definition emptyTally : Tally :=
  {| collectedmessages := []; translateFailedCount := 0; translateProgressCount := 0 |}.

(** The tally after a list of items: their messages are appended, and the
    items with an error message and the items in progress are counted. *)
Definition tallyOf (l : list node) (t : Tally) : Tally :=
  {| collectedmessages := collectedmessages t ++ flat_map messagesOf l;
     translateFailedCount :=
       translateFailedCount t +
       length (List.filter (fun n => existsb is_error (messagesOf n)) l);
     translateProgressCount :=
       translateProgressCount t + length (List.filter in_progress l) |}.

(** A folder of role viewable. *)
Definition is_viewable_folder (n : node) : bool :=
  type_is n "folder" && role_is n "viewable".

(** ** The transform cache and the rows of a transform *)

(** The cached transforms of a state, none when there is no cache yet. *)
Definition cachedTransforms (st : Model.State) : gmap nat Matrix4.t :=
  default ∅ (Model.viewportTransforms (Model.myData st)).

(** The first three rows of a 16-entry array, and the last one. *)
Definition upperRows (e : list float) : list (list float) :=
  [take 4 e; take 4 (drop 4 e); take 4 (drop 8 e)].

Definition lastRow (e : list float) : list float := drop 12 e.

(** ** The polygon test *)

(** The contour has a vertex, and every index of it has a point. *)
Definition contour_ok (pts : list Model.Point) (cntr : list nat) : bool :=
  negb (Nat.eqb (length cntr) 0) && forallb (fun j => Nat.ltb j (length pts)) cntr.

(** [pointInContour] says that the point is inside the contour. *)
Definition in_contour (px py : float) (pts : list Model.Point) (cntr : list nat) : bool :=
  match Model.pointInContour px py cntr pts with
  | Ok inside => inside
  | Throw _ => false
  end.

(** The entry is a clip every contour of which is in order. *)
Definition entry_ok (entry : option (option Model.Clip)) : bool :=
  match entry with
  | Some (Some clip) =>
      forallb (contour_ok (Model.decodeClip clip).2) (Model.decodeClip clip).1
  | _ => false
  end.

(** The coordinates of a list of points, in a row. *)
Definition coordinates (pts : list Model.Point) : list float :=
  flat_map (fun p => [Model.x p; Model.y p]) pts.

(** ** Clip regions, read from the flat arrays

    The region of a clip as the specification describes it: contour [k]
    takes the next [contourCounts[k]] points, point [j] has the
    coordinates [2j] and [2j+1] of the flat array, the point is in a
    contour when the ray from it to the right crosses an odd number of
    its edges, and in the region when it is in an odd number of its
    contours. *)

(** Point [j] of a clip; a coordinate that is not there reads as NaN. *)
Definition regionPoint (c : Model.Clip) (j : nat) : Model.Point :=
  {| Model.x := default PrimFloat.nan (Model.points c !! (2 * j));
     Model.y := default PrimFloat.nan (Model.points c !! (2 * j + 1)) |}.

(** The indices of the points of contour [k]. *)
Definition regionLoop (c : Model.Clip) (k : nat) : list nat :=
  seq (sum_list (take k (Model.contourCounts c)))
      (default 0 (Model.contourCounts c !! k)).

(** The vertices of contour [k], in order. *)
Definition regionVertices (c : Model.Clip) (k : nat) : list Model.Point :=
  map (regionPoint c) (regionLoop c k).

(** The ray from [(px, py)] to the right crosses the edge from [v0] to
    [v1]: the end points are on different sides of the ray's line (a
    point on the line counts as above), and the crossing is not to the
    left of the point. *)
Definition rayCrosses (px py : float) (v0 v1 : Model.Point) : bool :=
  xorb (Model.geb (Model.y v0) py) (Model.geb (Model.y v1) py)
  && Bool.eqb
       (Model.geb ((Model.y v1 - py) * (Model.x v0 - Model.x v1))
                  ((Model.x v1 - px) * (Model.y v0 - Model.y v1)))%float
       (Model.geb (Model.y v1) py).

(** The edges of the closed loop through the vertices: from the last
    vertex to the first, and from each vertex to the next. *)
Definition loopEdges (vs : list Model.Point) : list (Model.Point * Model.Point) :=
  match last vs with
  | Some l => zip (l :: vs) vs
  | None => []
  end.

Definition insideLoop (px py : float) (vs : list Model.Point) : bool :=
  Nat.odd (length (List.filter (fun e => rayCrosses px py e.1 e.2) (loopEdges vs))).

Definition insideRegion (c : Model.Clip) (p : Model.Point) : bool :=
  Nat.odd (length (List.filter
                     (fun k => insideLoop (Model.x p) (Model.y p) (regionVertices c k))
                     (seq 0 (length (Model.contourCounts c))))).

(** The region of a clip entry contains the point. *)
Definition inRegion (entry : option (option Model.Clip)) (p : Model.Point) : bool :=
  match entry with
  | Some (Some c) => insideRegion c p
  | _ => false
  end.

(** The ids [pointInClip] is to return, by their defining property. *)
Definition regionsAround (cs : list (option Model.Clip)) (p : Model.Point)
    (vpId : nat) : list nat :=
  List.filter (fun i => negb (Nat.eqb i vpId) && inRegion (cs !! i) p)
    (seq 1 (length cs - 1)).

(** ** Units *)

(** The length in meters of a unit, 1 for a unit that is not known. *)
Definition metersPer (unit : option ModelInfo.ModelUnit) : float :=
  match unit with
  | None => 1.0
  | Some ModelInfo.METER => 1.0
  | Some ModelInfo.FOOT => 0.3048
  | Some ModelInfo.INCH => 0.0254
  | Some ModelInfo.CENTIMETER => 0.01
  | Some ModelInfo.MILLIMETER => 0.001
  end%float.

(** ** Viewer states *)

(** The number of objects in a value, nested ones included. *)
Fixpoint json_size (v : ViewerState.json) : nat :=
  match v with
  | ViewerState.JObj _ properties =>
      S (map_fold (fun _ value acc => json_size value + acc) 0 properties)
  | _ => 0
  end.

(** [within v w]: [v] is [w] with some keys taken out, at any depth; no
    key is added and no value that is not an object is changed. *)
#[local] Unset Elimination Schemes.
#[local] Set Elimination Schemes.

(** What the loop of [applyFilter] comes to at one key, for a filter that
    is an object. *)
Definition keyOutcome (fa : bool) (f : gmap string ViewerState.json) (key : string)
    (value : ViewerState.json) : ViewerState.KeyOutcome :=
  match ViewerState.filterValue fa f key with
  | ViewerState.Unspecified => ViewerState.Removed
  | ViewerState.Flag false => ViewerState.Removed
  | ViewerState.Flag true => ViewerState.Kept value
  | ViewerState.Nested fa' f' =>
      match value with
      | ViewerState.JObj _ _ =>
          match ViewerState.filtered value fa' f' with
          | ViewerState.Filtered v => ViewerState.Kept v
          | ViewerState.Raised _ => ViewerState.Failed
          | ViewerState.HostDefined => ViewerState.Open
          end
      | _ => ViewerState.Kept value
      end
  | ViewerState.Function =>
      match value with
      | ViewerState.JObj _ sub =>
          if Nat.eqb (size sub) 0 then ViewerState.Kept value else ViewerState.Open
      | _ => ViewerState.Kept value
      end
  | ViewerState.Invalid => ViewerState.Kept value
  | ViewerState.HostProperty => ViewerState.Open
  end.

(** ** Lines *)

(** The string has no line break. *)
Fixpoint no_newline (s : string) : bool :=
  match s with
  | EmptyString => true
  | String c s' => negb (Ascii.eqb c "010"%char) && no_newline s'
  end.

(** * Sample data *)

(** ** Hosts *)

(** A browser session on line: no off-line prefix, [parent] bound to the
    window; the off-line prefixes and tile sizes used in the samples are
    ones on which the two host functions act as given here. *)
Definition browser : Host :=
  {| OSS_PREFIX := "urn:adsk.objects:os.object:";
     VIEWING_URL := "https://viewing.example/v1";
     offline := false;
     offlineResourcePrefix := "";
     decodeURIComponent := fun s => Ok s;
     computeLevelOffset := fun _ => 9%float;
     global_parent := Some WindowObject |}.

(** A host without a global named [parent]. *)
Definition worker : Host :=
  {| OSS_PREFIX := OSS_PREFIX browser;
     VIEWING_URL := VIEWING_URL browser;
     offline := false;
     offlineResourcePrefix := "";
     decodeURIComponent := decodeURIComponent browser;
     computeLevelOffset := computeLevelOffset browser;
     global_parent := None |}.

(** ** Manifests *)

(** Node fields with the five string properties given and nothing else. *)
Definition plainFields (type role mime guid urn : option string) : NodeFields :=
  {| type := type; role := role; mime := mime; guid := guid; urn := urn;
     tileSize := None; resolution := None; paperWidth := None; paperHeight := None;
     paperUnits := None; max_level := None; messages := None; extra := ∅ |}.

Definition sampleLeaflet : node :=
  Node {| type := Some "resource"; role := Some "leaflet"; mime := Some "image/png";
          guid := Some "L1"; urn := Some "tiles/{z}/{x}_{y}.png";
          tileSize := None; resolution := Some [4096; 2048]%float;
          paperWidth := Some (PNum 11); paperHeight := Some (PNum 8.5);
          paperUnits := Some (PStr "in"); max_level := None; messages := None;
          extra := ∅ |} None.

Definition sampleF2d : node :=
  Node (plainFields (Some "resource") (Some "graphics") (Some "application/autodesk-f2d")
          (Some "F1") (Some "sheet/primaryGraphics.f2d")) None.

Definition sampleSheet : node :=
  Node (plainFields (Some "geometry") (Some "2d") None (Some "G1") None)
       (Some [sampleLeaflet; sampleF2d]).

Definition sampleDoc : Document :=
  Document_new browser (Some sampleSheet) "https://host.example/doc/bubble.json" None.

Definition docAt (path : string) : Document :=
  Document_new browser None path None.

Definition sampleDbA : node :=
  Node (plainFields (Some "resource") None (Some "application/autodesk-db")
          (Some "D1") (Some "shared/a/objects_attrs.json.gz")) None.

Definition sampleDbB : node :=
  Node (plainFields (Some "resource") None (Some "application/autodesk-db")
          (Some "D2") (Some "shared/b/objects_attrs.json.gz")) None.

Definition sampleFolder : node :=
  Node (plainFields (Some "folder") (Some "viewable") None (Some "R") None)
       (Some [sampleDbA; sampleDbB]).

Definition sampleView : node :=
  Node (plainFields (Some "view") (Some "3d") None (Some "V1") None) None.

Definition sampleInnerGeometry : node :=
  Node (plainFields (Some "geometry") (Some "3d") None (Some "G2") None)
       (Some [sampleView]).



(** A view item with the guid 'parent' above a geometry item one of whose
    view children has the guid '__proto__'. *)
Definition sampleProtoView : node :=
  Node (plainFields (Some "view") (Some "3d") None (Some "__proto__") None) None.

Definition sampleProtoGeometry : node :=
  Node (plainFields (Some "geometry") (Some "3d") None (Some "G3") None)
       (Some [sampleProtoView]).

Definition sampleParentView : node :=
  Node (plainFields (Some "view") (Some "3d") None (Some "parent") None)
       (Some [sampleProtoGeometry]).

Definition rootMessage : Message := {| msg_type := "warning"; msg_text := "whole file" |}.
Definition sheetMessage : Message := {| msg_type := "error"; msg_text := "sheet 1" |}.

Definition messageFields (guid : string) (ms : list Message) : NodeFields :=
  {| type := Some "folder"; role := None; mime := None; guid := Some guid; urn := None;
     tileSize := None; resolution := None; paperWidth := None; paperHeight := None;
     paperUnits := None; max_level := None; messages := Some ms; extra := ∅ |}.

Definition sampleMessageTree : node :=
  Node (messageFields "R" [rootMessage])
       (Some [Node (messageFields "S1" [sheetMessage]) None]).

Definition sampleMessageDoc : Document :=
  Document_new browser (Some sampleMessageTree) "doc" None.

(** ** 2-D data *)

Definition samplePage : Model.PageDimensions :=
  {| Model.page_width := 11; Model.page_height := 8.5;
     Model.logical_width := 1100; Model.logical_height := 850;
     Model.logical_offset_x := 0; Model.logical_offset_y := 0 |}.

(** A transform whose first pivot is exactly the threshold [1e-3]. *)
Definition thresholdTransform : list float :=
  [JsNumber.precision; 0; 0; 0;
   0; 1; 0; 0;
   0; 0; 1; 0;
   0; 0; 0; 1]%float.

Definition scaledTransform : list float :=
  [2; 0; 0; 0;
   0; 2; 0; 0;
   0; 0; 1; 0;
   0; 0; 0; 1]%float.

Definition unitSquare : Model.Clip :=
  {| Model.contourCounts := [4];
     Model.points := [0; 0; 1; 0; 1; 1; 0; 1]%float |}.

Definition farSquare : Model.Clip :=
  {| Model.contourCounts := [4];
     Model.points := [5; 5; 6; 5; 6; 6; 5; 6]%float |}.

Definition sampleData : Model.F2D :=
  {| Model.pageToModelTransform := None;
     Model.metadata := Some {| Model.page_dimensions := Some samplePage |};
     Model.viewports := Some [None; Some {| Model.transform := 1 |}];
     Model.viewportTransforms := None;
     Model.clips := Some [None; Some unitSquare; Some farSquare; Some unitSquare] |}.

Definition sampleState (raw : list float) : Model.State :=
  {| Model.store := {[ 1 := raw ]}; Model.myData := sampleData |}.

(** Matrix operations that keep their first argument, for running the
    samples. *)
Definition sampleOps : Matrix4.Ops :=
  {| Matrix4.getInverse := fun m => m; Matrix4.multiply := fun a _ => a |}.

(** A 3-D model measured in feet, and a sheet in inches drawn in
    millimeters. *)
Definition sampleUnits : ModelInfo.Data :=
  {| ModelInfo.is2d := false;
     ModelInfo.overriddenUnits := None;
     ModelInfo.metadata :=
       Some {[ "distance unit" :=
                 ModelInfo.MetaObject {[ "value" := JPrim (PStr "Feet") ]} ]} |}.

(** ** Viewer states *)

Definition sampleViewerState : gmap string ViewerState.json :=
  {[ "seedURN" := ViewerState.JString "urn:x";
     "viewport" :=
       ViewerState.JObj false
         {[ "name" := ViewerState.JString "front";
            "fov" := ViewerState.JNumber 45 ]} ]}.

Definition sampleViewerFilter : ViewerState.Filter :=
  ViewerState.FilterObject false
    {[ "viewport" :=
         ViewerState.JObj false {[ "fov" := ViewerState.JBool true ]} ]}.

(** * Properties *)

(** [sixteen M H] replaces a list [M] of length 16, as [H] says, by its
    entries. *)
Ltac sixteen M H :=
  do 16 (destruct M as [|? M]; [discriminate H|]);
  destruct M; [clear H | discriminate H].

(** ** Induction on manifest trees *)

Lemma node_ind (P : node -> Prop) :
  (forall f, P (Node f None)) ->
  (forall f cs, Forall P cs -> P (Node f (Some cs))) ->
  forall n, P n.
Proof.
  intros Hleaf Hinner.
  fix IH 1. intros [f [cs|]]; [|apply Hleaf].
  apply Hinner. induction cs as [|c cs IHcs]; constructor; [apply IH | exact IHcs].
Qed.

(** ** Searching by properties *)

Lemma subItems_unfold f flt rec cs :
  subItemsWithProperties flt rec (Node f (Some cs)) =
  flat_map (fun child =>
              (if hasProperties child flt then [child] else []) ++
              (if rec then subItemsWithProperties flt rec child else [])) cs.
Proof.
  simpl. induction cs as [|c cs IH]; [reflexivity|].
  simpl. rewrite IH. by rewrite <- !app_assoc.
Qed.

Lemma preorder_unfold f cs :
  preorder (Node f (Some cs)) = Node f (Some cs) :: flat_map preorder cs.
Proof.
  reflexivity.
Qed.

Lemma subItems_preorder flt n :
  (if hasProperties n flt then [n] else []) ++ subItemsWithProperties flt true n =
  List.filter (fun c => hasProperties c flt) (preorder n).
Proof.
  induction n as [f|f cs IH] using node_ind.
  - simpl. destruct (hasProperties _ _); reflexivity.
  - rewrite subItems_unfold, preorder_unfold. simpl List.filter.
    assert (flat_map (fun child =>
              (if hasProperties child flt then [child] else []) ++
              subItemsWithProperties flt true child) cs
            = List.filter (fun c => hasProperties c flt) (flat_map preorder cs)) as ->.
    { induction IH as [|c cs Hc _ IHcs]; [reflexivity|].
      simpl flat_map. rewrite List.filter_app, <- Hc, IHcs. reflexivity. }
    destruct (hasProperties _ _); reflexivity.
Qed.

Lemma subtreeRefs_unfold f cs :
  subtreeRefs (Node f (Some cs)) = [] :: childRefs 0 cs.
Proof. reflexivity. Qed.

Lemma node_at_child f cs i p :
  node_at (Node f (Some cs)) (i :: p) = cs !! i ≫= fun c => node_at c p.
Proof. simpl. destruct (cs !! i); reflexivity. Qed.

Lemma childRefs_nodes f pre cs :
  Forall (fun c => map (node_at c) (subtreeRefs c) = map Some (preorder c)) cs ->
  map (node_at (Node f (Some (pre ++ cs)))) (childRefs (length pre) cs) =
  map Some (flat_map preorder cs).
Proof.
  revert pre. induction cs as [|c cs IH]; intros pre Hall; [reflexivity|].
  inversion Hall as [|? ? Hc Hcs]; subst.
  cbn [childRefs flat_map]. rewrite !map_app. f_equal.
  - rewrite <- Hc, map_map. apply map_ext. intros p.
    rewrite node_at_child.
    rewrite lookup_app_r by lia. by rewrite Nat.sub_diag.
  - specialize (IH (pre ++ [c]) Hcs).
    rewrite <- app_assoc, length_app in IH. simpl in IH.
    by rewrite Nat.add_1_r in IH.
Qed.

Lemma subtreeRefs_nodes n :
  map (node_at n) (subtreeRefs n) = map Some (preorder n).
Proof.
  induction n as [f|f cs IH] using node_ind; [reflexivity|].
  rewrite subtreeRefs_unfold, preorder_unfold. cbn [map node_at]. f_equal.
  apply (childRefs_nodes f [] cs IH).
Qed.

Lemma childRefs_elem i cs p :
  p ∈ childRefs i cs <->
  exists j c q, p = (i + j) :: q /\ cs !! j = Some c /\ q ∈ subtreeRefs c.
Proof.
  revert i. induction cs as [|c cs IH]; intros i; cbn [childRefs].
  - split; [by intros ?%not_elem_of_nil | by intros (j & ? & ? & _ & ? & _)].
  - rewrite elem_of_app, IH, list_elem_of_fmap. split.
    + intros [(q & -> & Hq)|(j & c' & q & -> & Hj & Hq)].
      * exists 0, c, q. by rewrite Nat.add_0_r.
      * exists (S j), c', q. split_and!; [f_equal; lia | done | done].
    + intros (j & c' & q & -> & Hj & Hq). destruct j as [|j].
      * left. exists q. simpl in Hj. injection Hj as ->. by rewrite Nat.add_0_r.
      * right. exists j, c', q. split_and!; [f_equal; lia | done | done].
Qed.

Lemma subtreeRefs_elem n p :
  p ∈ subtreeRefs n <-> is_Some (node_at n p).
Proof.
  revert p. induction n as [f|f cs IH] using node_ind; intros p.
  - cbn [subtreeRefs]. rewrite list_elem_of_singleton. split.
    + intros ->. by eexists.
    + destruct p; [done|]. simpl. by intros [? ?].
  - rewrite subtreeRefs_unfold, elem_of_cons, childRefs_elem. split.
    + intros [->|(j & c & q & -> & Hj & Hq)]; [by eexists|].
      rewrite node_at_child. change (0 + j) with j. rewrite Hj. simpl.
      rewrite Forall_forall in IH. apply IH; [|done].
      by eapply list_elem_of_lookup_2.
    + destruct p as [|i q]; [by left|]. intros Hsome. right.
      rewrite node_at_child in Hsome.
      destruct (cs !! i) as [c|] eqn:Hi; [|by destruct Hsome].
      exists i, c, q. split_and!; [done..|].
      rewrite Forall_forall in IH. apply IH; [|done].
      by eapply list_elem_of_lookup_2.
Qed.

Lemma childRefs_NoDup i cs :
  Forall (fun c => NoDup (subtreeRefs c)) cs -> NoDup (childRefs i cs).
Proof.
  revert i. induction cs as [|c cs IH]; intros i Hall; cbn [childRefs].
  - constructor.
  - inversion Hall as [|? ? Hc Hcs]; subst.
    apply NoDup_app. split_and!.
    + apply NoDup_fmap_2; [|done]. by intros ?? [= ->].
    + intros p (q & -> & _)%list_elem_of_fmap (j & ? & ? & Heq & _)%childRefs_elem.
      injection Heq as Heq _. lia.
    + by apply IH.
Qed.

Lemma subtreeRefs_NoDup n : NoDup (subtreeRefs n).
Proof.
  induction n as [f|f cs IH] using node_ind.
  - cbn [subtreeRefs]. apply NoDup_singleton.
  - rewrite subtreeRefs_unfold. constructor.
    + intros (j & ? & ? & Heq & _)%childRefs_elem. discriminate.
    + by apply childRefs_NoDup.
Qed.

Lemma getSubItems_recursive_filter n flt :
  getSubItemsWithProperties (Some n) flt true =
  List.filter (fun c => hasProperties c flt) (descendants n).
Proof.
  pose proof (subItems_preorder flt n) as H.
  destruct n as [f [cs|]]; [|reflexivity].
  rewrite preorder_unfold in H. simpl List.filter in H.
  unfold getSubItemsWithProperties, descendants. simpl.
  destruct (hasProperties _ _); simpl in H; [by injection H | done].
Qed.

Lemma descendantRefs_nodes n :
  map (node_at n) (descendantRefs n) = map Some (descendants n).
Proof.
  pose proof (subtreeRefs_nodes n) as H.
  destruct n as [f [cs|]]; [|reflexivity].
  rewrite subtreeRefs_unfold, preorder_unfold in H.
  by injection H.
Qed.

Lemma descendantRefs_elem n p :
  p ∈ descendantRefs n <-> p <> [] /\ is_Some (node_at n p).
Proof.
  pose proof (subtreeRefs_elem n p) as Helem.
  pose proof (subtreeRefs_NoDup n) as Hnodup.
  unfold descendantRefs.
  destruct n as [f ch]; cbn [subtreeRefs tail] in *.
  rewrite elem_of_cons in Helem. apply NoDup_cons in Hnodup as [Hnil _].
  split.
  - intros Hp. split; [by intros -> | apply Helem; by right].
  - intros [Hne Hsome]. apply Helem in Hsome as [?|?]; done.
Qed.

Lemma descendantRefs_NoDup n : NoDup (descendantRefs n).
Proof.
  pose proof (subtreeRefs_NoDup n) as H. unfold descendantRefs.
  destruct n as [f ch]; cbn [subtreeRefs tail] in *.
  by apply NoDup_cons in H as [_ ?].
Qed.

Lemma NoDup_bool_filter {A} (f : A -> bool) (l : list A) :
  NoDup l -> NoDup (List.filter f l).
Proof.
  induction 1 as [|a l Hnotin Hl IH]; simpl; [constructor|].
  destruct (f a); [|done]. constructor; [|done].
  rewrite list_elem_of_In, filter_In, <- list_elem_of_In. tauto.
Qed.

Lemma filter_through_refs (n : node) (flt : Filter) (refs : list ItemRef) (l : list node) :
  map (node_at n) refs = map Some l ->
  map (node_at n) (List.filter (matches_at n flt) refs) =
  map Some (List.filter (fun c => hasProperties c flt) l).
Proof.
  revert l. induction refs as [|p refs IH]; intros [|c l] Heq; try discriminate; [done|].
  injection Heq as Hp Hrest. simpl. unfold matches_at at 1. rewrite Hp.
  destruct (hasProperties c flt); simpl; rewrite ?Hp; by rewrite (IH l).
Qed.

Lemma hasProperties_spec (c : node) (flt : Filter) :
  hasProperties c flt = true <->
  Forall (fun entry => exists v, node_get c entry.1 = Some (JPrim v)
                                 /\ strict_eq entry.2 v = true) flt.
Proof.
  unfold hasProperties. rewrite forallb_forall, Forall_forall.
  apply forall_proper; intros [k v]. unfold entry_matches. simpl.
  rewrite list_elem_of_In.
  split; intros H Hin; specialize (H Hin).
  - destruct (node_get c k) as [[w|]|]; try discriminate. by exists w.
  - destruct H as (w & -> & Hw). done.
Qed.

Lemma hasProperties_one (c : node) (key : string) (v : prim) :
  hasProperties c [(key, v)] = true <->
  exists w, node_get c key = Some (JPrim w) /\ strict_eq v w = true.
Proof.
  rewrite hasProperties_spec. split.
  - by intros [H _]%Forall_cons.
  - intros H. by repeat constructor.
Qed.

Lemma strict_eq_string (v : prim) (t : string) :
  strict_eq v (PStr t) = true <-> v = PStr t.
Proof.
  destruct v as [s| | |]; cbn; try (split; [discriminate | discriminate]).
  rewrite String.eqb_eq. split; [by intros -> | by intros [= ->]].
Qed.

Lemma hasProperties_string_field (c : node) (key : string) (v : prim)
    (field : option string) :
  node_get c key = (fun s => JPrim (PStr s)) <$> field ->
  hasProperties c [(key, v)] = true <-> exists t, field = Some t /\ v = PStr t.
Proof.
  intros Hget. rewrite hasProperties_one, Hget. split.
  - intros (w & Hw & Heq). destruct field as [t|]; [|discriminate].
    injection Hw as <-. exists t. split; [done|]. by apply strict_eq_string.
  - intros (t & -> & ->). exists (PStr t). split; [done|]. by apply strict_eq_string.
Qed.

Lemma node_get_extra (c : node) (key : string) :
  key ∉ field_names -> node_get c key = JPrim <$> extra (fields c) !! key.
Proof.
  intros Hkey. unfold node_get.
  repeat match goal with
         | |- context [String.eqb key ?name] =>
             destruct (String.eqb_spec key name) as [->|_];
             [exfalso; apply Hkey; unfold field_names;
              repeat first [apply list_elem_of_here | apply list_elem_of_further] |]
         end.
  reflexivity.
Qed.

(** C7. [getSubItemsWithProperties(n, f, true)] lists exactly the nodes of
    the proper subtree of [n] that satisfy the filter, one entry per
    matching reference, in pre-order (a child comes before its own
    descendants, siblings in order); a node satisfies the filter when every
    filter key is present with a strictly equal value; the result is empty
    for a null item and for an item without children.  The last conjuncts
    say what a present key with a strictly equal value is in the fields of
    a node: the string fields, the number fields, the fields holding any
    primitive, every further property, the properties that are objects
    (never equal to a filter value), and strict equality itself. *)
Theorem getSubItemsWithProperties_preorder (n : node) (flt : Filter) :
  getSubItemsWithProperties (Some n) flt true =
    List.filter (fun c => hasProperties c flt) (descendants n)
  /\ map Some (getSubItemsWithProperties (Some n) flt true) =
       map (node_at n) (List.filter (matches_at n flt) (descendantRefs n))
  /\ NoDup (List.filter (matches_at n flt) (descendantRefs n))
  /\ (forall p, p ∈ List.filter (matches_at n flt) (descendantRefs n) <->
                p <> [] /\ exists c, node_at n p = Some c /\ hasProperties c flt = true)
  /\ (forall c, hasProperties c flt = true <->
                Forall (fun entry => exists v, node_get c entry.1 = Some (JPrim v)
                                               /\ strict_eq entry.2 v = true) flt)
  /\ getSubItemsWithProperties None flt true = []
  /\ (forall f, getSubItemsWithProperties (Some (Node f None)) flt true = []
                /\ getSubItemsWithProperties (Some (Node f (Some []))) flt true = [])
  /\ (forall c v,
        (hasProperties c [("type", v)] = true <->
           exists t, type (fields c) = Some t /\ v = PStr t)
        /\ (hasProperties c [("role", v)] = true <->
              exists t, role (fields c) = Some t /\ v = PStr t)
        /\ (hasProperties c [("mime", v)] = true <->
              exists t, mime (fields c) = Some t /\ v = PStr t)
        /\ (hasProperties c [("guid", v)] = true <->
              exists t, guid (fields c) = Some t /\ v = PStr t)
        /\ (hasProperties c [("urn", v)] = true <->
              exists t, urn (fields c) = Some t /\ v = PStr t))
  /\ (forall c v,
        (hasProperties c [("tileSize", v)] = true <->
           exists x, tileSize (fields c) = Some x /\ strict_eq v (PNum x) = true)
        /\ (hasProperties c [("max_level", v)] = true <->
              exists x, max_level (fields c) = Some x /\ strict_eq v (PNum x) = true)
        /\ (hasProperties c [("paperWidth", v)] = true <->
              exists w, paperWidth (fields c) = Some w /\ strict_eq v w = true)
        /\ (hasProperties c [("paperHeight", v)] = true <->
              exists w, paperHeight (fields c) = Some w /\ strict_eq v w = true)
        /\ (hasProperties c [("paperUnits", v)] = true <->
              exists w, paperUnits (fields c) = Some w /\ strict_eq v w = true))
  /\ (forall c key v,
        key ∉ field_names ->
        hasProperties c [(key, v)] = true <->
        exists w, extra (fields c) !! key = Some w /\ strict_eq v w = true)
  /\ (forall c v,
        hasProperties c [("resolution", v)] = false
        /\ hasProperties c [("messages", v)] = false
        /\ hasProperties c [("children", v)] = false
        /\ hasProperties c [("parent", v)] = false)
  /\ (forall a b, strict_eq (PStr a) (PStr b) = true <-> a = b)
  /\ (forall x y, strict_eq (PNum x) (PNum y) = PrimFloat.eqb x y)
  /\ (forall a b, strict_eq (PBool a) (PBool b) = true <-> a = b)
  /\ strict_eq PNull PNull = true
  /\ (forall v w, strict_eq v w = true ->
        match v, w with
        | PStr _, PStr _ | PNum _, PNum _ | PBool _, PBool _ | PNull, PNull => True
        | _, _ => False
        end).
Proof.
  split_and!.
  - apply getSubItems_recursive_filter.
  - rewrite getSubItems_recursive_filter. symmetry.
    apply filter_through_refs, descendantRefs_nodes.
  - apply NoDup_bool_filter, descendantRefs_NoDup.
  - intros p. rewrite list_elem_of_In, filter_In, <- list_elem_of_In, descendantRefs_elem.
    unfold matches_at. split.
    + intros [[Hne [c Hc]] Hm]. rewrite Hc in Hm. eauto.
    + intros [Hne (c & Hc & Hm)]. rewrite Hc. eauto.
  - intros c. apply hasProperties_spec.
  - reflexivity.
  - intros f. split; reflexivity.
  - intros c v. split_and!; by apply hasProperties_string_field.
  - intros c v. split_and!; rewrite hasProperties_one.
    + change (node_get c "tileSize") with
        ((fun x => JPrim (PNum x)) <$> tileSize (fields c)).
      destruct (tileSize (fields c)) as [x|]; cbn; split;
        [intros (w & [= <-] & ?); eauto | intros (x' & [= <-] & ?); eauto
        | by intros (w & ? & ?) | by intros (x' & ? & ?)].
    + change (node_get c "max_level") with
        ((fun x => JPrim (PNum x)) <$> max_level (fields c)).
      destruct (max_level (fields c)) as [x|]; cbn; split;
        [intros (w & [= <-] & ?); eauto | intros (x' & [= <-] & ?); eauto
        | by intros (w & ? & ?) | by intros (x' & ? & ?)].
    + change (node_get c "paperWidth") with (JPrim <$> paperWidth (fields c)).
      destruct (paperWidth (fields c)) as [x|]; cbn; split;
        [intros (w & [= <-] & ?); eauto | intros (x' & [= <-] & ?); eauto
        | by intros (w & ? & ?) | by intros (x' & ? & ?)].
    + change (node_get c "paperHeight") with (JPrim <$> paperHeight (fields c)).
      destruct (paperHeight (fields c)) as [x|]; cbn; split;
        [intros (w & [= <-] & ?); eauto | intros (x' & [= <-] & ?); eauto
        | by intros (w & ? & ?) | by intros (x' & ? & ?)].
    + change (node_get c "paperUnits") with (JPrim <$> paperUnits (fields c)).
      destruct (paperUnits (fields c)) as [x|]; cbn; split;
        [intros (w & [= <-] & ?); eauto | intros (x' & [= <-] & ?); eauto
        | by intros (w & ? & ?) | by intros (x' & ? & ?)].
  - intros c key v Hkey. rewrite hasProperties_one, (node_get_extra c key Hkey).
    destruct (extra (fields c) !! key) as [w|]; cbn; split;
      [intros (w' & [= <-] & ?); eauto | intros (w' & [= <-] & ?); eauto
      | by intros (w' & ? & ?) | by intros (w' & ? & ?)].
  - intros c v. unfold hasProperties, entry_matches. cbn [forallb fst snd].
    change (node_get c "resolution") with ((fun _ => JObject) <$> resolution (fields c)).
    change (node_get c "messages") with ((fun _ => JObject) <$> messages (fields c)).
    change (node_get c "children") with ((fun _ => JObject) <$> children c).
    change (node_get c "parent") with (Some JObject).
    destruct (resolution (fields c)), (messages (fields c)), (children c); done.
  - intros a b. cbn. apply String.eqb_eq.
  - reflexivity.
  - intros a b. cbn. by destruct a, b.
  - reflexivity.
  - intros [] []; cbn; done.
Qed.

(** ** Resolving the viewable of a 2-D sheet *)

Lemma getSubItems_direct n flt :
  getSubItemsWithProperties (Some n) flt false =
  List.filter (fun c => hasProperties c flt) (default [] (children n)).
Proof.
  destruct n as [f [cs|]]; [|reflexivity].
  unfold getSubItemsWithProperties. rewrite subItems_unfold. simpl.
  induction cs as [|c cs IH]; [reflexivity|].
  simpl. rewrite IH. destruct (hasProperties c flt); reflexivity.
Qed.

Lemma hasProperties_role c r :
  hasProperties c [("role", PStr r)] = role_is c r.
Proof.
  unfold hasProperties, entry_matches, node_get, role_is. simpl.
  destruct (role (fields c)) as [s|]; simpl; [|reflexivity].
  by rewrite andb_true_r, String.eqb_sym.
Qed.

Lemma role_is_eq c r : role_is c r = true -> role (fields c) = Some r.
Proof.
  unfold role_is. destruct (role (fields c)) as [s|]; [|discriminate].
  by intros ->%String.eqb_eq.
Qed.

(** C1, as stated, fails: on a 2-D sheet with a leaflet child and an f2d
    child the path returned is the leaflet's, not the f2d resource's. *)
Lemma getViewablePath_leaflet_and_f2d_counterexample :
  type_is sampleSheet "geometry" = true
  /\ role_is sampleSheet "2d" = true
  /\ children sampleSheet = Some [sampleLeaflet; sampleF2d]
  /\ role_is sampleLeaflet "leaflet" = true
  /\ mime (fields sampleF2d) = Some "application/autodesk-f2d"
  /\ getFullPath browser sampleDoc (urn (fields sampleF2d)) =
       Ok (Some "sheet/primaryGraphics.f2d")
  /\ exists out,
       getViewablePath browser 1 sampleDoc sampleSheet (Some LoadOptions.empty) =
         Some (Ok (Some "tiles/{z}/{x}_{y}.png", Some out))
       /\ LoadOptions.urlPattern out = Some "tiles/{z}/{x}_{y}.png"
       /\ Some "tiles/{z}/{x}_{y}.png" <> Some "sheet/primaryGraphics.f2d".
Proof.
  split_and!; try reflexivity.
  eexists. split_and!; [vm_compute; reflexivity | reflexivity | discriminate].
Qed.

(** C1, amended.  For a geometry item of role 2d whose first child of role
    leaflet carries a resolution, [getViewablePath] called with load
    options fills them from that leaflet child and returns the full path
    of the leaflet child's urn, whether or not there is an f2d child. *)
Theorem getViewablePath_2d_leaflet (host : Host) (doc : Document) (item : node)
    (cs : list node) (o : LoadOptions.t) (leaflet : node) (others : list node)
    (res : list float) (fuel : nat) :
  type_is item "geometry" = true ->
  role_is item "2d" = true ->
  children item = Some cs ->
  List.filter (fun c => role_is c "leaflet") cs = leaflet :: others ->
  resolution (fields leaflet) = Some res ->
  exists out,
    getLeafletParams host o item leaflet = Ok out
    /\ getViewablePath host (S fuel) doc item (Some o) =
         Some (path ← getFullPath host doc (urn (fields leaflet)); Ok (path, Some out))
    /\ LoadOptions.urlPattern out = urn (fields leaflet)
    /\ LoadOptions.texWidth out = res !! 0
    /\ LoadOptions.texHeight out = res !! 1
    /\ LoadOptions.levelOffset out =
         Some (computeLevelOffset host (default 512%float (LoadOptions.tileSize out))).
Proof.
  intros Htype Hrole Hcs Hleaf Hres.
  assert (getSubItemsWithProperties (Some item) [("role", PStr "leaflet")] false
          = leaflet :: others) as Hitems.
  { rewrite getSubItems_direct, Hcs. simpl. rewrite <- Hleaf.
    apply filter_ext. intros c. apply hasProperties_role. }
  unfold getLeafletParams. rewrite Hres.
  eexists. split; [reflexivity|]. split_and!; try reflexivity.
  cbn [getViewablePath]. rewrite Htype.
  unfold geometryViewablePath.
  apply role_is_eq in Hrole. unfold role_is at 1 2. rewrite Hrole.
  change (String.eqb "2d" "3d") with false. change (String.eqb "2d" "2d") with true.
  cbv iota. rewrite Hitems. cbn [mbind Result_bind length Nat.eqb firstItemPath].
  unfold getLeafletParams. rewrite Hres. reflexivity.
Qed.

Lemma getViewablePath_2d_leaflet_witness :
  exists out,
    getLeafletParams browser LoadOptions.empty sampleSheet sampleLeaflet = Ok out
    /\ getViewablePath browser 1 sampleDoc sampleSheet (Some LoadOptions.empty) =
         Some (path ← getFullPath browser sampleDoc (urn (fields sampleLeaflet));
               Ok (path, Some out))
    /\ LoadOptions.urlPattern out = urn (fields sampleLeaflet)
    /\ LoadOptions.texWidth out = [4096; 2048]%float !! 0
    /\ LoadOptions.texHeight out = [4096; 2048]%float !! 1
    /\ LoadOptions.levelOffset out =
         Some (computeLevelOffset browser (default 512%float (LoadOptions.tileSize out))).
Proof.
  apply (getViewablePath_2d_leaflet browser sampleDoc sampleSheet
           [sampleLeaflet; sampleF2d] LoadOptions.empty sampleLeaflet []
           [4096; 2048]%float 0); reflexivity.
Defined.

(** ** Facts about the string primitives *)

Example indexOf_ex1 : JsString.indexOf "/" "ab/cd/e" = Some 2.
Proof. reflexivity. Qed.

Example lastIndexOf_ex1 : JsString.lastIndexOf "%2F" "a%2Fb%2Fc" = Some 5.
Proof. reflexivity. Qed.

Example substr_ex1 : JsString.substr "abc" (-1) None = "c".
Proof. reflexivity. Qed.

Example remove_first_ex1 : JsString.remove_first "/bubble.json" "a/bubble.json/x" = "a/x".
Proof. reflexivity. Qed.

Module JsStringFacts.
Import JsString.

Lemma app_cons (ch : ascii) (a b : string) :
  String ch a +:+ b = String ch (a +:+ b).
Proof. reflexivity. Qed.

Lemma app_assoc (a b c : string) : (a +:+ b) +:+ c = a +:+ b +:+ c.
Proof. induction a as [|ch a IH]; [done|]. rewrite !app_cons. by f_equal. Qed.

Lemma length_app (a b : string) :
  String.length (a +:+ b) = String.length a + String.length b.
Proof.
  induction a as [|ch a IH]; [done|].
  rewrite app_cons. cbn [String.length Nat.add]. by f_equal.
Qed.

Lemma prefix_app (p s : string) : String.prefix p (p +:+ s) = true.
Proof.
  induction p as [|ch p IH]; [by destruct s|].
  rewrite app_cons. cbn [String.prefix].
  destruct (ascii_dec ch ch); [done | congruence].
Qed.

Lemma prefix_inv (p s : string) :
  String.prefix p s = true -> exists t, s = p +:+ t.
Proof.
  revert s. induction p as [|ch p IH]; intros s H; [by exists s|].
  destruct s as [|ch' s]; [discriminate|]. simpl in H.
  destruct (ascii_dec ch ch') as [->|]; [|discriminate].
  destruct (IH s H) as [t ->]. by exists t.
Qed.

Lemma substring_0_app (a b : string) :
  String.substring 0 (String.length a) (a +:+ b) = a.
Proof.
  induction a as [|ch a IH]; [by destruct b|].
  rewrite app_cons. cbn [String.length substring]. by f_equal.
Qed.

Lemma substring_skip (a b : string) (m : nat) :
  String.substring (String.length a) m (a +:+ b) = String.substring 0 m b.
Proof. induction a as [|ch a IH]; [done|]. by rewrite app_cons. Qed.

Lemma substring_all (s : string) (m : nat) :
  String.length s <= m -> String.substring 0 m s = s.
Proof.
  revert m. induction s as [|ch s IH]; intros m Hm; [by destruct m|].
  destruct m as [|m]; simpl in *; [lia|]. rewrite IH; [done | lia].
Qed.

Lemma occurs_at_0 (pat s : string) :
  occurs_at pat s 0 <-> String.prefix pat s = true.
Proof.
  split.
  - intros ([|? ?] & post & -> & Hlen); [|discriminate].
    change ("" +:+ pat +:+ post) with (pat +:+ post). apply prefix_app.
  - intros [t ->]%prefix_inv. by exists "", t.
Qed.

Lemma occurs_at_S (pat : string) (ch : ascii) (s : string) (k : nat) :
  occurs_at pat (String ch s) (S k) <-> occurs_at pat s k.
Proof.
  split.
  - intros ([|ch' pre] & post & Heq & Hlen); [discriminate|].
    rewrite app_cons in Heq. cbn [String.length] in Hlen.
    injection Heq as -> ->. exists pre, post. split; [done | lia].
  - intros (pre & post & -> & <-). by exists (String ch pre), post.
Qed.

Lemma occurs_at_empty (pat : string) (k : nat) :
  occurs_at pat "" k -> k = 0.
Proof.
  intros ([|? ?] & post & Heq & <-); [done|].
  rewrite app_cons in Heq. discriminate.
Qed.

Lemma indexOf_Some (pat s : string) (k : nat) :
  indexOf pat s = Some k ->
  occurs_at pat s k /\ forall j, occurs_at pat s j -> k <= j.
Proof.
  revert k. induction s as [|ch s IH]; intros k; cbn [indexOf].
  - destruct (String.prefix pat "") eqn:Hp; [|discriminate].
    intros [= <-]. split; [by apply occurs_at_0 | lia].
  - destruct (String.prefix pat (String ch s)) eqn:Hp.
    + intros [= <-]. split; [by apply occurs_at_0 | lia].
    + destruct (indexOf pat s) as [k'|]; [|discriminate].
      intros [= <-]. destruct (IH k' eq_refl) as [Hocc Hmin]. split.
      * by apply occurs_at_S.
      * intros [|j] Hj.
        -- apply occurs_at_0 in Hj. congruence.
        -- apply occurs_at_S, Hmin in Hj. lia.
Qed.

Lemma indexOf_None (pat s : string) :
  indexOf pat s = None -> forall j, ~ occurs_at pat s j.
Proof.
  induction s as [|ch s IH]; cbn [indexOf].
  - destruct (String.prefix pat "") eqn:Hp; [discriminate|].
    intros _ j Hj. pose proof (occurs_at_empty _ _ Hj) as ->.
    apply occurs_at_0 in Hj. congruence.
  - destruct (String.prefix pat (String ch s)) eqn:Hp; [discriminate|].
    destruct (indexOf pat s); [discriminate|].
    intros _ [|j] Hj.
    + apply occurs_at_0 in Hj. congruence.
    + apply occurs_at_S in Hj. by eapply IH.
Qed.

Lemma lastIndexOf_Some (pat s : string) (k : nat) :
  lastIndexOf pat s = Some k ->
  occurs_at pat s k /\ forall j, occurs_at pat s j -> j <= k.
Proof.
  revert k. induction s as [|ch s IH]; intros k; cbn [lastIndexOf].
  - destruct (String.prefix pat "") eqn:Hp; [|discriminate].
    intros [= <-]. split; [by apply occurs_at_0|].
    intros j Hj. by rewrite (occurs_at_empty _ _ Hj).
  - destruct (lastIndexOf pat s) as [k'|] eqn:Hlast.
    + intros [= <-]. destruct (IH k' eq_refl) as [Hocc Hmax]. split.
      * by apply occurs_at_S.
      * intros [|j] Hj; [lia|]. apply occurs_at_S, Hmax in Hj. lia.
    + destruct (String.prefix pat (String ch s)) eqn:Hp; [|discriminate].
      intros [= <-]. split; [by apply occurs_at_0|].
      intros [|j] Hj; [lia|]. apply occurs_at_S in Hj.
      clear IH. exfalso. revert j Hj Hlast. clear.
      induction s as [|ch s IH]; intros j Hj; cbn [lastIndexOf].
      * pose proof (occurs_at_empty _ _ Hj) as ->.
        apply occurs_at_0 in Hj. by rewrite Hj.
      * destruct (lastIndexOf pat s) eqn:Hl; [discriminate|].
        destruct j as [|j].
        -- apply occurs_at_0 in Hj. by rewrite Hj.
        -- apply occurs_at_S in Hj. intros _. by eapply IH.
Qed.

Lemma lastIndexOf_None (pat s : string) :
  lastIndexOf pat s = None -> forall j, ~ occurs_at pat s j.
Proof.
  induction s as [|ch s IH]; cbn [lastIndexOf].
  - destruct (String.prefix pat "") eqn:Hp; [discriminate|].
    intros _ j Hj. pose proof (occurs_at_empty _ _ Hj) as ->.
    apply occurs_at_0 in Hj. congruence.
  - destruct (lastIndexOf pat s); [discriminate|].
    destruct (String.prefix pat (String ch s)) eqn:Hp; [discriminate|].
    intros _ [|j] Hj.
    + apply occurs_at_0 in Hj. congruence.
    + apply occurs_at_S in Hj. by eapply IH.
Qed.

(** [s.substr(0, k + pat.length)] where [pat] occurs at [k]. *)
Lemma substr_through (pre pat post : string) :
  substr (pre +:+ pat +:+ post) 0
    (Some (Z.of_nat (String.length pre) + Z.of_nat (String.length pat))%Z) =
  pre +:+ pat.
Proof.
  unfold substr. rewrite !length_app.
  replace (0 <? 0)%Z with false by done.
  rewrite Z.min_l by lia. change (Z.to_nat 0) with 0.
  rewrite Z.max_l, Z.min_l by lia.
  rewrite <- Nat2Z.inj_add, Nat2Z.id, <- length_app, <- app_assoc.
  apply substring_0_app.
Qed.

(** [s.substr(k)] where [k] is the length of a prefix. *)
Lemma substr_from (pre rest : string) :
  substr (pre +:+ rest) (Z.of_nat (String.length pre)) None = rest.
Proof.
  unfold substr. rewrite !length_app.
  destruct (Z.ltb_spec (Z.of_nat (String.length pre)) 0); [lia|].
  rewrite Z.min_l by lia. rewrite Nat2Z.id, substring_skip.
  apply substring_all. lia.
Qed.

(** [s.replace(pat, '')] where the first occurrence of [pat] is at the
    end of [pre]. *)
Lemma remove_first_at (pat pre post : string) :
  indexOf pat (pre +:+ pat +:+ post) = Some (String.length pre) ->
  remove_first pat (pre +:+ pat +:+ post) = pre +:+ post.
Proof.
  intros H. unfold remove_first. rewrite H. f_equal.
  - apply substring_0_app.
  - rewrite <- length_app, <- app_assoc, substring_skip.
    apply substring_all. rewrite !length_app. lia.
Qed.

End JsStringFacts.

Lemma indexOf_first (pat s : string) (k : nat) :
  first_occurrence pat s k -> JsString.indexOf pat s = Some k.
Proof.
  intros [Hocc Hmin]. destruct (JsString.indexOf pat s) as [k'|] eqn:Hi.
  - apply JsStringFacts.indexOf_Some in Hi as [Hocc' Hmin'].
    f_equal. apply Nat.le_antisymm; auto.
  - by apply JsStringFacts.indexOf_None with (j := k) in Hi.
Qed.

Lemma lastIndexOf_last (pat s : string) (k : nat) :
  last_occurrence pat s k -> JsString.lastIndexOf pat s = Some k.
Proof.
  intros [Hocc Hmax]. destruct (JsString.lastIndexOf pat s) as [k'|] eqn:Hi.
  - apply JsStringFacts.lastIndexOf_Some in Hi as [Hocc' Hmax'].
    f_equal. apply Nat.le_antisymm; auto.
  - by apply JsStringFacts.lastIndexOf_None with (j := k) in Hi.
Qed.

(** [s.indexOf(pat) === 0] says that [s] starts with [pat]. *)
Lemma indexOf_is_zero (pat s : string) :
  (JsString.index_number (JsString.indexOf pat s) =? 0)%Z = String.prefix pat s.
Proof.
  destruct s as [|ch s]; cbn [JsString.indexOf].
  - by destruct (String.prefix pat "").
  - destruct (String.prefix pat (String ch s)); [done|].
    destruct (JsString.indexOf pat s); done.
Qed.

(** [s.indexOf(pat) !== -1] says that [pat] occurs in [s]. *)
Lemma indexOf_is_found (pat s : string) :
  negb (JsString.index_number (JsString.indexOf pat s) =? -1)%Z =
  match JsString.indexOf pat s with Some _ => true | None => false end.
Proof.
  destruct (JsString.indexOf pat s) as [k|]; [|done].
  apply negb_true_iff, Z.eqb_neq. unfold JsString.index_number. lia.
Qed.

(** ** Full paths *)

(** C6, as stated, fails in its fourth rule: the source path only has to
    contain the manifest file name, not to end in it. *)
Lemma getFullPath_contains_counterexample :
  offline browser = false
  /\ String.prefix "urn" "$file$/sheet.f2d" = false
  /\ String.prefix "$file$" "$file$/sheet.f2d" = true
  /\ (forall dir, "dir/bubble.json/extra" <> dir +:+ "/bubble.json")
  /\ getFullPath browser (docAt "dir/bubble.json/extra") (Some "$file$/sheet.f2d") =
       Ok (Some "dir/extra/sheet.f2d")
  /\ Some "dir/extra/sheet.f2d" <> Some "$file$/sheet.f2d".
Proof.
  split_and!; try reflexivity; [|discriminate].
  intros dir Heq.
  assert (String.length "dir/bubble.json/extra" =
          String.length (dir +:+ "/bubble.json")) as Hlen by by rewrite <- Heq.
  rewrite JsStringFacts.length_app in Hlen. simpl in Hlen.
  do 10 (destruct dir as [|? dir]; [discriminate|]).
  simpl in Hlen. lia.
Qed.

Lemma truthy_nonempty (u : string) : u <> "" -> JsString.truthy u = true.
Proof. by destruct u. Qed.

Lemma substr_last (pre : string) (c : ascii) :
  JsString.substr (pre +:+ String c "") (-1) None = String c "".
Proof.
  unfold JsString.substr. rewrite JsStringFacts.length_app. cbn [String.length].
  destruct (Z.ltb_spec (-1) 0); [|lia].
  rewrite Z.max_l by lia.
  replace (Z.to_nat (Z.of_nat (String.length pre + 1) + -1)) with (String.length pre) by lia.
  replace (Z.to_nat (Z.of_nat (String.length pre + 1) -
                     (Z.of_nat (String.length pre + 1) + -1))) with 1 by lia.
  by rewrite JsStringFacts.substring_skip.
Qed.

Lemma indexOf_absent (pat s : string) :
  (forall j, ~ occurs_at pat s j) -> JsString.indexOf pat s = None.
Proof.
  intros Hnone. destruct (JsString.indexOf pat s) as [k|] eqn:Hi; [|done].
  apply JsStringFacts.indexOf_Some in Hi as [Hocc _]. by apply Hnone in Hocc.
Qed.

(** C6, amended.  [getFullPath] applies the first rule that matches:
    (1) a null or empty urn is returned as it is; (2) off line, the decoded
    local prefix replaces everything before the first '/', and for a urn
    without a '/' the result is the decoded prefix followed by the last
    character of the urn; an error of the decoding is passed on; (3) a urn
    that starts with 'urn' becomes <VIEWING_URL>/items/<urn>; (4) a urn
    that starts with '$file$', when the source path contains
    '/bubble.json', becomes the source path without its first
    '/bubble.json' followed by the urn without the marker; otherwise the
    urn is returned as it is. *)
Theorem getFullPath_rules (host : Host) (doc : Document) (u : string) :
  getFullPath host doc None = Ok None
  /\ getFullPath host doc (Some "") = Ok (Some "")
  /\ (u <> "" -> offline host = true ->
      forall prefix pre post,
        decodeURIComponent host (offlineResourcePrefix host) = Ok prefix ->
        u = pre +:+ "/" +:+ post ->
        first_occurrence "/" u (String.length pre) ->
        getFullPath host doc (Some u) = Ok (Some (prefix +:+ "/" +:+ post)))
  /\ (u <> "" -> offline host = false -> String.prefix "urn" u = true ->
      getFullPath host doc (Some u) = Ok (Some (VIEWING_URL host +:+ "/items/" +:+ u)))
  /\ (u <> "" -> offline host = false -> String.prefix "urn" u = false ->
      forall post dir rest,
        u = "$file$" +:+ post ->
        myPath doc = dir +:+ "/bubble.json" +:+ rest ->
        first_occurrence "/bubble.json" (myPath doc) (String.length dir) ->
        getFullPath host doc (Some u) = Ok (Some ((dir +:+ rest) +:+ post)))
  /\ (u <> "" -> offline host = false -> String.prefix "urn" u = false ->
      String.prefix "$file$" u = false \/
        (forall j, ~ occurs_at "/bubble.json" (myPath doc) j) ->
      getFullPath host doc (Some u) = Ok (Some u))
  /\ (offline host = true ->
      forall prefix pre c,
        decodeURIComponent host (offlineResourcePrefix host) = Ok prefix ->
        u = pre +:+ String c "" ->
        (forall j, ~ occurs_at "/" u j) ->
        getFullPath host doc (Some u) = Ok (Some (prefix +:+ String c "")))
  /\ (u <> "" -> offline host = true ->
      forall e,
        decodeURIComponent host (offlineResourcePrefix host) = Throw e ->
        getFullPath host doc (Some u) = Throw e).
Proof.
  split_and!; try reflexivity.
  - intros Hne Hoff prefix pre post Hdec Hu Hfirst.
    unfold getFullPath. rewrite (truthy_nonempty u Hne), Hoff, Hdec.
    cbn [negb mbind Result_bind]. rewrite (indexOf_first _ _ _ Hfirst).
    subst u. cbn [JsString.index_number].
    by rewrite JsStringFacts.substr_from.
  - intros Hne Hoff Hurn.
    unfold getFullPath. rewrite (truthy_nonempty u Hne), Hoff.
    cbn [negb]. by rewrite indexOf_is_zero, Hurn.
  - intros Hne Hoff Hurn post dir rest Hu Hpath Hfirst.
    unfold getFullPath. rewrite (truthy_nonempty u Hne), Hoff.
    cbn [negb]. rewrite !indexOf_is_zero, Hurn, indexOf_is_found.
    rewrite (indexOf_first _ _ _ Hfirst).
    rewrite Hu at 1. rewrite JsStringFacts.prefix_app. cbn [andb].
    do 3 f_equal.
    + rewrite Hpath. apply JsStringFacts.remove_first_at.
      rewrite <- Hpath. by apply indexOf_first.
    + rewrite Hu. apply (JsStringFacts.remove_first_at "$file$" "" post).
      change ("" +:+ "$file$" +:+ post) with ("$file$" +:+ post).
      pose proof (indexOf_is_zero "$file$" ("$file$" +:+ post)) as Hz.
      rewrite JsStringFacts.prefix_app in Hz.
      destruct (JsString.indexOf "$file$" ("$file$" +:+ post)) as [[|k]|]; done.
  - intros Hne Hoff Hurn Hcase.
    unfold getFullPath. rewrite (truthy_nonempty u Hne), Hoff.
    cbn [negb]. rewrite !indexOf_is_zero, Hurn, indexOf_is_found.
    destruct Hcase as [-> | Hnone]; [done|].
    destruct (JsString.indexOf "/bubble.json" (myPath doc)) as [k|] eqn:Hi.
    + apply JsStringFacts.indexOf_Some in Hi as [Hocc _]. by apply Hnone in Hocc.
    + by rewrite andb_false_r.
  - intros Hoff prefix pre c Hdec Hu Hnone.
    unfold getFullPath. rewrite truthy_nonempty by (subst u; by destruct pre).
    rewrite Hoff, Hdec. cbn [negb mbind Result_bind].
    rewrite (indexOf_absent _ _ Hnone). cbn [JsString.index_number].
    subst u. by rewrite substr_last.
  - intros Hne Hoff e Hdec.
    unfold getFullPath. rewrite (truthy_nonempty u Hne), Hoff, Hdec. reflexivity.
Qed.

Lemma getFullPath_rules_witness :
  getFullPath browser (docAt "dir/bubble.json/extra") (Some "$file$/sheet.f2d") =
  Ok (Some (("dir" +:+ "/extra") +:+ "/sheet.f2d")).
Proof.
  refine (proj1 (proj2 (proj2 (proj2 (proj2
    (getFullPath_rules browser (docAt "dir/bubble.json/extra") "$file$/sheet.f2d")))))
    _ _ _ "/sheet.f2d" "dir" "/extra" _ _ _);
    try reflexivity; [discriminate|].
  split.
  - by exists "dir", "/extra".
  - intros j Hj.
    pose proof (JsStringFacts.indexOf_Some "/bubble.json" "dir/bubble.json/extra" 3 eq_refl)
      as [_ Hmin].
    by apply Hmin.
Defined.

(** ** The pass that builds the indices *)

Lemma annotateGeometry_count item above cs ix c :
  (annotateGeometry item above cs ix c).2 =
  c + length (List.filter (fun c => type_is c "view") cs).
Proof.
  revert ix c. induction cs as [|x cs IH]; intros ix c; simpl; [lia|].
  destruct (type_is x "view"); rewrite IH; simpl; lia.
Qed.

Lemma visited_unfold f cs :
  visited (Node f (Some cs)) =
  Node f (Some cs) ::
    (if has_view_index (Node f (Some cs)) || is_shared_db (Node f (Some cs))
     then [] else flat_map visited cs).
Proof. reflexivity. Qed.

Lemma visitedFrom_unfold above f cs :
  visitedFrom above (Node f (Some cs)) =
  (above, Node f (Some cs)) ::
    (if has_view_index (Node f (Some cs)) || is_shared_db (Node f (Some cs))
     then [] else flat_map (visitedFrom (Some (Node f (Some cs)))) cs).
Proof. reflexivity. Qed.

Lemma visitedFrom_visited n : forall above, (visitedFrom above n).*2 = visited n.
Proof.
  induction n as [f|f cs IH] using node_ind; intros above; [reflexivity|].
  rewrite visitedFrom_unfold, visited_unfold. cbn [fmap list_fmap snd]. f_equal.
  destruct (has_view_index _ || is_shared_db _); [reflexivity|].
  generalize (Some (Node f (Some cs))). intros up.
  induction IH as [|c cs Hc _ IHcs]; [reflexivity|].
  cbn [flat_map]. by rewrite fmap_app, Hc, IHcs.
Qed.

Lemma annotateViews_visited host n :
  forall above a,
    annotateViews host above n a = fold_left (annotateOne host) (visitedFrom above n) a.
Proof.
  induction n as [f|f cs IH] using node_ind; intros above a.
  - cbn [visitedFrom fold_left annotateViews]. unfold annotateOne, has_view_index.
    cbn [childCount children length Nat.eqb negb]. rewrite andb_false_r.
    by destruct (is_shared_db _).
  - rewrite visitedFrom_unfold. cbn [fold_left annotateViews].
    unfold has_view_index at 1.
    destruct (type_is _ _ && _) eqn:Hgeo.
    + cbn [orb fold_left]. unfold annotateOne, has_view_index. rewrite Hgeo.
      destruct (annotateGeometry _ _ _ _ _) as [ix c] eqn:Hg.
      pose proof (annotateGeometry_count (Node f (Some cs)) above cs (viewGeometry a) 0) as Hc.
      change (default [] (Some cs)) with cs in Hg.
      rewrite Hg in Hc. cbn [snd Nat.add] in Hc. subst c.
      unfold count_views. reflexivity.
    + cbn [orb]. unfold annotateOne at 2, has_view_index. rewrite Hgeo.
      destruct (is_shared_db _); [reflexivity|].
      clear Hgeo. generalize (Some (Node f (Some cs))). intros up.
      revert a. induction IH as [|c cs Hc _ IHcs]; intros a; [reflexivity|].
      cbn [flat_map]. rewrite fold_left_app, <- Hc. apply IHcs.
Qed.

(** *** The shared property database *)

Lemma propertyDb_fold host l a :
  propertyDb (fold_left (annotateOne host) l a) =
  match last (List.filter db_hit l.*2) with
  | Some m => Some (propertyDbPath host (default "" (urn (fields m))))
  | None => propertyDb a
  end.
Proof.
  revert a. induction l as [|[above m] l IH]; intros a; [reflexivity|].
  cbn [fold_left fmap list_fmap snd List.filter]. rewrite IH. unfold db_hit at 2, annotateOne.
  destruct (has_view_index m); cbn [negb andb].
  - reflexivity.
  - destruct (is_shared_db m); [|reflexivity].
    destruct (List.filter db_hit l.*2) as [|x l'] eqn:Hl; [reflexivity|].
    change (last (m :: x :: l')) with (last (x :: l')).
    destruct (last (x :: l')) eqn:Hlast; [done|]. by apply last_None in Hlast.
Qed.

(** C2, as stated, fails: with two database nodes the path is taken from
    the later one, not from the first one in pre-order. *)
Lemma myPropertyDb_first_match_counterexample :
  preorder sampleFolder = [sampleFolder; sampleDbA; sampleDbB]
  /\ head (List.filter is_shared_db (preorder sampleFolder)) = Some sampleDbA
  /\ String.prefix (OSS_PREFIX browser) "shared/a/objects_attrs.json.gz" = false
  /\ last_occurrence "/" "shared/a/objects_attrs.json.gz" (String.length "shared/a")
  /\ getPropertyDbPath (Document_new browser (Some sampleFolder) "doc" None) =
       Some "shared/b/"
  /\ Some "shared/b/" <> Some ("shared/a" +:+ "/").
Proof.
  split_and!; try reflexivity; [|discriminate].
  pose proof (JsStringFacts.lastIndexOf_Some "/" "shared/a/objects_attrs.json.gz" 8 eq_refl)
    as [Hocc Hmax].
  by split.
Qed.

(** C2, amended.  The constructor sets the property database path from the
    LAST node its pass takes for a shared database (mime
    'application/autodesk-db' with a urn, on a node that is not a geometry
    with children; the pass does not look below such a node nor below a
    geometry with children): the prefix of that urn up to and including the
    last separator, '%2F' when the urn starts with the OSS prefix and '/'
    otherwise.  Without such a node, and for a null manifest, the path stays
    null. *)
Theorem myPropertyDb_last_match (host : Host) (root : node) (path : string)
    (acm : option string) :
  getPropertyDbPath (Document_new host (Some root) path acm) =
    (fun m => propertyDbPath host (default "" (urn (fields m)))) <$>
      last (List.filter db_hit (visited root))
  /\ (forall u pre post,
        let sep := if String.prefix (OSS_PREFIX host) u then "%2F" else "/" in
        u = pre +:+ sep +:+ post ->
        last_occurrence sep u (String.length pre) ->
        propertyDbPath host u = pre +:+ sep)
  /\ getPropertyDbPath (Document_new host None path acm) = None.
Proof.
  split_and!; [| |reflexivity].
  - unfold getPropertyDbPath, Document_new. cbn [myPropertyDb].
    rewrite annotateViews_visited, propertyDb_fold, visitedFrom_visited.
    by destruct (last _).
  - intros u pre post sep Hu Hlast. unfold propertyDbPath.
    rewrite indexOf_is_zero. subst sep.
    destruct (String.prefix (OSS_PREFIX host) u);
      rewrite (lastIndexOf_last _ _ _ Hlast); rewrite Hu at 1;
      cbn [JsString.index_number].
    + exact (JsStringFacts.substr_through pre "%2F" post).
    + exact (JsStringFacts.substr_through pre "/" post).
Qed.

Lemma myPropertyDb_last_match_witness :
  propertyDbPath browser "shared/b/objects_attrs.json.gz" = "shared/b" +:+ "/".
Proof.
  refine (proj1 (proj2 (myPropertyDb_last_match browser sampleFolder "doc" None))
            "shared/b/objects_attrs.json.gz" "shared/b" "objects_attrs.json.gz" _ _);
    [reflexivity|].
  pose proof (JsStringFacts.lastIndexOf_Some "/" "shared/b/objects_attrs.json.gz" 8 eq_refl)
    as [Hocc Hmax].
  by split.
Defined.

(** *** View counts *)






Lemma has_view_index_geometry m : has_view_index m = true -> type_is m "geometry" = true.
Proof. unfold has_view_index. by intros [? _]%andb_true_iff. Qed.






(** ** Messages *)

Lemma collectMessages_browser host tree excludeGlobal root above acc :
  global_parent host = Some WindowObject ->
  collectMessages host tree excludeGlobal root above acc =
  Ok (acc ++ chainMessages tree above).
Proof.
  intros Hhost. revert acc. induction above as [|i above IH]; intros acc.
  - cbn [collectMessages chainMessages]. unfold parent_is_root. rewrite Hhost.
    destruct excludeGlobal; cbn [mbind Result_bind]; by rewrite app_nil_r.
  - cbn [collectMessages chainMessages]. unfold parent_is_root. rewrite Hhost.
    destruct excludeGlobal; cbn [mbind Result_bind]; rewrite IH; by rewrite app_assoc.
Qed.

(** In a browser [getMessages] returns the messages of the whole parent
    chain, the root's included, whatever [excludeGlobal] is. *)
Lemma getMessages_browser host doc tree p excludeGlobal :
  global_parent host = Some WindowObject ->
  myData doc = Some tree ->
  getMessages host doc (Some p) excludeGlobal = Ok (chainMessages tree (rev p)).
Proof.
  intros Hhost Hdoc. unfold getMessages. rewrite Hdoc.
  by rewrite collectMessages_browser.
Qed.

Lemma getMessages_null host doc excludeGlobal :
  getMessages host doc None excludeGlobal = Ok [].
Proof. reflexivity. Qed.

(** C4.  The code at a node one level below the root, with [excludeGlobal]
    set: the root's messages are returned all the same, as without the
    flag; where the identifier [parent] is unbound the call throws. *)
Theorem getMessages_excludeGlobal_includes_root :
  node_at sampleMessageTree [0] ≫= (fun n => messages (fields n)) = Some [sheetMessage]
  /\ messages (fields sampleMessageTree) = Some [rootMessage]
  /\ getMessages browser sampleMessageDoc (Some [0]) true = Ok [sheetMessage; rootMessage]
  /\ getMessages browser sampleMessageDoc (Some [0]) false = Ok [sheetMessage; rootMessage]
  /\ getMessages worker sampleMessageDoc (Some [0]) true = Throw ReferenceError.
Proof. split_and!; reflexivity. Qed.

(** ** Comparisons of numbers *)

Lemma SFcompare_antisym (a b : spec_float) :
  SFcompare b a = option_map CompOpp (SFcompare a b).
Proof.
  destruct a as [sa|sa| |sa ma ea], b as [sb|sb| |sb mb eb]; simpl; try reflexivity;
    try (destruct sa; reflexivity); try (destruct sb; reflexivity);
    try (destruct sa, sb; reflexivity).
  destruct sa, sb; try reflexivity; f_equal.
  - rewrite (Z.compare_antisym ea eb). destruct (ea ?= eb)%Z; simpl; try reflexivity.
    f_equal. by rewrite Pos.compare_cont_antisym.
  - rewrite (Z.compare_antisym ea eb). destruct (ea ?= eb)%Z; simpl; try reflexivity.
    by rewrite Pos.compare_cont_antisym.
Qed.

(** [a < b] excludes [b < a]. *)
Lemma ltb_asym (a b : float) : PrimFloat.ltb a b = true -> PrimFloat.ltb b a = false.
Proof.
  rewrite !ltb_spec. unfold SFltb.
  rewrite (SFcompare_antisym (Prim2SF a) (Prim2SF b)).
  destruct (SFcompare (Prim2SF a) (Prim2SF b)) as [[]|]; simpl; congruence.
Qed.

(** [a <= b] excludes [b < a]. *)
Lemma leb_not_ltb (a b : float) : PrimFloat.leb a b = true -> PrimFloat.ltb b a = false.
Proof.
  rewrite leb_spec, ltb_spec. unfold SFleb, SFltb.
  rewrite (SFcompare_antisym (Prim2SF a) (Prim2SF b)).
  destruct (SFcompare (Prim2SF a) (Prim2SF b)) as [[]|]; simpl; congruence.
Qed.

(** ** The viewport transform *)

Lemma repairedElements_swapped (M : list float) :
  length M = 16 ->
  PrimFloat.ltb JsNumber.precision (PrimFloat.abs (Model.array_get M 0)) = true ->
  PrimFloat.leb JsNumber.precision (PrimFloat.abs (Model.array_get M 5)) = true ->
  PrimFloat.ltb (PrimFloat.abs (Model.array_get M 4)) JsNumber.precision = true ->
  Model.repairedElements (swapRows01 M) = M /\ Model.repairedElements M = M.
Proof.
  intros Hlen H0 H5 H4. sixteen M Hlen.
  cbn in H0, H5, H4.
  pose proof (ltb_asym _ _ H0) as H0'. pose proof (leb_not_ltb _ _ H5) as H5'.
  unfold Model.repairedElements, swapRows01. cbn.
  unfold JsNumber.precision in *.
  rewrite H4, H0, H0'. cbn. rewrite H5'. done.
Qed.

Section Transform.

Variable ops : Matrix4.Ops.

Lemma repairedElements_length (raw : list float) :
  length raw = 16 -> length (Model.repairedElements raw) = 16.
Proof.
  intros Hlen. sixteen raw Hlen. unfold Model.repairedElements. cbn.
  repeat match goal with |- context [if ?b then _ else _] => destruct b end;
    reflexivity.
Qed.

Lemma elements_set_16 (e : list float) :
  length e = 16 -> Matrix4.elements_set e = Ok e.
Proof.
  intros Hlen. unfold Matrix4.elements_set. rewrite Hlen. cbn [Nat.ltb Nat.leb].
  sixteen e Hlen. reflexivity.
Qed.

Lemma slice_fresh (s : Model.Store) (l : Model.loc) (raw : list float) :
  s !! l = Some raw ->
  exists copy, Model.slice l s = Some (copy, <[copy := raw]> s) /\ s !! copy = None.
Proof.
  intros Hl. unfold Model.slice. rewrite Hl. eexists. split; [reflexivity|].
  apply not_elem_of_dom, is_fresh.
Qed.

(** The call on a viewport whose transform has not been computed yet. *)
Lemma getPageToModelTransform_computed (s : Model.Store) (data : Model.F2D)
    (vpId : nat) md pd vps vp (raw : list float) :
  Model.pageToModelTransform data = None ->
  Model.metadata data = Some md ->
  Model.page_dimensions md = Some pd ->
  Model.viewports data = Some vps ->
  vps !! vpId = Some (Some vp) ->
  default ∅ (Model.viewportTransforms data) !! vpId = None ->
  s !! Model.transform vp = Some raw ->
  length raw = 16 ->
  exists copy,
    s !! copy = None /\
    Model.getPageToModelTransform ops {| Model.store := s; Model.myData := data |} vpId =
    let m := Matrix4.multiply ops (Matrix4.getInverse ops (Model.repairedElements raw))
               (Model.pageToLogical pd) in
    Ok (m, {| Model.store := <[copy := Model.repairedElements raw]> s;
              Model.myData :=
                Model.set_viewportTransforms data
                  (<[vpId := m]> (default ∅ (Model.viewportTransforms data))) |}).
Proof.
  intros Hover Hmd Hpd Hvps Hvp Hcache Hraw Hlen.
  destruct (slice_fresh s _ raw Hraw) as (copy & Hslice & Hfresh).
  exists copy. split; [done|].
  unfold Model.getPageToModelTransform. cbn [Model.myData Model.store].
  rewrite Hover, Hmd, Hvps, Hvp, Hcache, Hpd, Hslice.
  unfold Model.repairViewportMatrix. rewrite lookup_insert_eq.
  rewrite lookup_insert_eq. cbn [default].
  rewrite elements_set_16 by by apply repairedElements_length.
  cbn [mbind Result_bind]. by rewrite insert_insert_eq.
Qed.

End Transform.

(** C9.  For 2-D data (metadata and a viewports array are there) without a
    precomputed transform, a viewport id with no viewport entry gets the
    identity matrix; nothing is thrown and the state, the cache included,
    is as before. *)
Theorem getPageToModelTransform_no_viewport (ops : Matrix4.Ops) (st : Model.State)
    (vpId : nat) (md : Model.Metadata) (vps : list (option Model.Viewport)) :
  Model.pageToModelTransform (Model.myData st) = None ->
  Model.metadata (Model.myData st) = Some md ->
  Model.viewports (Model.myData st) = Some vps ->
  vps !! vpId = None \/ vps !! vpId = Some None ->
  Model.getPageToModelTransform ops st vpId =
    Ok ([1; 0; 0; 0; 0; 1; 0; 0; 0; 0; 1; 0; 0; 0; 0; 1]%float, st).
Proof.
  intros Hover Hmd Hvps Hvp. unfold Model.getPageToModelTransform.
  rewrite Hover, Hmd, Hvps. by destruct Hvp as [-> | ->].
Qed.

Lemma getPageToModelTransform_no_viewport_witness :
  Model.getPageToModelTransform sampleOps (sampleState scaledTransform) 7 =
    Ok ([1; 0; 0; 0; 0; 1; 0; 0; 0; 0; 1; 0; 0; 0; 0; 1]%float,
        sampleState scaledTransform).
Proof.
  eapply getPageToModelTransform_no_viewport; [reflexivity.. | by left].
Defined.

Lemma getPageToModelTransform_returns_frame (ops : Matrix4.Ops) (st st' : Model.State)
    (vpId : nat) (m : Matrix4.t) :
  Model.getPageToModelTransform ops st vpId = Ok (m, st') ->
  (forall l e, Model.store st !! l = Some e -> Model.store st' !! l = Some e)
  /\ Model.metadata (Model.myData st') = Model.metadata (Model.myData st)
  /\ Model.viewports (Model.myData st') = Model.viewports (Model.myData st).
Proof.
  unfold Model.getPageToModelTransform.
  destruct (Model.pageToModelTransform _); [by intros [= _ <-]|].
  destruct (Model.metadata (Model.myData st)) as [md|] eqn:Hmd; [|discriminate].
  destruct (Model.viewports (Model.myData st)) as [vps|] eqn:Hvps; [|discriminate].
  destruct (vps !! vpId) as [[vp|]|]; [| by intros [= _ <-] ..].
  destruct (default ∅ _ !! vpId); [by intros [= _ <-]|].
  destruct (Model.page_dimensions md) as [pd|]; [|discriminate].
  unfold Model.slice.
  destruct (Model.store st !! Model.transform vp) as [raw|]; [|discriminate].
  pose proof (is_fresh (dom (Model.store st))) as Hfresh.
  set (copy := fresh (dom (Model.store st))) in *.
  unfold Model.repairViewportMatrix. rewrite lookup_insert_eq, lookup_insert_eq.
  cbn [default]. destruct (Matrix4.elements_set _); [|discriminate].
  cbn [mbind Result_bind]. intros [= _ <-]. cbn. split_and!; [|done..].
  intros l e Hl. rewrite !lookup_insert_ne; [done | |];
    intros <-; apply Hfresh, elem_of_dom; eauto.
Qed.

(** C10.  A call leaves every stored array as it was, the raw transform of
    the viewport among them, and leaves the metadata (the page dimensions)
    and the viewports in place: the repair works on a copy.  For a viewport
    that is there, with a 16-entry transform, on data with page
    dimensions, the call does return. *)
Theorem getPageToModelTransform_frame (ops : Matrix4.Ops) (st : Model.State)
    (vpId : nat) :
  (forall m st',
     Model.getPageToModelTransform ops st vpId = Ok (m, st') ->
     (forall l e, Model.store st !! l = Some e -> Model.store st' !! l = Some e)
     /\ Model.metadata (Model.myData st') = Model.metadata (Model.myData st)
     /\ Model.viewports (Model.myData st') = Model.viewports (Model.myData st))
  /\ (forall md pd vps vp (raw : list float),
        Model.metadata (Model.myData st) = Some md ->
        Model.page_dimensions md = Some pd ->
        Model.viewports (Model.myData st) = Some vps ->
        vps !! vpId = Some (Some vp) ->
        Model.store st !! Model.transform vp = Some raw ->
        length raw = 16 ->
        exists m st',
          Model.getPageToModelTransform ops st vpId = Ok (m, st')
          /\ Model.store st' !! Model.transform vp = Some raw
          /\ Model.metadata (Model.myData st') = Some md).
Proof.
  split; [intros m st'; apply getPageToModelTransform_returns_frame|].
  intros md pd vps vp raw Hmd Hpd Hvps Hvp Hraw Hlen.
  assert (exists m st', Model.getPageToModelTransform ops st vpId = Ok (m, st'))
    as (m & st' & Hcall).
  { destruct st as [s data]. cbn [Model.store Model.myData] in *.
    destruct (Model.pageToModelTransform data) as [m|] eqn:Hover.
    { exists m, {| Model.store := s; Model.myData := data |}.
      unfold Model.getPageToModelTransform. cbn [Model.myData]. by rewrite Hover. }
    destruct (default ∅ (Model.viewportTransforms data) !! vpId) as [cached|] eqn:Hcache.
    { eexists cached, _. unfold Model.getPageToModelTransform. cbn [Model.myData Model.store].
      by rewrite Hover, Hmd, Hvps, Hvp, Hcache. }
    destruct (getPageToModelTransform_computed ops s data vpId md pd vps vp raw)
      as (copy & Hfresh & ->); try done.
    by eexists _, _. }
  exists m, st'. split; [done|].
  destruct (getPageToModelTransform_returns_frame ops st st' vpId m Hcall)
    as (Hstore & Hmeta & _).
  split; [by apply Hstore | by rewrite Hmeta].
Qed.

Lemma getPageToModelTransform_frame_witness :
  exists m st',
    Model.getPageToModelTransform sampleOps (sampleState thresholdTransform) 1 = Ok (m, st')
    /\ Model.store st' !! 1 = Some thresholdTransform
    /\ Model.metadata (Model.myData st') = Some {| Model.page_dimensions := Some samplePage |}.
Proof.
  apply (proj2 (getPageToModelTransform_frame sampleOps (sampleState thresholdTransform) 1)
           {| Model.page_dimensions := Some samplePage |} samplePage
           [None; Some {| Model.transform := 1 |}] {| Model.transform := 1 |}
           thresholdTransform); reflexivity.
Defined.

(** C3, as stated, fails at the threshold: when the first pivot of [M] has
    magnitude exactly [1e-3], the repair of the swapped array exchanges row
    0 with row 2 instead of row 1, and the array handed to the inversion is
    not [M]; the matrices returned differ for all matrix operations under
    which different arrays give different results. *)
Lemma repair_threshold_counterexample :
  length thresholdTransform = 16
  /\ PrimFloat.leb JsNumber.precision
       (PrimFloat.abs (Model.array_get thresholdTransform 0)) = true
  /\ PrimFloat.leb JsNumber.precision
       (PrimFloat.abs (Model.array_get thresholdTransform 5)) = true
  /\ PrimFloat.ltb (PrimFloat.abs (Model.array_get thresholdTransform 4))
       JsNumber.precision = true
  /\ Model.repairedElements thresholdTransform = thresholdTransform
  /\ Model.repairedElements (swapRows01 thresholdTransform) =
       [0; 0; 1; 0;
        0; 1; 0; 0;
        JsNumber.precision; 0; 0; 0;
        0; 0; 0; 1]%float
  /\ (forall ops : Matrix4.Ops,
        (forall a b,
           Matrix4.multiply ops (Matrix4.getInverse ops a) (Model.pageToLogical samplePage) =
           Matrix4.multiply ops (Matrix4.getInverse ops b) (Model.pageToLogical samplePage) ->
           a = b) ->
        returned (Model.getPageToModelTransform ops
                    (sampleState (swapRows01 thresholdTransform)) 1) <>
        returned (Model.getPageToModelTransform ops
                    (sampleState thresholdTransform) 1))
  /\ ~ (forall ops : Matrix4.Ops,
          returned (Model.getPageToModelTransform ops
                      (sampleState (swapRows01 thresholdTransform)) 1) =
          returned (Model.getPageToModelTransform ops
                      (sampleState thresholdTransform) 1)).
Proof.
  assert (forall ops : Matrix4.Ops,
        (forall a b,
           Matrix4.multiply ops (Matrix4.getInverse ops a) (Model.pageToLogical samplePage) =
           Matrix4.multiply ops (Matrix4.getInverse ops b) (Model.pageToLogical samplePage) ->
           a = b) ->
        returned (Model.getPageToModelTransform ops
                    (sampleState (swapRows01 thresholdTransform)) 1) <>
        returned (Model.getPageToModelTransform ops
                    (sampleState thresholdTransform) 1)) as Hdiffer.
  { intros ops Hinj H.
    destruct (getPageToModelTransform_computed ops {[ 1 := swapRows01 thresholdTransform ]}
                sampleData 1 {| Model.page_dimensions := Some samplePage |} samplePage
                [None; Some {| Model.transform := 1 |}] {| Model.transform := 1 |}
                (swapRows01 thresholdTransform)) as (c1 & _ & H1); try reflexivity.
    destruct (getPageToModelTransform_computed ops {[ 1 := thresholdTransform ]}
                sampleData 1 {| Model.page_dimensions := Some samplePage |} samplePage
                [None; Some {| Model.transform := 1 |}] {| Model.transform := 1 |}
                thresholdTransform) as (c2 & _ & H2); try reflexivity.
    unfold sampleState in H. rewrite H1, H2 in H. cbn [returned] in H.
    injection H as H. apply Hinj in H.
    apply (f_equal (fun e => match e with
                             | v :: _ => PrimFloat.eqb v 0
                             | [] => false
                             end)) in H.
    vm_compute in H. discriminate. }
  split_and!; try reflexivity; [exact Hdiffer|].
  intros H. apply (Hdiffer sampleOps); [|apply H].
  intros a b Hab. exact Hab.
Qed.

(** C3, amended.  For a 16-entry transform [M] whose first element has
    magnitude above [1e-3], whose element 5 has magnitude at least [1e-3]
    and whose element 4 has magnitude below [1e-3], the call on the data
    storing [M] with rows 0 and 1 exchanged returns the same matrix as on
    the data storing [M]; where the matrix is computed, it is computed from
    [M] itself. *)
Theorem repair_restores_swapped_rows (ops : Matrix4.Ops) (s : Model.Store)
    (data : Model.F2D) (vpId : nat) vps vp (M : list float) :
  Model.viewports data = Some vps ->
  vps !! vpId = Some (Some vp) ->
  length M = 16 ->
  PrimFloat.ltb JsNumber.precision (PrimFloat.abs (Model.array_get M 0)) = true ->
  PrimFloat.leb JsNumber.precision (PrimFloat.abs (Model.array_get M 5)) = true ->
  PrimFloat.ltb (PrimFloat.abs (Model.array_get M 4)) JsNumber.precision = true ->
  let swapped := {| Model.store := <[Model.transform vp := swapRows01 M]> s;
                    Model.myData := data |} in
  let ordered := {| Model.store := <[Model.transform vp := M]> s;
                    Model.myData := data |} in
  returned (Model.getPageToModelTransform ops swapped vpId) =
    returned (Model.getPageToModelTransform ops ordered vpId)
  /\ (forall md pd,
        Model.pageToModelTransform data = None ->
        Model.metadata data = Some md ->
        Model.page_dimensions md = Some pd ->
        default ∅ (Model.viewportTransforms data) !! vpId = None ->
        returned (Model.getPageToModelTransform ops swapped vpId) =
          Ok (Matrix4.multiply ops (Matrix4.getInverse ops M) (Model.pageToLogical pd))).
Proof.
  intros Hvps Hvp Hlen H0 H5 H4 swapped ordered.
  destruct (repairedElements_swapped M Hlen H0 H5 H4) as [Hswapped Hordered].
  assert (length (swapRows01 M) = 16) as Hlen'.
  { clear -Hlen. sixteen M Hlen. reflexivity. }
  assert (forall md pd,
        Model.pageToModelTransform data = None ->
        Model.metadata data = Some md ->
        Model.page_dimensions md = Some pd ->
        default ∅ (Model.viewportTransforms data) !! vpId = None ->
        returned (Model.getPageToModelTransform ops swapped vpId) =
          Ok (Matrix4.multiply ops (Matrix4.getInverse ops M) (Model.pageToLogical pd))
        /\ returned (Model.getPageToModelTransform ops ordered vpId) =
          Ok (Matrix4.multiply ops (Matrix4.getInverse ops M) (Model.pageToLogical pd)))
    as Hcomputed.
  { intros md pd Hover Hmd Hpd Hcache. subst swapped ordered. split.
    - destruct (getPageToModelTransform_computed ops
                  (<[Model.transform vp := swapRows01 M]> s) data vpId md pd vps vp
                  (swapRows01 M)) as (copy & _ & ->); try done.
      + apply lookup_insert_eq.
      + cbn. by rewrite Hswapped.
    - destruct (getPageToModelTransform_computed ops
                  (<[Model.transform vp := M]> s) data vpId md pd vps vp M)
        as (copy & _ & ->); try done.
      + apply lookup_insert_eq.
      + cbn. by rewrite Hordered. }
  split; [|intros md pd ? ? ? ?; by apply (Hcomputed md pd)].
  destruct (Model.pageToModelTransform data) as [m|] eqn:Hover.
  { subst swapped ordered. unfold Model.getPageToModelTransform.
    cbn [Model.myData]. by rewrite Hover. }
  destruct (Model.metadata data) as [md|] eqn:Hmd.
  2:{ subst swapped ordered. unfold Model.getPageToModelTransform.
      cbn [Model.myData]. by rewrite Hover, Hmd. }
  destruct (default ∅ (Model.viewportTransforms data) !! vpId) as [cached|] eqn:Hcache.
  { subst swapped ordered. unfold Model.getPageToModelTransform.
    cbn [Model.myData]. by rewrite Hover, Hmd, Hvps, Hvp, Hcache. }
  destruct (Model.page_dimensions md) as [pd|] eqn:Hpd.
  - destruct (Hcomputed md pd) as [-> ->]; done.
  - subst swapped ordered. unfold Model.getPageToModelTransform.
    cbn [Model.myData]. by rewrite Hover, Hmd, Hvps, Hvp, Hcache, Hpd.
Qed.

Lemma repair_restores_swapped_rows_witness :
  returned (Model.getPageToModelTransform sampleOps
              {| Model.store := <[1 := swapRows01 scaledTransform]> ∅;
                 Model.myData := sampleData |} 1) =
  returned (Model.getPageToModelTransform sampleOps
              {| Model.store := <[1 := scaledTransform]> ∅;
                 Model.myData := sampleData |} 1).
Proof.
  refine (proj1 (repair_restores_swapped_rows sampleOps ∅ sampleData 1
                   [None; Some {| Model.transform := 1 |}] {| Model.transform := 1 |}
                   scaledTransform _ _ _ _ _ _)); reflexivity.
Defined.

(** ** Clip queries *)

Lemma reorganizeContours_wf (counts : list nat) (index n : nat) :
  Forall (fun count => 0 < count) counts ->
  index + sum_list counts <= n ->
  Forall (fun cntr => cntr <> [] /\ Forall (fun j => j < n) cntr)
    (Model.reorganizeContours counts index).
Proof.
  revert index. induction counts as [|count counts IH]; intros index Hpos Hsum;
    cbn [Model.reorganizeContours]; [constructor|].
  inversion Hpos as [|? ? Hcount Hrest]; subst. simpl in Hsum.
  constructor.
  - split.
    + destruct count; [lia | discriminate].
    + apply Forall_forall. intros j Hj%elem_of_seq. lia.
  - apply IH; [done | lia].
Qed.

Lemma contourLoop_total px py pts cntr vtx0 yflag0 inside_flag :
  Forall (fun j => j < length pts) cntr ->
  exists b, Model.contourLoop px py pts cntr vtx0 yflag0 inside_flag = Ok b.
Proof.
  revert vtx0 yflag0 inside_flag.
  induction cntr as [|j cntr IH]; intros vtx0 yflag0 inside_flag Hall;
    cbn [Model.contourLoop]; [by eexists|].
  inversion Hall as [|? ? Hj Hrest]; subst.
  destruct (lookup_lt_is_Some_2 pts j Hj) as [vtx1 ->].
  destruct (Model.contourStep px py vtx0 vtx1 yflag0 inside_flag) as [yflag1 flag].
  by apply IH.
Qed.

Lemma pointInContour_total px py cntr pts :
  cntr <> [] ->
  Forall (fun j => j < length pts) cntr ->
  exists b, Model.pointInContour px py cntr pts = Ok b.
Proof.
  intros Hne Hall. unfold Model.pointInContour.
  destruct (last cntr) as [l|] eqn:Hlast; [|by apply last_None in Hlast].
  assert (l < length pts) as Hl.
  { apply last_Some in Hlast as [l' ->]. by apply Forall_app in Hall as [_ [? _]%Forall_cons]. }
  destruct (lookup_lt_is_Some_2 pts l Hl) as [vtx0 ->].
  by apply contourLoop_total.
Qed.

Lemma polygonLoop_total px py contours pts inside :
  Forall (fun cntr => cntr <> [] /\ Forall (fun j => j < length pts) cntr) contours ->
  exists b, Model.polygonLoop px py contours pts inside = Ok b.
Proof.
  revert inside. induction contours as [|cntr contours IH]; intros inside Hall;
    cbn [Model.polygonLoop]; [by eexists|].
  inversion Hall as [|? ? [Hne Hc] Hrest]; subst.
  destruct (pointInContour_total px py cntr pts Hne Hc) as [hit ->].
  cbn [mbind Result_bind]. by apply IH.
Qed.

Lemma pointInPolygon_wf (clip : Model.Clip) px py :
  clip_wf clip ->
  exists b, Model.pointInPolygon px py (Model.decodeClip clip).1 (Model.decodeClip clip).2
            = Ok b.
Proof.
  intros [Hpos Hsum]. apply polygonLoop_total.
  cbn [Model.decodeClip fst snd]. by apply reorganizeContours_wf.
Qed.

Lemma clipLoop_spec (cs : list (option Model.Clip)) point vpId :
  (forall i, 1 <= i -> i <> vpId -> i < length cs ->
             exists clip, cs !! i = Some (Some clip) /\ clip_wf clip) ->
  forall n i clipIds,
    1 <= i -> n = length cs - i ->
    Model.clipLoop point vpId i (drop i cs) clipIds =
    Ok (clipIds ++
        List.filter (fun i => negb (Nat.eqb i vpId) && contains (cs !! i) point) (seq i n)).
Proof.
  intros Hwf. induction n as [|n IH]; intros i clipIds Hi Hn.
  - rewrite drop_ge by lia. cbn. by rewrite app_nil_r.
  - destruct (lookup_lt_is_Some_2 cs i) as [c Hc]; [lia|].
    rewrite (drop_S _ _ _ Hc). cbn [Model.clipLoop seq List.filter].
    destruct (Nat.eqb_spec i vpId) as [->|Hne]; cbn [negb andb].
    + apply IH; lia.
    + destruct (Hwf i) as (clip & Hclip & Hclipwf); [lia..|].
      rewrite Hclip in Hc. injection Hc as <-.
      destruct (pointInPolygon_wf clip (Model.x point) (Model.y point) Hclipwf)
        as [inside Hinside].
      rewrite Hclip. unfold contains. rewrite Hinside.
      destruct (Model.decodeClip clip) as [contours pts]. cbn [fst snd] in Hinside.
      rewrite Hinside. cbn [mbind Result_bind].
      rewrite IH by lia. destruct inside; [|done]. by rewrite <- app_assoc.
Qed.

Lemma filter_seq_sorted (f : nat -> bool) (a n : nat) :
  StronglySorted lt (List.filter f (seq a n)).
Proof.
  revert a. induction n as [|n IH]; intros a; cbn [seq List.filter]; [constructor|].
  destruct (f a); [|apply IH]. constructor; [apply IH|].
  apply List.Forall_forall. intros j [Hj _]%filter_In. apply in_seq in Hj. lia.
Qed.

Lemma clipLoop_returns (cs : list (option Model.Clip)) point vpId :
  forall n i clipIds ids,
    n = length cs - i ->
    Model.clipLoop point vpId i (drop i cs) clipIds = Ok ids ->
    ids = clipIds ++
          List.filter (fun i => negb (Nat.eqb i vpId) && contains (cs !! i) point) (seq i n).
Proof.
  induction n as [|n IH]; intros i clipIds ids Hn.
  - rewrite drop_ge by lia. cbn. rewrite app_nil_r. by intros [= ->].
  - destruct (lookup_lt_is_Some_2 cs i) as [c Hc]; [lia|].
    rewrite (drop_S _ _ _ Hc). cbn [Model.clipLoop seq List.filter].
    destruct (Nat.eqb_spec i vpId) as [->|Hne]; cbn [negb andb].
    + apply IH. lia.
    + rewrite Hc. destruct c as [clip|]; [|discriminate].
      unfold contains. destruct (Model.decodeClip clip) as [contours pts]. cbn [fst snd].
      destruct (Model.pointInPolygon _ _ contours pts) as [inside|e]; [|discriminate].
      cbn [mbind Result_bind]. intros Hrest. apply IH in Hrest; [|lia]. subst ids.
      destruct inside; [|done]. by rewrite <- app_assoc.
Qed.

Lemma contourLoop_result px py pts cntr vtx0 yflag0 inside_flag :
  if forallb (fun j => Nat.ltb j (length pts)) cntr
  then exists b, Model.contourLoop px py pts cntr vtx0 yflag0 inside_flag = Ok b
  else Model.contourLoop px py pts cntr vtx0 yflag0 inside_flag = Throw TypeError.
Proof.
  revert vtx0 yflag0 inside_flag.
  induction cntr as [|j cntr IH]; intros vtx0 yflag0 inside_flag;
    cbn [Model.contourLoop forallb]; [by eexists|].
  destruct (Nat.ltb_spec j (length pts)) as [Hj|Hj]; cbn [andb].
  - destruct (lookup_lt_is_Some_2 pts j Hj) as [vtx1 ->].
    destruct (Model.contourStep px py vtx0 vtx1 yflag0 inside_flag) as [yflag1 flag].
    apply IH.
  - by rewrite (lookup_ge_None_2 pts j).
Qed.


Lemma pointInContour_result px py cntr pts :
  if contour_ok pts cntr
  then exists b, Model.pointInContour px py cntr pts = Ok b
  else Model.pointInContour px py cntr pts = Throw TypeError.
Proof.
  unfold contour_ok, Model.pointInContour.
  destruct (last cntr) as [l|] eqn:Hlast.
  - apply last_Some in Hlast as [cntr' ->].
    rewrite length_app. cbn [length]. replace (length cntr' + 1) with (S (length cntr')) by lia.
    cbn [Nat.eqb negb andb].
    pose proof (contourLoop_result px py pts (cntr' ++ [l])) as Hloop.
    destruct (forallb _ (cntr' ++ [l])) eqn:Hall.
    + rewrite forallb_app in Hall. apply andb_prop in Hall as [_ Hl].
      cbn in Hl. rewrite andb_true_r in Hl. apply Nat.ltb_lt in Hl.
      destruct (lookup_lt_is_Some_2 pts l Hl) as [vtx0 ->]. apply Hloop.
    + destruct (pts !! l) as [vtx0|]; [apply Hloop | reflexivity].
  - apply last_None in Hlast as ->. reflexivity.
Qed.


Lemma polygonLoop_parity px py contours pts inside :
  Model.polygonLoop px py contours pts inside =
  if forallb (contour_ok pts) contours
  then Ok (xorb inside (Nat.odd (length (List.filter (in_contour px py pts) contours))))
  else Throw TypeError.
Proof.
  revert inside. induction contours as [|cntr contours IH]; intros inside;
    cbn [Model.polygonLoop forallb List.filter].
  - cbn. by rewrite xorb_false_r.
  - pose proof (pointInContour_result px py cntr pts) as Hc. unfold in_contour at 1.
    destruct (contour_ok pts cntr); cbn [andb].
    + destruct Hc as [hit ->]. cbn [mbind Result_bind]. rewrite IH.
      destruct (forallb _ contours); [|reflexivity]. f_equal.
      destruct hit; [|reflexivity]. cbn [length].
      rewrite Nat.odd_succ, <- Nat.negb_odd.
      by destruct inside, (Nat.odd _).
    + by rewrite Hc.
Qed.


Lemma clipLoop_result (cs : list (option Model.Clip)) point vpId :
  forall n i clipIds,
    n = length cs - i ->
    if forallb (fun i => Nat.eqb i vpId || entry_ok (cs !! i)) (seq i n)
    then exists ids, Model.clipLoop point vpId i (drop i cs) clipIds = Ok ids
    else Model.clipLoop point vpId i (drop i cs) clipIds = Throw TypeError.
Proof.
  induction n as [|n IH]; intros i clipIds Hn.
  - rewrite drop_ge by lia. cbn. by eexists.
  - destruct (lookup_lt_is_Some_2 cs i) as [c Hc]; [lia|].
    rewrite (drop_S _ _ _ Hc). cbn [Model.clipLoop seq forallb].
    destruct (Nat.eqb i vpId); cbn [orb andb]; [apply IH; lia|].
    rewrite Hc. destruct c as [clip|]; [|reflexivity]. cbn [entry_ok].
    destruct (Model.decodeClip clip) as [contours pts]. cbn [fst snd].
    unfold Model.pointInPolygon. rewrite polygonLoop_parity.
    destruct (forallb (contour_ok pts) contours); cbn [andb mbind Result_bind];
      [apply IH; lia | reflexivity].
Qed.


Lemma forallb_fails {A} (f : A -> bool) (l : list A) :
  forallb f l = false -> exists a, In a l /\ f a = false.
Proof.
  induction l as [|a l IH]; cbn [forallb]; [discriminate|].
  destruct (f a) eqn:Ha; cbn [andb].
  - intros (b & Hb & Hf)%IH. exists b. split; [by right | done].
  - intros _. exists a. split; [by left | done].
Qed.

(** *** The polygon test against the region of the flat arrays *)

Lemma reorganizePoints_lookup (n : nat) :
  forall (points : list float) (j : nat),
    length points <= n ->
    j < length (Model.reorganizePoints points) ->
    Model.reorganizePoints points !! j =
    Some {| Model.x := default PrimFloat.nan (points !! (2 * j));
            Model.y := default PrimFloat.nan (points !! (2 * j + 1)) |}.
Proof.
  induction n as [|n IH]; intros [|px [|py rest]] j Hlen Hj;
    cbn [length Model.reorganizePoints] in *; try lia.
  - destruct j; [reflexivity | lia].
  - destruct j as [|j]; [reflexivity|].
    cbn [lookup list_lookup]. rewrite IH by lia.
    replace (2 * S j) with (S (S (2 * j))) by lia.
    replace (S (S (2 * j)) + 1) with (S (S (2 * j + 1))) by lia.
    reflexivity.
Qed.

Lemma reorganizeContours_loops (counts : list nat) :
  forall index,
    Model.reorganizeContours counts index =
    map (fun k => seq (index + sum_list (take k counts)) (default 0 (counts !! k)))
        (seq 0 (length counts)).
Proof.
  induction counts as [|count counts IH]; intros index; [reflexivity|].
  cbn [Model.reorganizeContours length seq map take sum_list sum_list_with
       lookup list_lookup default]. rewrite Nat.add_0_r. f_equal.
  rewrite IH, <- seq_shift, map_map. apply map_ext. intros k.
  change (take (S k) (count :: counts)) with (count :: take k counts).
  change ((count :: counts) !! S k) with (counts !! k).
  f_equal. simpl. lia.
Qed.

Lemma contourStep_crosses px py vtx0 vtx1 inside_flag :
  Model.contourStep px py vtx0 vtx1 (Model.geb (Model.y vtx0) py) inside_flag =
  (Model.geb (Model.y vtx1) py, xorb inside_flag (rayCrosses px py vtx0 vtx1)).
Proof.
  unfold Model.contourStep, rayCrosses. f_equal.
  destruct (Model.geb (Model.y vtx0) py), (Model.geb (Model.y vtx1) py),
    (Model.geb _ _), inside_flag; reflexivity.
Qed.

Lemma contourLoop_crossings px py pts cntr vs :
  Forall2 (fun j v => pts !! j = Some v) cntr vs ->
  forall vtx0 inside_flag,
    Model.contourLoop px py pts cntr vtx0 (Model.geb (Model.y vtx0) py) inside_flag =
    Ok (xorb inside_flag
          (Nat.odd (length (List.filter (fun e => rayCrosses px py e.1 e.2)
                              (zip (vtx0 :: vs) vs))))).
Proof.
  induction 1 as [|j v cntr vs Hj _ IH]; intros vtx0 inside_flag;
    cbn [Model.contourLoop]; [by rewrite xorb_false_r|].
  rewrite Hj, contourStep_crosses, IH. f_equal.
  cbn [zip zip_with List.filter fst snd].
  destruct (rayCrosses px py vtx0 v); cbn [length].
  - rewrite Nat.odd_succ, <- Nat.negb_odd.
    by destruct inside_flag, (Nat.odd _).
  - by rewrite xorb_false_r.
Qed.

Lemma pointInContour_insideLoop px py pts cntr vs :
  cntr <> [] ->
  Forall2 (fun j v => pts !! j = Some v) cntr vs ->
  Model.pointInContour px py cntr pts = Ok (insideLoop px py vs).
Proof.
  intros Hne Hall. unfold Model.pointInContour, insideLoop, loopEdges.
  destruct (last cntr) as [l|] eqn:Hlast; [|by apply last_None in Hlast].
  apply last_Some in Hlast as [cntr' ->].
  apply Forall2_app_inv_l in Hall as (vs' & vl & Hvs' & Hvl & ->).
  apply Forall2_cons_inv_l in Hvl as (v & vl' & Hv & ->%Forall2_nil_inv_l & ->).
  rewrite Hv, last_snoc.
  by rewrite (contourLoop_crossings px py pts (cntr' ++ [l]) (vs' ++ [v]))
    by (apply Forall2_app; [done | by repeat constructor]).
Qed.

Lemma contour_ok_seq pts a n :
  contour_ok pts (seq a n) = true -> 0 < n /\ a + n <= length pts.
Proof.
  unfold contour_ok. rewrite length_seq. intros [Hn Hall]%andb_prop.
  apply negb_true_iff, Nat.eqb_neq in Hn. split; [lia|].
  rewrite forallb_forall in Hall.
  specialize (Hall (a + n - 1)). rewrite in_seq, Nat.ltb_lt in Hall. lia.
Qed.

Lemma in_contour_insideLoop (c : Model.Clip) px py k :
  contour_ok (Model.reorganizePoints (Model.points c)) (regionLoop c k) = true ->
  in_contour px py (Model.reorganizePoints (Model.points c)) (regionLoop c k) =
  insideLoop px py (regionVertices c k).
Proof.
  intros [Hn Hsum]%contour_ok_seq. unfold in_contour, regionVertices.
  rewrite (pointInContour_insideLoop px py _ _ (map (regionPoint c) (regionLoop c k)));
    [done | |].
  - unfold regionLoop in *. destruct (default 0 _); [lia | discriminate].
  - apply Forall2_fmap_r, Forall_Forall2_diag, Forall_forall.
    intros j Hj%elem_of_seq. unfold regionPoint.
    apply (reorganizePoints_lookup _ _ _ (le_n _)). lia.
Qed.

Lemma decodeClip_loops (c : Model.Clip) :
  (Model.decodeClip c).1 = map (regionLoop c) (seq 0 (length (Model.contourCounts c))).
Proof. unfold Model.decodeClip. cbn [fst]. by rewrite reorganizeContours_loops. Qed.

Lemma length_filter_map {A B} (f : B -> bool) (g : A -> B) (l : list A) :
  length (List.filter f (map g l)) = length (List.filter (fun a => f (g a)) l).
Proof.
  induction l as [|a l IH]; [reflexivity|]. cbn [map List.filter].
  destruct (f (g a)); cbn [length]; by rewrite IH.
Qed.

Lemma length_filter_agree {A} (f g : A -> bool) (l : list A) :
  (forall a, In a l -> f a = g a) ->
  length (List.filter f l) = length (List.filter g l).
Proof.
  induction l as [|a l IH]; intros Hfg; [reflexivity|]. cbn [List.filter].
  rewrite (Hfg a) by by left.
  destruct (g a); cbn [length]; rewrite IH; try done; intros ? ?; apply Hfg; by right.
Qed.

Lemma contains_inRegion (entry : option (option Model.Clip)) (point : Model.Point) :
  entry_ok entry = true -> contains entry point = inRegion entry point.
Proof.
  destruct entry as [[c|]|]; try discriminate. cbn [entry_ok contains inRegion].
  intros Hok. unfold Model.pointInPolygon. rewrite polygonLoop_parity, Hok.
  cbn [xorb]. unfold insideRegion. f_equal.
  rewrite decodeClip_loops in Hok |- *. rewrite length_filter_map.
  apply length_filter_agree. intros k Hk.
  apply in_contour_insideLoop.
  rewrite forallb_forall in Hok. apply Hok, in_map_iff. by exists k.
Qed.

Lemma clip_wf_ok (c : Model.Clip) : clip_wf c -> entry_ok (Some (Some c)) = true.
Proof.
  intros [Hpos Hsum]. cbn [entry_ok]. apply forallb_forall. intros cntr Hcntr.
  pose proof (reorganizeContours_wf (Model.contourCounts c) 0 _ Hpos Hsum) as Hwf.
  rewrite Forall_forall in Hwf. apply list_elem_of_In, Hwf in Hcntr as [Hne Hall].
  unfold contour_ok. apply andb_true_intro. split.
  - by destruct cntr.
  - apply forallb_forall. intros j Hj. apply Nat.ltb_lt.
    rewrite Forall_forall in Hall. by apply Hall, list_elem_of_In.
Qed.

Lemma filter_agree {A} (f g : A -> bool) (l : list A) :
  (forall a, In a l -> f a = g a) -> List.filter f l = List.filter g l.
Proof.
  induction l as [|a l IH]; intros Hfg; [reflexivity|]. cbn [List.filter].
  rewrite (Hfg a) by by left. rewrite IH by (intros ? ?; apply Hfg; by right).
  reflexivity.
Qed.

Lemma clipsAround_regions (cs : list (option Model.Clip)) point vpId :
  (forall i, 1 <= i < length cs -> i <> vpId -> entry_ok (cs !! i) = true) ->
  clipsAround cs point vpId = regionsAround cs point vpId.
Proof.
  intros Hok. unfold clipsAround, regionsAround. apply filter_agree.
  intros i Hi%in_seq. destruct (Nat.eqb_spec i vpId) as [|Hne]; [reflexivity|].
  cbn [negb andb]. apply contains_inRegion, Hok; [lia | done].
Qed.

(** C8.  Whenever [pointInClip(p, v)] returns, it returns exactly the ids
    [i] with [1 <= i < clips.length], [i <> v], whose region contains [p],
    in strictly ascending order, and so neither [v] nor 0; and it returns
    whenever the clips it examines (all from index 1 on other than [v])
    are there and have non-empty contours over points that are there.
    The region of a clip is read from its flat arrays: contour [k] takes
    the next [contourCounts[k]] points, and [p] is in the region when it
    is in an odd number of contours, in a contour when the ray from [p]
    to the right crosses an odd number of its edges. *)
Theorem pointInClip_ids (data : Model.F2D) (point : Model.Point) (vpId : nat) :
  (forall ids,
     Model.pointInClip data point vpId = Ok ids ->
     exists cs,
       Model.clips data = Some cs
       /\ ids = regionsAround cs point vpId
       /\ (forall i, In i ids <->
                     (1 <= i < length cs /\ i <> vpId /\
                      exists clip, cs !! i = Some (Some clip)
                                   /\ insideRegion clip point = true))
       /\ StronglySorted lt ids
       /\ ~ In vpId ids
       /\ ~ In 0 ids)
  /\ (forall cs,
        Model.clips data = Some cs ->
        (forall i, 1 <= i -> i <> vpId -> i < length cs ->
                   exists clip, cs !! i = Some (Some clip) /\ clip_wf clip) ->
        Model.pointInClip data point vpId = Ok (regionsAround cs point vpId)).
Proof.
  split.
  - intros ids Hids. unfold Model.pointInClip in Hids.
    destruct (Model.clips data) as [cs|]; [|discriminate]. exists cs.
    assert (forall i, 1 <= i < length cs -> i <> vpId -> entry_ok (cs !! i) = true) as Hok.
    { pose proof (clipLoop_result cs point vpId (length cs - 1) 1 [] eq_refl) as Hloop.
      destruct (forallb _ _) eqn:Hall; [|congruence].
      intros i Hi Hne. rewrite forallb_forall in Hall.
      specialize (Hall i). rewrite in_seq in Hall.
      destruct (Nat.eqb_spec i vpId); [done|]. apply Hall. lia. }
    apply (clipLoop_returns cs point vpId (length cs - 1) 1 [] ids eq_refl) in Hids.
    cbn [app] in Hids. change (ids = clipsAround cs point vpId) in Hids.
    rewrite (clipsAround_regions cs point vpId Hok) in Hids. subst ids.
    assert (forall i, In i (regionsAround cs point vpId) <->
                      (1 <= i < length cs /\ i <> vpId /\
                       exists clip, cs !! i = Some (Some clip)
                                    /\ insideRegion clip point = true))
      as Hin.
    { intros i. unfold regionsAround.
      rewrite filter_In, in_seq, andb_true_iff, negb_true_iff, Nat.eqb_neq.
      split.
      - intros [? [? Hreg]]. split_and!; [lia.. | done |].
        unfold inRegion in Hreg. destruct (cs !! i) as [[clip|]|]; try discriminate.
        by exists clip.
      - intros [? [? (clip & Hclip & Hreg)]]. split_and!; [lia.. | done |].
        by rewrite Hclip. }
    split_and!; [done.. | exact Hin | apply filter_seq_sorted | |].
    + intros [_ [? _]]%Hin. done.
    + intros [? _]%Hin. lia.
  - intros cs Hcs Hwf. unfold Model.pointInClip. rewrite Hcs.
    rewrite (clipLoop_spec cs point vpId Hwf (length cs - 1) 1 []) by done.
    cbn [app]. change (List.filter _ (seq 1 (length cs - 1)))
      with (clipsAround cs point vpId).
    rewrite clipsAround_regions; [done|].
    intros i Hi Hne. destruct (Hwf i) as (clip & -> & Hclip); [lia | done | lia|].
    by apply clip_wf_ok.
Qed.

Lemma unitSquare_wf : clip_wf unitSquare.
Proof. split; [repeat constructor | cbn; lia]. Defined.

Lemma farSquare_wf : clip_wf farSquare.
Proof. split; [repeat constructor | cbn; lia]. Defined.

Lemma pointInClip_ids_witness :
  Model.pointInClip sampleData {| Model.x := 0.5; Model.y := 0.5 |} 2 = Ok [1; 3].
Proof.
  refine (eq_trans
    (proj2 (pointInClip_ids sampleData {| Model.x := 0.5; Model.y := 0.5 |} 2)
       [None; Some unitSquare; Some farSquare; Some unitSquare] eq_refl _) _).
  - intros [|[|[|[|i]]]] Hge Hne Hlt; cbn in Hlt; try lia.
    + exists unitSquare. split; [reflexivity | exact unitSquare_wf].
    + exists unitSquare. split; [reflexivity | exact unitSquare_wf].
  - vm_compute. reflexivity.
Defined.

Example pointInClip_sample :
  Model.pointInClip sampleData {| Model.x := 0.5; Model.y := 0.5 |} 3 = Ok [1]
  /\ Model.pointInClip sampleData {| Model.x := 0.5; Model.y := 0.5 |} 2 = Ok [1; 3]
  /\ Model.pointInClip sampleData {| Model.x := 5.5; Model.y := 5.5 |} 1 = Ok [2].
Proof. split_and!; reflexivity. Qed.

Example pointInPolygon_unit_square :
  Model.pointInPolygon 0.5 0.5 (Model.decodeClip unitSquare).1 (Model.decodeClip unitSquare).2
    = Ok true
  /\ Model.pointInPolygon 2 2 (Model.decodeClip unitSquare).1 (Model.decodeClip unitSquare).2
    = Ok false.
Proof. split; reflexivity. Qed.

(** * Further properties *)

(** ** Searching the direct children *)

Lemma direct_sublist_recursive (flt : Filter) (cs : list node) :
  sublist
    (flat_map (fun child =>
                 (if hasProperties child flt then [child] else []) ++ []) cs)
    (flat_map (fun child =>
                 (if hasProperties child flt then [child] else []) ++
                 subItemsWithProperties flt true child) cs).
Proof.
  induction cs as [|c cs IH]; [constructor|].
  cbn [flat_map]. apply sublist_app; [|exact IH].
  apply sublist_app; [reflexivity | apply sublist_nil_l].
Qed.

(** X1.  [getSubItemsWithProperties(n, f, false)] returns exactly the
    direct children of [n] that satisfy the filter, in their order; they
    form a subsequence of the recursive result. *)
Theorem getSubItemsWithProperties_children (n : node) (flt : Filter) :
  getSubItemsWithProperties (Some n) flt false =
    List.filter (fun c => hasProperties c flt) (default [] (children n))
  /\ sublist (getSubItemsWithProperties (Some n) flt false)
       (getSubItemsWithProperties (Some n) flt true).
Proof.
  split; [apply getSubItems_direct|].
  destruct n as [f [cs|]]; [|constructor].
  unfold getSubItemsWithProperties. rewrite !subItems_unfold.
  apply direct_sublist_recursive.
Qed.

(** ** Lookups by guid *)

Lemma itemById_unfold order id here f ch :
  itemById order id here (Node f ch) =
  let own := match guid f with
             | Some g => if String.eqb g id then Some here else None
             | None => None
             end in
  let below := match ch with
               | None => None
               | Some cs => childrenById order id here 0 cs
               end in
  if order here
  then match own with Some item => Some item | None => below end
  else match below with Some item => Some item | None => own end.
Proof. reflexivity. Qed.

Lemma childrenById_sound order id here i cs r :
  Forall (fun c => forall here r, itemById order id here c = Some r ->
                   exists q, r = here ++ q /\ has_guid_at c id q) cs ->
  childrenById order id here i cs = Some r ->
  exists j c q, cs !! j = Some c /\ r = here ++ (i + j) :: q /\ has_guid_at c id q.
Proof.
  revert i. induction cs as [|c cs IH]; intros i Hall; cbn [childrenById]; [discriminate|].
  inversion Hall as [|? ? Hc Hcs]; subst.
  destruct (itemById order id (here ++ [i]) c) as [r'|] eqn:Hitem.
  - intros [= <-]. destruct (Hc _ _ Hitem) as (q & -> & Hq).
    exists 0, c, q. rewrite Nat.add_0_r, <- app_assoc. done.
  - intros Hrest. destruct (IH (S i) Hcs Hrest) as (j & c' & q & Hj & -> & Hq).
    exists (S j), c', q. split_and!; [done | | done]. do 2 f_equal. lia.
Qed.

Lemma itemById_sound order id n :
  forall here r, itemById order id here n = Some r ->
                 exists q, r = here ++ q /\ has_guid_at n id q.
Proof.
  induction n as [f|f cs IH] using node_ind; intros here r; rewrite itemById_unfold; cbn zeta.
  - assert (match guid f with
            | Some g => if String.eqb g id then Some here else None
            | None => None
            end = Some r -> exists q, r = here ++ q /\ has_guid_at (Node f None) id q) as Hown.
    { destruct (guid f) as [g|] eqn:Hg; [|discriminate].
      destruct (String.eqb_spec g id) as [->|]; [|discriminate].
      intros [= <-]. exists []. rewrite app_nil_r. split; [done|]. by eexists. }
    destruct (order here); destruct (match guid f with Some _ => _ | None => _ end);
      try discriminate; auto.
  - assert (match guid f with
            | Some g => if String.eqb g id then Some here else None
            | None => None
            end = Some r ->
            exists q, r = here ++ q /\ has_guid_at (Node f (Some cs)) id q) as Hown.
    { destruct (guid f) as [g|] eqn:Hg; [|discriminate].
      destruct (String.eqb_spec g id) as [->|]; [|discriminate].
      intros [= <-]. exists []. rewrite app_nil_r. split; [done|]. by eexists. }
    assert (childrenById order id here 0 cs = Some r ->
            exists q, r = here ++ q /\ has_guid_at (Node f (Some cs)) id q) as Hbelow.
    { intros (j & c & q & Hj & -> & m & Hm & Hg)%childrenById_sound; [|exact IH].
      exists (j :: q). split; [done|]. exists m. split; [|done].
      rewrite node_at_child, Hj. done. }
    destruct (order here).
    + destruct (match guid f with Some _ => _ | None => _ end); auto.
    + destruct (childrenById order id here 0 cs); auto.
Qed.

Lemma childrenById_complete order id here i cs j c q :
  Forall (fun c => forall here q, has_guid_at c id q ->
                   is_Some (itemById order id here c)) cs ->
  cs !! j = Some c -> has_guid_at c id q ->
  is_Some (childrenById order id here i cs).
Proof.
  revert i j. induction cs as [|c' cs IH]; intros i j Hall Hj Hq; [done|].
  inversion Hall as [|? ? Hc Hcs]; subst. cbn [childrenById].
  destruct (itemById order id (here ++ [i]) c') as [r|] eqn:Hitem; [by eexists|].
  destruct j as [|j].
  - injection Hj as ->. destruct (Hc (here ++ [i]) q Hq) as [? ?]. congruence.
  - by eapply IH.
Qed.

Lemma itemById_complete order id n :
  forall here q, has_guid_at n id q -> is_Some (itemById order id here n).
Proof.
  induction n as [f|f cs IH] using node_ind; intros here q (m & Hm & Hg);
    rewrite itemById_unfold; cbn zeta.
  - destruct q as [|? ?]; [|discriminate]. injection Hm as <-. cbn [fields] in Hg.
    rewrite Hg, String.eqb_refl. by destruct (order here).
  - destruct q as [|j q].
    + injection Hm as <-. cbn [fields] in Hg. rewrite Hg, String.eqb_refl.
      destruct (order here); [by eexists|].
      by destruct (childrenById order id here 0 cs).
    + rewrite node_at_child in Hm. destruct (cs !! j) as [c|] eqn:Hj; [|discriminate].
      destruct (childrenById_complete order id here 0 cs j c q IH Hj) as [r Hr].
      { by exists m. }
      rewrite Hr. destruct (order here); [|by eexists].
      by destruct (match guid f with Some _ => _ | None => _ end).
Qed.



(** X2.  On a constructed document [getItemById(id)] returns an item that
    carries the guid [id] whenever the manifest has one, whatever the order
    in which the items enumerate their keys, and null only when it has
    none; when one item alone carries the guid, it is the item returned. *)
Theorem getItemById_finds (host : Host) (root : node) (path : string)
    (acm : option string) (order : KeyOrder) (id : string) :
  let doc := Document_new host (Some root) path acm in
  (forall r, getItemById order doc id = Some r -> has_guid_at root id r)
  /\ (getItemById order doc id = None <-> forall q, ~ has_guid_at root id q)
  /\ (forall p, has_guid_at root id p ->
                (forall q, has_guid_at root id q -> q = p) ->
                getItemById order doc id = Some p).
Proof.
  intros doc.
  assert (forall r, getItemById order doc id = Some r -> has_guid_at root id r) as Hsound.
  { intros r Hr. apply itemById_sound in Hr as (q & -> & Hq). done. }
  assert (forall q, has_guid_at root id q -> is_Some (getItemById order doc id)) as Hcomplete.
  { intros q Hq. exact (itemById_complete order id root [] q Hq). }
  split_and!; [exact Hsound | |].
  - split.
    + intros Hnone q Hq. destruct (Hcomplete q Hq) as [r Hr]. congruence.
    + intros Hnone. destruct (getItemById order doc id) as [r|] eqn:Hr; [|done].
      exfalso. by apply (Hnone r), Hsound.
  - intros p Hp Hunique. destruct (Hcomplete p Hp) as [r Hr].
    rewrite Hr. f_equal. by apply Hunique, Hsound.
Qed.


(** ** The view index *)

Lemma annotateGeometry_writes item above cs ix n :
  (annotateGeometry item above cs ix n).1 =
  fold_left indexWrite
    (map (fun c => (above, item, c)) (List.filter (fun c => type_is c "view") cs)) ix.
Proof.
  revert ix n. induction cs as [|c cs IH]; intros ix n; cbn [annotateGeometry]; [done|].
  cbn [List.filter]. destruct (type_is c "view"); [|apply IH].
  cbn [map fold_left]. apply IH.
Qed.

Lemma viewGeometry_writes host l a :
  viewGeometry (fold_left (annotateOne host) l a) =
  fold_left indexWrite (indexWrites l) (viewGeometry a).
Proof.
  revert a. induction l as [|[above m] l IH]; intros a; [reflexivity|].
  cbn [fold_left indexWrites flat_map fst snd]. rewrite fold_left_app, IH. f_equal.
  unfold annotateOne. destruct (has_view_index m).
  - cbn [viewGeometry fold_left]. apply annotateGeometry_writes.
  - by destruct (is_shared_db m).
Qed.

Lemma indexWrites_views l :
  map (fun w => (w.1.2, w.2)) (indexWrites l) =
  flat_map
    (fun g => map (fun c => (g, c))
                (List.filter (fun c => type_is c "view") (default [] (children g))))
    (List.filter has_view_index l.*2).
Proof.
  induction l as [|[above m] l IH]; [reflexivity|].
  cbn [indexWrites flat_map fmap list_fmap List.filter fst snd].
  rewrite map_app. fold (indexWrites l). rewrite IH.
  destruct (has_view_index m); [|reflexivity].
  cbn [flat_map]. f_equal. rewrite map_map. reflexivity.
Qed.

Lemma indexWrites_indexedViews root :
  map (fun w => (w.1.2, w.2)) (indexWrites (visitedFrom None root)) = indexedViews root.
Proof. unfold indexedViews. by rewrite indexWrites_views, visitedFrom_visited. Qed.

Lemma index_set_entry key item above ix k g :
  entries (index_set key item above ix) !! k = Some g ->
  entries ix !! k = Some g \/ (key = k /\ g = item).
Proof.
  unfold index_set. destruct (_ && _); cbn [entries]; [by left|].
  destruct (decide (key = k)) as [<-|Hne].
  - rewrite lookup_insert_eq. intros [= <-]. by right.
  - rewrite lookup_insert_ne by done. by left.
Qed.

Lemma index_set_keeps key item above ix k :
  is_Some (entries ix !! k) -> is_Some (entries (index_set key item above ix) !! k).
Proof.
  unfold index_set. destruct (_ && _); cbn [entries]; [done|].
  destruct (decide (key = k)) as [<-|Hne].
  - rewrite lookup_insert_eq. by eexists.
  - by rewrite lookup_insert_ne.
Qed.

Lemma index_set_other key item above ix :
  key <> "__proto__" ->
  prototype (index_set key item above ix) = prototype ix
  /\ entries (index_set key item above ix) !! "__proto__" = entries ix !! "__proto__"
  /\ entries (index_set key item above ix) !! key = Some item.
Proof.
  intros Hne. unfold index_set.
  destruct (String.eqb_spec key "__proto__") as [?|_]; [done|]. cbn [andb entries prototype].
  split_and!; [done | by rewrite lookup_insert_ne | apply lookup_insert_eq].
Qed.

Lemma writes_entry ws ix k g :
  entries (fold_left indexWrite ws ix) !! k = Some g ->
  entries ix !! k = Some g \/ exists w, w ∈ ws /\ guid_key w.2 = k /\ w.1.2 = g.
Proof.
  revert ix. induction ws as [|w ws IH]; intros ix; cbn [fold_left]; [by left|].
  intros Hk. apply IH in Hk as [Hk|(w' & Hin & Hrest)].
  - apply index_set_entry in Hk as [Hk|[Hkey ->]]; [by left|].
    right. exists w. split; [apply list_elem_of_here | done].
  - right. exists w'. split; [by apply list_elem_of_further | done].
Qed.

Lemma writes_keep ws ix k :
  is_Some (entries ix !! k) -> is_Some (entries (fold_left indexWrite ws ix) !! k).
Proof.
  revert ix. induction ws as [|w ws IH]; intros ix Hk; cbn [fold_left]; [done|].
  apply IH. by apply index_set_keeps.
Qed.

Lemma writes_other ws ix :
  Forall (fun w => guid_key w.2 <> "__proto__") ws ->
  prototype (fold_left indexWrite ws ix) = prototype ix
  /\ entries (fold_left indexWrite ws ix) !! "__proto__" = entries ix !! "__proto__".
Proof.
  revert ix. induction ws as [|w ws IH]; intros ix Hall; cbn [fold_left]; [done|].
  apply Forall_cons in Hall as [Hw Hall]. destruct (IH (indexWrite ix w) Hall) as [-> ->].
  by destruct (index_set_other (guid_key w.2) w.1.2 w.1.1 ix Hw) as (? & ? & _).
Qed.

Lemma writes_written ws ix w :
  w ∈ ws -> guid_key w.2 <> "__proto__" ->
  is_Some (entries (fold_left indexWrite ws ix) !! guid_key w.2).
Proof.
  revert ix. induction ws as [|x ws IH]; intros ix Hin Hne;
    [by apply not_elem_of_nil in Hin|].
  cbn [fold_left]. apply elem_of_cons in Hin as [<-|Hin]; [|by apply IH].
  apply writes_keep. unfold indexWrite.
  destruct (index_set_other (guid_key w.2) w.1.2 w.1.1 ix Hne) as (_ & _ & ->). by eexists.
Qed.

Lemma numViews_fold_sound host (l : list (option node * node)) a k n :
  numViews (fold_left (annotateOne host) l a) !! k = Some n ->
  numViews a !! k = Some n \/
  exists g, g ∈ l.*2 /\ has_view_index g = true /\ guid_key g = k /\ n = count_views g.
Proof.
  revert a. induction l as [|[above m] l IH]; intros a; cbn [fold_left]; [by left|].
  intros Hk. apply IH in Hk as [Hk|(g & Hin & Hrest)].
  - unfold annotateOne in Hk. destruct (has_view_index m) eqn:Hidx.
    + cbn [numViews] in Hk. unfold count_set in Hk.
      destruct (String.eqb _ "__proto__"); [by left|].
      destruct (decide (key_of (guid (fields m)) = k)) as [<-|Hne].
      * rewrite lookup_insert_eq in Hk. injection Hk as <-. right.
        exists m. split_and!; [apply list_elem_of_here | done..].
      * rewrite lookup_insert_ne in Hk by done. by left.
    + left. by destruct (is_shared_db m).
  - right. exists g. split; [by apply list_elem_of_further | done].
Qed.

Lemma indexedViews_elem (root g c : node) :
  (g, c) ∈ indexedViews root <->
  g ∈ visited root /\ has_view_index g = true /\
  c ∈ default [] (children g) /\ type_is c "view" = true.
Proof.
  unfold indexedViews. rewrite list_elem_of_In, in_flat_map. split.
  - intros (g' & [Hg' Hidx]%filter_In & Hpair).
    apply in_map_iff in Hpair as (c' & [= <- <-] & [Hc Hview]%filter_In).
    split_and!; try done; by apply list_elem_of_In.
  - intros (Hg & Hidx & Hc & Hview). exists g. split.
    + apply filter_In. split; [by apply list_elem_of_In | done].
    + apply in_map_iff. exists c. split; [done|].
      apply filter_In. split; [by apply list_elem_of_In | done].
Qed.

Lemma indexWrites_elem root (w : option node * node * node) :
  w ∈ indexWrites (visitedFrom None root) -> (w.1.2, w.2) ∈ indexedViews root.
Proof.
  intros Hw. rewrite <- indexWrites_indexedViews.
  apply list_elem_of_fmap. by exists w.
Qed.

Lemma entries_sound host root path acm k g :
  entries (myViewGeometry (Document_new host (Some root) path acm)) !! k = Some g ->
  g ∈ visited root /\ has_view_index g = true /\
  exists c, c ∈ default [] (children g) /\ type_is c "view" = true /\ guid_key c = k.
Proof.
  unfold Document_new. cbn [myViewGeometry].
  rewrite annotateViews_visited, viewGeometry_writes.
  intros [Hk|(w & Hw & Hkey & Hitem)]%writes_entry; [done|].
  apply indexWrites_elem, indexedViews_elem in Hw as (Hin & Hidx & Hc & Hview).
  rewrite Hitem in *. split_and!; [done..|]. by exists w.2.
Qed.

(** X4.  Every entry of the two indices of a constructed document comes
    from a geometry item with children that the pass reached: the view
    index maps the guid of one of its view children to it, and the count
    index maps its guid to the number of its view children. *)
Theorem indices_sound (host : Host) (root : node) (path : string)
    (acm : option string) :
  let doc := Document_new host (Some root) path acm in
  (forall k g, entries (myViewGeometry doc) !! k = Some g ->
     g ∈ visited root /\ type_is g "geometry" = true /\
     exists c, c ∈ default [] (children g) /\ type_is c "view" = true /\ guid_key c = k)
  /\ (forall k n, myNumViews doc !! k = Some n ->
        exists g, g ∈ visited root /\ type_is g "geometry" = true /\
                  guid_key g = k /\ n = count_views g).
Proof.
  intros doc. split.
  - intros k g Hk. apply entries_sound in Hk as (Hin & Hidx & Hc).
    split_and!; [done | by apply has_view_index_geometry | done].
  - intros k n Hk. unfold doc, Document_new in Hk. cbn [myNumViews] in Hk.
    rewrite annotateViews_visited in Hk.
    apply numViews_fold_sound in Hk as [Hk|(g & Hin & Hidx & Hkey & Hn)]; [done|].
    rewrite visitedFrom_visited in Hin.
    exists g. split_and!; [done | by apply has_view_index_geometry | done..].
Qed.

Lemma NoDup_fmap_agree {A B : Type} (f : A -> B) (l : list A) (a b : A) :
  NoDup (map f l) -> a ∈ l -> b ∈ l -> f a = f b -> a = b.
Proof.
  induction l as [|x l IH]; intros Hnodup Ha Hb Heq; [by apply not_elem_of_nil in Ha|].
  cbn [map] in Hnodup. apply NoDup_cons in Hnodup as [Hx Hl].
  apply elem_of_cons in Ha as [->|Ha]; apply elem_of_cons in Hb as [->|Hb]; auto.
  - exfalso. apply Hx. rewrite Heq. apply list_elem_of_fmap. eauto.
  - exfalso. apply Hx. rewrite <- Heq. apply list_elem_of_fmap. eauto.
Qed.

Lemma writes_proto_once ws1 w ws2 :
  Forall (fun x => guid_key x.2 <> "__proto__") ws1 ->
  Forall (fun x => guid_key x.2 <> "__proto__") ws2 ->
  guid_key w.2 = "__proto__" ->
  prototype (fold_left indexWrite (ws1 ++ w :: ws2) empty_index) = Some (w.1.2, w.1.1)
  /\ entries (fold_left indexWrite (ws1 ++ w :: ws2) empty_index) !! "__proto__" = None.
Proof.
  intros H1 H2 Hw. rewrite fold_left_app. cbn [fold_left].
  destruct (writes_other ws1 empty_index H1) as [Hp He].
  destruct (writes_other ws2 (indexWrite (fold_left indexWrite ws1 empty_index) w) H2)
    as [-> ->].
  unfold indexWrite at 1 3, index_set, proto_shadowed.
  rewrite Hw, Hp, He. cbn [empty_index entries prototype].
  rewrite lookup_empty. cbn. by rewrite He.
Qed.

Lemma NoDup_split_keys {A} (f : A -> string) (l1 l2 : list A) (a : A) :
  NoDup (map f (l1 ++ a :: l2)) ->
  Forall (fun x => f x <> f a) l1 /\ Forall (fun x => f x <> f a) l2.
Proof.
  rewrite map_app. cbn [map]. intros Hnodup.
  apply NoDup_app in Hnodup as (_ & Hdisj & [Ha _]%NoDup_cons).
  split; apply Forall_forall; intros x Hx Heq.
  - apply (Hdisj (f x)); [apply list_elem_of_fmap; eauto|]. rewrite Heq. apply list_elem_of_here.
  - apply Ha. rewrite <- Heq. apply list_elem_of_fmap. eauto.
Qed.

(** X5.  On a constructed document whose indexed view items have distinct
    guids, [getViewGeometry(v)] is the geometry item whose child [v] is;
    for a view with the guid '__proto__' this needs a geometry item
    without a property '__proto__' of its own, as the item is then read
    back through the prototype of the index. *)
Theorem getViewGeometry_parent (host : Host) (root g v : node) (path : string)
    (acm : option string) :
  NoDup (map (fun gc => guid_key gc.2) (indexedViews root)) ->
  g ∈ visited root ->
  has_view_index g = true ->
  v ∈ default [] (children g) ->
  type_is v "view" = true ->
  (guid_key v = "__proto__" -> extra (fields g) !! "__proto__" = None) ->
  getViewGeometry (Document_new host (Some root) path acm) v = Item g.
Proof.
  intros Hnodup Hg Hidx Hv Hview Hown.
  assert ((g, v) ∈ indexedViews root) as Hpair by by apply indexedViews_elem.
  rewrite <- indexWrites_indexedViews in Hpair, Hnodup.
  apply list_elem_of_fmap in Hpair as (w & Hw & Hin).
  injection Hw as Hwg Hwv.
  unfold getViewGeometry, Document_new. cbn [myViewGeometry].
  rewrite annotateViews_visited, viewGeometry_writes.
  fold (guid_key v). cbn [no_annotations viewGeometry].
  destruct (decide (guid_key v = "__proto__")) as [Hp|Hp].
  - apply list_elem_of_split in Hin as (ws1 & ws2 & Hsplit). rewrite Hsplit in Hnodup |- *.
    rewrite map_map in Hnodup. cbn [snd] in Hnodup.
    apply (NoDup_split_keys (fun w => guid_key w.2)) in Hnodup as [H1 H2].
    rewrite <- Hwv, Hp in H1, H2.
    destruct (writes_proto_once ws1 w ws2 H1 H2) as [Hproto Hentry]; [by rewrite <- Hwv|].
    unfold index_get. rewrite Hp, Hentry, Hproto, <- Hwg.
    unfold own_property. cbn [String.eqb Ascii.eqb Bool.eqb].
    assert (node_get g "__proto__" = None) as ->.
    { unfold node_get. cbn. by rewrite (Hown Hp). }
    reflexivity.
  - destruct (writes_written (indexWrites (visitedFrom None root)) empty_index w Hin)
      as [g' Hg']; [by rewrite <- Hwv|].
    rewrite <- Hwv in Hg'. unfold index_get. rewrite Hg'. f_equal.
    apply writes_entry in Hg' as [Hg'|(w' & Hin' & Hkey & Hitem)]; [done|].
    assert (w' = w) as ->; [|congruence].
    apply (NoDup_fmap_agree (fun w => guid_key w.2) (indexWrites (visitedFrom None root)));
      [by rewrite map_map in Hnodup | done | done | by rewrite Hkey, <- Hwv].
Qed.

Lemma getViewGeometry_parent_witness :
  getViewGeometry (Document_new browser (Some sampleInnerGeometry) "doc" None) sampleView =
  Item sampleInnerGeometry.
Proof.
  apply getViewGeometry_parent; try reflexivity.
  - cbn. apply NoDup_singleton.
  - cbn. apply list_elem_of_here.
  - cbn. apply list_elem_of_here.
Defined.

(** ** Resolving viewables *)





(** X27.  A view item that the view index resolves to itself makes
    [getViewablePath] call itself without end: no depth of calls is enough
    (a host ends the calls with a RangeError).  A constructed document can
    be in this state: a view child with the guid '__proto__' makes its
    geometry item the prototype of the index, and the index then gives the
    [parent] of that geometry item for the guid 'parent'. *)
Theorem getViewablePath_cycle (host : Host) (doc : Document) (v : node)
    (out : option LoadOptions.t) (fuel : nat) :
  type_is v "geometry" = false ->
  type_is v "view" = true ->
  getViewGeometry doc v = Item v ->
  getViewablePath host fuel doc v out = None.
Proof.
  intros Hgeo Hview Hself. revert out.
  induction fuel as [|fuel IH]; intros out; [reflexivity|].
  cbn [getViewablePath]. by rewrite Hgeo, Hview, Hself, IH.
Qed.

Lemma getViewablePath_cycle_witness :
  getViewGeometry (Document_new browser (Some sampleParentView) "doc" None)
    sampleParentView = Item sampleParentView
  /\ getViewablePath browser 1000 (Document_new browser (Some sampleParentView) "doc" None)
       sampleParentView None = None.
Proof.
  split; [reflexivity|].
  apply getViewablePath_cycle; reflexivity.
Defined.

Lemma firstItemPath_options host doc items out p out' :
  firstItemPath host doc items out = Ok (p, out') -> out' = out.
Proof.
  unfold firstItemPath. destruct items as [|first ?]; [by intros [= _ <-]|].
  destruct (getFullPath host doc (urn (fields first))); [|discriminate].
  cbn. by intros [= _ <-].
Qed.

(** X7.  [getViewablePath] changes the caller's load options in one case
    only: the item is a geometry of role 2d with a child of role leaflet,
    and the options are then the ones the leaflet extraction leaves. *)
Theorem getViewablePath_options (host : Host) (fuel : nat) (doc : Document)
    (item : node) (out out' : option LoadOptions.t) (p : option string) :
  getViewablePath host fuel doc item out = Some (Ok (p, out')) ->
  out' = out
  \/ (type_is item "geometry" = true /\ role_is item "2d" = true /\
      exists leaflet rest o o',
        getSubItemsWithProperties (Some item) [("role", PStr "leaflet")] false =
          leaflet :: rest
        /\ out = Some o
        /\ getLeafletParams host o item leaflet = Ok o'
        /\ out' = Some o').
Proof.
  destruct fuel as [|fuel]; [discriminate|]. cbn [getViewablePath].
  destruct (type_is item "geometry") eqn:Hgeo.
  - intros [= H]. unfold geometryViewablePath in H.
    destruct (role_is item "3d"); [left; by eapply firstItemPath_options|].
    destruct (role_is item "2d") eqn:H2d; [|left; by eapply firstItemPath_options].
    destruct (getSubItemsWithProperties (Some item) [("role", PStr "leaflet")] false)
      as [|leaflet rest] eqn:Hleaf.
    + left. cbn [mbind Result_bind length Nat.eqb] in H. by eapply firstItemPath_options.
    + destruct out as [o|].
      * destruct (getLeafletParams host o item leaflet) as [o'|] eqn:Ho'; [|discriminate].
        cbn [mbind Result_bind length Nat.eqb] in H. apply firstItemPath_options in H. right.
        split_and!; [done..|]. by exists leaflet, rest, o, o'.
      * left. cbn [mbind Result_bind length Nat.eqb] in H. by eapply firstItemPath_options.
  - destruct (type_is item "view"); [|intros [= _ <-]; by left].
    destruct (getViewGeometry doc item) as [g| | |]; [|intros [= _ <-]; by left..].
    destruct (getViewablePath host fuel doc g None) as [[[? ?]|]|]; try discriminate.
    intros [= _ <-]. by left.
Qed.

Lemma getViewablePath_options_witness :
  Some LoadOptions.empty = Some LoadOptions.empty
  \/ (type_is sampleInnerGeometry "geometry" = true /\
      role_is sampleInnerGeometry "2d" = true /\
      exists leaflet rest o o',
        getSubItemsWithProperties (Some sampleInnerGeometry)
          [("role", PStr "leaflet")] false = leaflet :: rest
        /\ Some LoadOptions.empty = Some o
        /\ getLeafletParams browser o sampleInnerGeometry leaflet = Ok o'
        /\ Some LoadOptions.empty = Some o').
Proof.
  apply (getViewablePath_options browser 1 sampleDoc sampleInnerGeometry
           (Some LoadOptions.empty) (Some LoadOptions.empty) (Some "")).
  reflexivity.
Defined.

Lemma hasProperties_mime c m :
  hasProperties c [("mime", PStr m)] = mime_is c m.
Proof.
  unfold hasProperties, entry_matches, node_get, mime_is. simpl.
  destruct (mime (fields c)) as [s|]; simpl; [|reflexivity].
  by rewrite andb_true_r, String.eqb_sym.
Qed.

(** X8.  For a geometry item of role 2d without a child of role leaflet,
    [getViewablePath] returns the full path of the first child of mime
    'application/autodesk-f2d'; without such a child, that of the first
    item of role tileRoot in the pre-order of its proper subtree; and the
    empty string when there is none.  The load options stay as they
    are. *)
Theorem getViewablePath_2d_fallback (host : Host) (doc : Document) (item : node)
    (cs : list node) (out : option LoadOptions.t) (fuel : nat) :
  type_is item "geometry" = true ->
  role_is item "2d" = true ->
  children item = Some cs ->
  List.filter (fun c => role_is c "leaflet") cs = [] ->
  (forall f2d rest,
     List.filter (fun c => mime_is c "application/autodesk-f2d") cs = f2d :: rest ->
     getViewablePath host (S fuel) doc item out =
       Some (path ← getFullPath host doc (urn (fields f2d)); Ok (path, out)))
  /\ (forall tile rest,
        List.filter (fun c => mime_is c "application/autodesk-f2d") cs = [] ->
        List.filter (fun c => role_is c "tileRoot") (descendants item) = tile :: rest ->
        getViewablePath host (S fuel) doc item out =
          Some (path ← getFullPath host doc (urn (fields tile)); Ok (path, out)))
  /\ (List.filter (fun c => mime_is c "application/autodesk-f2d") cs = [] ->
      List.filter (fun c => role_is c "tileRoot") (descendants item) = [] ->
      getViewablePath host (S fuel) doc item out = Some (Ok (Some "", out))).
Proof.
  intros Htype Hrole Hcs Hleaf.
  assert (getSubItemsWithProperties (Some item) [("role", PStr "leaflet")] false = [])
    as Hnoleaf.
  { rewrite getSubItems_direct, Hcs. cbn [default]. rewrite <- Hleaf.
    apply filter_ext. intros c. apply hasProperties_role. }
  assert (getSubItemsWithProperties (Some item)
            [("mime", PStr "application/autodesk-f2d")] false =
          List.filter (fun c => mime_is c "application/autodesk-f2d") cs) as Hf2d.
  { rewrite getSubItems_direct, Hcs. cbn [default].
    apply filter_ext. intros c. apply hasProperties_mime. }
  assert (getSubItemsWithProperties (Some item) [("role", PStr "tileRoot")] true =
          List.filter (fun c => role_is c "tileRoot") (descendants item)) as Htile.
  { rewrite getSubItems_recursive_filter.
    apply filter_ext. intros c. apply hasProperties_role. }
  assert (getViewablePath host (S fuel) doc item out =
          Some (firstItemPath host doc
                  (match List.filter (fun c => mime_is c "application/autodesk-f2d") cs with
                   | [] => List.filter (fun c => role_is c "tileRoot") (descendants item)
                   | items => items
                   end) out)) as ->.
  { cbn [getViewablePath]. rewrite Htype. unfold geometryViewablePath.
    apply role_is_eq in Hrole. unfold role_is at 1 2. rewrite Hrole.
    change (String.eqb "2d" "3d") with false. change (String.eqb "2d" "2d") with true.
    cbv iota. rewrite Hnoleaf. cbn [mbind Result_bind length Nat.eqb].
    rewrite Hf2d, Htile.
    by destruct (List.filter (fun c => mime_is c "application/autodesk-f2d") cs). }
  split_and!.
  - intros f2d rest ->. reflexivity.
  - intros tile rest -> ->. reflexivity.
  - intros -> ->. reflexivity.
Qed.

Lemma getViewablePath_2d_fallback_witness :
  getViewablePath browser 1 sampleDoc
    (Node (plainFields (Some "geometry") (Some "2d") None (Some "G3") None)
       (Some [sampleF2d])) None =
  Some (path ← getFullPath browser sampleDoc (urn (fields sampleF2d)); Ok (path, None)).
Proof.
  refine (proj1 (getViewablePath_2d_fallback browser sampleDoc
                   (Node (plainFields (Some "geometry") (Some "2d") None (Some "G3") None)
                      (Some [sampleF2d]))
                   [sampleF2d] None 0 _ _ _ _) sampleF2d [] _); reflexivity.
Defined.

(** ** Messages along the parent chain *)

Lemma collectMessages_all host tree root above acc :
  collectMessages host tree false root above acc = Ok (acc ++ chainMessages tree above).
Proof.
  revert acc. induction above as [|i above IH]; intros acc;
    cbn [collectMessages chainMessages mbind Result_bind].
  - by rewrite app_nil_r.
  - rewrite IH. by rewrite app_assoc.
Qed.

Lemma ancestorRefs_snoc (q : ItemRef) (i : nat) :
  ancestorRefs (q ++ [i]) = (q ++ [i]) :: ancestorRefs q.
Proof.
  unfold ancestorRefs. rewrite length_app. cbn [length].
  replace (S (length q + 1)) with (S (length q) + 1) by lia.
  rewrite seq_app, rev_app_distr.
  change (rev (seq (0 + S (length q)) 1)) with [S (length q)].
  change ([S (length q)] ++ rev (seq 0 (S (length q))))
    with (S (length q) :: rev (seq 0 (S (length q)))).
  rewrite map_cons. f_equal.
  - apply firstn_all2. rewrite length_app. cbn. lia.
  - apply map_ext_in. intros k Hk%in_rev%in_seq.
    apply take_app_le. lia.
Qed.

Lemma chainMessages_ancestors tree (p : ItemRef) :
  chainMessages tree (rev p) = flat_map (messagesAt tree) (ancestorRefs p).
Proof.
  induction p as [|i q IH] using rev_ind; [by cbn; rewrite app_nil_r|].
  rewrite rev_unit, ancestorRefs_snoc. cbn [chainMessages flat_map].
  rewrite <- IH. f_equal. unfold messagesAt.
  change (i :: rev q) with ([i] ++ rev q). by rewrite rev_app_distr, rev_involutive.
Qed.

(** X9.  Without [excludeGlobal], in any host, [getMessages(item)] for an
    item of the manifest returns the messages of the item followed by
    those of each of its ancestors in turn, the root's last. *)
Theorem getMessages_ancestors (host : Host) (tree : node) (path : string)
    (acm : option string) (p : ItemRef) :
  is_Some (node_at tree p) ->
  getMessages host (Document_new host (Some tree) path acm) (Some p) false =
  Ok (flat_map (messagesAt tree) (ancestorRefs p)).
Proof.
  intros _. unfold getMessages, Document_new. cbn [myData].
  rewrite collectMessages_all. cbn [app]. f_equal. apply chainMessages_ancestors.
Qed.

Lemma getMessages_ancestors_witness :
  getMessages worker (Document_new worker (Some sampleMessageTree) "doc" None)
    (Some [0]) false =
  Ok [sheetMessage; rootMessage].
Proof.
  refine (eq_trans (getMessages_ancestors worker sampleMessageTree "doc" None [0] _) _).
  - by eexists.
  - reflexivity.
Defined.

(** ** The messages of a whole manifest *)

Lemma traverseMessages_unfold f ch t :
  traverseMessages (Node f ch) t =
  let t' :=
    {| collectedmessages := collectedmessages t ++ messagesOf (Node f ch);
       translateFailedCount :=
         translateFailedCount t +
         (if Nat.ltb 0 (length (List.filter is_error (messagesOf (Node f ch))))
          then 1 else 0);
       translateProgressCount :=
         translateProgressCount t + (if in_progress (Node f ch) then 1 else 0) |} in
  match ch with
  | None => t'
  | Some cs => backwardsMessages cs t'
  end.
Proof. reflexivity. Qed.

Lemma mirrorOrder_unfold f cs :
  mirrorOrder (Node f (Some cs)) = Node f (Some cs) :: flat_map mirrorOrder (rev cs).
Proof.
  cbn [mirrorOrder]. f_equal. induction cs as [|c cs IH]; [reflexivity|].
  cbn [rev]. rewrite flat_map_app, <- IH. cbn [flat_map]. by rewrite app_nil_r.
Qed.

Lemma mirrorOrder_preorder (n : node) : mirrorOrder n ≡ₚ preorder n.
Proof.
  induction n as [f|f cs IH] using node_ind; [reflexivity|].
  rewrite mirrorOrder_unfold, preorder_unfold. constructor.
  induction IH as [|c cs Hc _ IHcs]; [reflexivity|].
  cbn [rev flat_map]. rewrite flat_map_app. cbn [flat_map].
  rewrite app_nil_r, IHcs, Hc. apply Permutation_app_comm.
Qed.

Lemma tallyOf_app l1 l2 t : tallyOf (l1 ++ l2) t = tallyOf l2 (tallyOf l1 t).
Proof.
  unfold tallyOf. cbn. rewrite flat_map_app, !List.filter_app, !length_app.
  f_equal; [by rewrite app_assoc | lia | lia].
Qed.

Lemma has_error_filter (msgs : list Message) :
  Nat.ltb 0 (length (List.filter is_error msgs)) = existsb is_error msgs.
Proof.
  induction msgs as [|m msgs IH]; [reflexivity|].
  cbn [List.filter existsb]. destruct (is_error m); [reflexivity | exact IH].
Qed.

Lemma traverseMessages_tally (n : node) :
  forall t, traverseMessages n t = tallyOf (mirrorOrder n) t.
Proof.
  induction n as [f|f cs IH] using node_ind; intros t; rewrite traverseMessages_unfold;
    cbn zeta; rewrite has_error_filter.
  - unfold tallyOf. cbn [mirrorOrder flat_map List.filter].
    rewrite app_nil_r.
    destruct (existsb is_error _), (in_progress _); cbn [length]; f_equal; lia.
  - rewrite mirrorOrder_unfold.
    change (Node f (Some cs) :: flat_map mirrorOrder (rev cs))
      with ([Node f (Some cs)] ++ flat_map mirrorOrder (rev cs)).
    rewrite tallyOf_app.
    assert (tallyOf [Node f (Some cs)] t =
            {| collectedmessages := collectedmessages t ++ messagesOf (Node f (Some cs));
               translateFailedCount :=
                 translateFailedCount t +
                 (if existsb is_error (messagesOf (Node f (Some cs))) then 1 else 0);
               translateProgressCount :=
                 translateProgressCount t +
                 (if in_progress (Node f (Some cs)) then 1 else 0) |}) as <-.
    { unfold tallyOf. cbn [flat_map List.filter]. rewrite app_nil_r.
      destruct (existsb is_error _), (in_progress _); cbn [length]; f_equal; lia. }
    generalize (tallyOf [Node f (Some cs)] t). clear t.
    induction IH as [|c cs Hc _ IHcs]; intros t.
    + unfold tallyOf. cbn. rewrite app_nil_r, !Nat.add_0_r. by destruct t.
    + cbn [backwardsMessages rev]. rewrite flat_map_app, tallyOf_app, <- IHcs.
      cbn [flat_map]. rewrite app_nil_r. apply Hc.
Qed.

Lemma length_filter_existsb {A} (f : A -> bool) (l : list A) :
  Nat.ltb 0 (length (List.filter f l)) = existsb f l.
Proof.
  induction l as [|a l IH]; [reflexivity|].
  cbn [List.filter existsb]. destruct (f a); [reflexivity | exact IH].
Qed.

Lemma existsb_Permutation {A} (f : A -> bool) (l1 l2 : list A) :
  l1 ≡ₚ l2 -> existsb f l1 = existsb f l2.
Proof.
  induction 1 as [|x l1 l2 _ IH|x y l|l1 l2 l3 _ IH1 _ IH2]; cbn [existsb].
  - reflexivity.
  - by rewrite IH.
  - destruct (f x), (f y); reflexivity.
  - by rewrite IH1.
Qed.

(** X10.  [getGlobalMessages] marks every message it returns with the same
    progress: 'processing' when some item of the manifest has the status
    'inprogress'; otherwise 'failed' when some item has a message of type
    'error'; otherwise 'translated'. *)
Theorem getGlobalMessages_progress (data : node) :
  let progress :=
    if existsb in_progress (preorder data) then "processing"
    else if existsb (fun n => existsb is_error (messagesOf n)) (preorder data)
         then "failed"
         else "translated" in
  map snd (getGlobalMessages data) = map (fun _ => progress) (getGlobalMessages data).
Proof.
  intros progress. unfold getGlobalMessages. rewrite !map_map. cbn [snd].
  apply map_ext. intros _. rewrite traverseMessages_tally.
  unfold translationProgress, tallyOf, emptyTally.
  cbn [translateFailedCount translateProgressCount Nat.add].
  rewrite !length_filter_existsb.
  unfold progress.
  rewrite !(existsb_Permutation _ _ _ (mirrorOrder_preorder data)).
  reflexivity.
Qed.

(** X11.  [getGlobalMessages] returns every message of every item of the
    manifest once: the items are taken parent first and siblings from the
    last to the first, each with its messages in their order. *)
Theorem getGlobalMessages_collects (data : node) :
  map fst (getGlobalMessages data) = flat_map messagesOf (mirrorOrder data)
  /\ mirrorOrder data ≡ₚ preorder data
  /\ map fst (getGlobalMessages data) ≡ₚ flat_map messagesOf (preorder data).
Proof.
  assert (map fst (getGlobalMessages data) = flat_map messagesOf (mirrorOrder data)) as Heq.
  { unfold getGlobalMessages. rewrite map_map. cbn [fst]. rewrite map_id.
    by rewrite traverseMessages_tally. }
  split_and!; [exact Heq | apply mirrorOrder_preorder |].
  rewrite Heq. clear Heq. pose proof (mirrorOrder_preorder data) as Hperm.
  induction Hperm as [|x l1 l2 _ IH|x y l|l1 l2 l3 _ IH1 _ IH2]; cbn [flat_map].
  - reflexivity.
  - apply Permutation_app_head, IH.
  - rewrite !app_assoc. apply Permutation_app_tail, Permutation_app_comm.
  - etrans; eassumption.
Qed.

(** ** Loading a document *)

Lemma subItems_descendants flt n :
  subItemsWithProperties flt true n =
  List.filter (fun c => hasProperties c flt) (descendants n).
Proof.
  destruct n as [f [cs|]]; [|reflexivity].
  rewrite subItems_unfold. unfold descendants. cbn [children default id].
  induction cs as [|c cs IH]; [reflexivity|].
  cbn [flat_map]. rewrite List.filter_app, <- IH. f_equal. apply subItems_preorder.
Qed.

Lemma hasProperties_type_role c t r :
  hasProperties c [("type", PStr t); ("role", PStr r)] = type_is c t && role_is c r.
Proof.
  unfold hasProperties, entry_matches, node_get, type_is, role_is.
  simpl. destruct (type (fields c)) as [s|], (role (fields c)) as [q|]; simpl;
    rewrite ?andb_true_r, ?andb_false_r; try reflexivity.
  by rewrite (String.eqb_sym t), (String.eqb_sym r).
Qed.

Lemma hasProperties_viewable_folder c :
  hasProperties c [("type", PStr "folder"); ("role", PStr "viewable")] =
  is_viewable_folder c.
Proof. apply hasProperties_type_role. Qed.

Lemma hasProperties_type c t :
  hasProperties c [("type", PStr t)] = type_is c t.
Proof.
  unfold hasProperties, entry_matches, node_get, type_is. simpl.
  destruct (type (fields c)) as [s|]; simpl; [|reflexivity].
  by rewrite andb_true_r, String.eqb_sym.
Qed.

(** X12.  [getViewableCount] counts the items of type geometry in the
    proper subtree of the first folder of role viewable, in the pre-order
    of the manifest: geometry items elsewhere, under a later viewable
    folder or in the root's own place, are not counted, and the count is 0
    when the manifest has no viewable folder below its root. *)
Theorem getViewableCount_first_folder (host : Host) (tree : node) (path : string)
    (acm : option string) :
  getViewableCount (Document_new host (Some tree) path acm) =
  match List.filter is_viewable_folder (descendants tree) with
  | [] => 0
  | folder :: _ =>
      length (List.filter (fun c => type_is c "geometry") (descendants folder))
  end.
Proof.
  unfold getViewableCount, getRootItem, Document_new. cbn [myData].
  cbn [getSubItemsWithProperties]. rewrite subItems_descendants.
  rewrite (filter_ext _ _ hasProperties_viewable_folder).
  destruct (List.filter is_viewable_folder (descendants tree)) as [|folder rest];
    [reflexivity|].
  cbn [head getSubItemsWithProperties]. rewrite subItems_descendants.
  by rewrite (filter_ext _ _ (fun c => hasProperties_type c "geometry")).
Qed.

Lemma occurs_found (pat s : string) (k : nat) :
  occurs_at pat s k ->
  negb (JsString.index_number (JsString.indexOf pat s) =? -1)%Z = true.
Proof.
  intros Hocc. rewrite indexOf_is_found.
  destruct (JsString.indexOf pat s) eqn:Hi; [reflexivity|].
  by destruct (JsStringFacts.indexOf_None _ _ Hi k).
Qed.

(** X13.  In a browser whose [location.protocol] ends with a colon,
    [getDocumentPath] is idempotent: the path it builds for a relative
    document id is an absolute URL or a urn, which it returns as it is.
    Outside a browser it returns every id as it is. *)
Theorem getDocumentPath_idempotent (window : option Location) (documentId : string) :
  (forall location, window = Some location ->
                    exists scheme, protocol location = scheme +:+ ":") ->
  getDocumentPath window (getDocumentPath window documentId) =
    getDocumentPath window documentId
  /\ getDocumentPath None documentId = documentId.
Proof.
  intros Hcolon. split.
  - remember (getDocumentPath window documentId) as built eqn:Hbuilt.
    unfold getDocumentPath in Hbuilt.
    destruct (JsString.index_number (JsString.indexOf "urn:" documentId) =? -1)%Z eqn:Hurn.
    + destruct (negb (JsString.index_number (JsString.indexOf "://" documentId) =? -1)%Z)
        eqn:Habs.
      * subst built. unfold getDocumentPath. by rewrite Hurn, Habs.
      * destruct window as [location|].
        -- destruct (Hcolon location eq_refl) as [scheme Hscheme].
           unfold getDocumentPath.
           destruct (JsString.index_number (JsString.indexOf "urn:" built) =? -1)%Z;
             [|reflexivity].
           rewrite (occurs_found "://" built (String.length scheme)); [reflexivity|].
           rewrite Hbuilt, Hscheme.
           eexists scheme, _. split; [|reflexivity].
           rewrite JsStringFacts.app_assoc. reflexivity.
        -- subst built. unfold getDocumentPath. by rewrite Hurn, Habs.
    + subst built. unfold getDocumentPath. by rewrite Hurn.
  - unfold getDocumentPath. by repeat case_match.
Qed.

Lemma getDocumentPath_idempotent_witness :
  getDocumentPath (Some {| protocol := "https:"; location_host := "example.org" |})
    (getDocumentPath (Some {| protocol := "https:"; location_host := "example.org" |})
       "models/house.svf") =
    "https://example.org/models/house.svf".
Proof.
  refine (eq_trans
    (proj1 (getDocumentPath_idempotent
       (Some {| protocol := "https:"; location_host := "example.org" |})
       "models/house.svf" _)) _).
  - intros location [= <-]. by exists "https".
  - reflexivity.
Defined.

(** ** The transform cache *)

(** X14.  [getPageToModelTransform] memoizes: a call that returns leaves a
    state in which a second call for the same viewport returns the same
    matrix and changes nothing more, whatever the matrix operations.  The
    call changes no cache entry of another viewport, keeps an entry the
    viewport already had, and leaves the override and the clips as they
    were. *)
Theorem getPageToModelTransform_memo (ops : Matrix4.Ops) (st st' : Model.State)
    (vpId : nat) (m : Matrix4.t) :
  Model.getPageToModelTransform ops st vpId = Ok (m, st') ->
  (forall ops', Model.getPageToModelTransform ops' st' vpId = Ok (m, st'))
  /\ (forall j, j <> vpId -> cachedTransforms st' !! j = cachedTransforms st !! j)
  /\ (forall c, cachedTransforms st !! vpId = Some c ->
                cachedTransforms st' !! vpId = Some c)
  /\ Model.pageToModelTransform (Model.myData st') =
       Model.pageToModelTransform (Model.myData st)
  /\ Model.clips (Model.myData st') = Model.clips (Model.myData st).
Proof.
  destruct st as [s data]. unfold Model.getPageToModelTransform, cachedTransforms.
  cbn [Model.myData Model.store].
  destruct (Model.pageToModelTransform data) as [over|] eqn:Hover.
  { intros [= <- <-]. cbn [Model.myData Model.store]. rewrite Hover. by split_and!. }
  destruct (Model.metadata data) as [md|] eqn:Hmd; [|discriminate].
  destruct (Model.viewports data) as [vps|] eqn:Hvps; [|discriminate].
  destruct (vps !! vpId) as [[vp|]|] eqn:Hvp.
  2,3: intros [= <- <-]; cbn [Model.myData Model.store];
       rewrite Hover, Hmd, Hvps, Hvp; by split_and!.
  destruct (default ∅ (Model.viewportTransforms data) !! vpId) as [cached|] eqn:Hcache.
  { intros [= <- <-]. cbn [Model.myData Model.store Model.set_viewportTransforms
      Model.pageToModelTransform Model.metadata Model.viewports
      Model.viewportTransforms Model.clips].
    change (default ∅ (Some ?x)) with x.
    rewrite Hover, Hmd, Hvps, Hvp, Hcache. by split_and!. }
  destruct (Model.page_dimensions md) as [pd|]; [|discriminate].
  destruct (Model.slice (Model.transform vp) s) as [[copy s1]|]; [|discriminate].
  destruct (Matrix4.elements_set _) as [modelToLogical|]; [|discriminate].
  cbn [mbind Result_bind]. intros [= <- <-].
  cbn [Model.myData Model.store Model.set_viewportTransforms
    Model.pageToModelTransform Model.metadata Model.viewports
    Model.viewportTransforms Model.clips].
  change (default ∅ (Some ?x)) with x.
  rewrite Hover, Hmd, Hvps, Hvp, lookup_insert_eq. split_and!; try done.
  intros j Hj. by rewrite lookup_insert_ne.
Qed.

Lemma getPageToModelTransform_memo_witness :
  exists m st',
    Model.getPageToModelTransform sampleOps (sampleState scaledTransform) 1 = Ok (m, st')
    /\ Model.getPageToModelTransform sampleOps st' 1 = Ok (m, st').
Proof.
  eexists _, _. split; [vm_compute; reflexivity|].
  apply (getPageToModelTransform_memo sampleOps (sampleState scaledTransform) _ 1 _).
  vm_compute. reflexivity.
Defined.

(** ** The repair of a viewport matrix *)

(** X15.  On a 16-entry array the repair moves whole rows only, and only
    among the first three: the first three rows after the repair are a
    permutation of the first three rows before it, and the last row and
    the length stay.  An array whose entries 0 and 5 both have magnitude
    at least [1e-3] is left as it is, whatever its length. *)
Theorem repairedElements_rows (e : list float) :
  length e = 16 ->
  upperRows (Model.repairedElements e) ≡ₚ upperRows e
  /\ lastRow (Model.repairedElements e) = lastRow e
  /\ length (Model.repairedElements e) = 16
  /\ (PrimFloat.ltb (PrimFloat.abs (Model.array_get e 0)) JsNumber.precision = false ->
      PrimFloat.ltb (PrimFloat.abs (Model.array_get e 5)) JsNumber.precision = false ->
      Model.repairedElements e = e).
Proof.
  intros Hlen. split_and!.
  - sixteen e Hlen. unfold Model.repairedElements. cbn.
    repeat match goal with |- context [if ?b then _ else _] => destruct b end;
      cbn; unfold upperRows; cbn [take drop].
    all: first [ reflexivity
               | apply perm_swap
               | by rewrite perm_swap; apply perm_skip, perm_swap
               | by etrans; [apply perm_swap|]; apply perm_skip, perm_swap
               | apply perm_skip, perm_swap
               | symmetry; apply (Permutation_cons_append [_; _] _)
               | apply (Permutation_cons_append [_; _] _)
               | symmetry; apply (Permutation_rev [_; _; _]) ].
  - sixteen e Hlen. unfold Model.repairedElements. cbn.
    repeat match goal with |- context [if ?b then _ else _] => destruct b end;
      reflexivity.
  - by apply repairedElements_length.
  - intros H0 H5. unfold Model.repairedElements. by rewrite H0, H5.
Qed.

Lemma repairedElements_rows_witness :
  upperRows (Model.repairedElements (swapRows01 scaledTransform))
  ≡ₚ upperRows (swapRows01 scaledTransform).
Proof.
  apply (repairedElements_rows (swapRows01 scaledTransform)). reflexivity.
Defined.

(** ** The polygon test *)

(** X16.  [pointInPolygon] returns for contours that each have a vertex
    and name only points that are there, and otherwise throws a
    TypeError; when it returns, the point is inside exactly when an odd
    number of the contours contain it.  The order of the contours makes
    no difference to the outcome. *)
Theorem pointInPolygon_parity (px py : float) (contours : list (list nat))
    (pts : list Model.Point) :
  Model.pointInPolygon px py contours pts =
    (if forallb (contour_ok pts) contours
     then Ok (Nat.odd (length (List.filter (in_contour px py pts) contours)))
     else Throw TypeError)
  /\ (forall contours',
        contours ≡ₚ contours' ->
        Model.pointInPolygon px py contours' pts =
        Model.pointInPolygon px py contours pts).
Proof.
  unfold Model.pointInPolygon. split; [by rewrite polygonLoop_parity|].
  intros contours' Hperm. rewrite !polygonLoop_parity.
  assert (forallb (contour_ok pts) contours' = forallb (contour_ok pts) contours) as ->.
  { clear -Hperm. induction Hperm as [|c l1 l2 _ IH|c d l|l1 l2 l3 _ IH1 _ IH2];
      cbn [forallb]; [done | by rewrite IH | | by rewrite IH2, IH1].
    by destruct (contour_ok pts c), (contour_ok pts d). }
  assert (length (List.filter (in_contour px py pts) contours') =
          length (List.filter (in_contour px py pts) contours)) as ->; [|done].
  clear -Hperm. induction Hperm as [|c l1 l2 _ IH|c d l|l1 l2 l3 _ IH1 _ IH2];
    cbn [List.filter]; [done | | | by rewrite IH2, IH1].
  - destruct (in_contour px py pts c); cbn [length]; by rewrite IH.
  - by destruct (in_contour px py pts c), (in_contour px py pts d).
Qed.

Lemma contourLoop_one_side px py pts cntr vtx0 side :
  forallb (fun j => Nat.ltb j (length pts)) cntr = true ->
  (forall j vtx, j ∈ cntr -> pts !! j = Some vtx -> Model.geb (Model.y vtx) py = side) ->
  Model.contourLoop px py pts cntr vtx0 side false = Ok false.
Proof.
  revert vtx0. induction cntr as [|j cntr IH]; intros vtx0 Hall Hside;
    cbn [Model.contourLoop]; [reflexivity|].
  cbn [forallb] in Hall. apply andb_prop in Hall as [Hj%Nat.ltb_lt Hall].
  destruct (lookup_lt_is_Some_2 pts j Hj) as [vtx1 Hvtx1]. rewrite Hvtx1.
  unfold Model.contourStep. rewrite (Hside j vtx1); [|left|done].
  rewrite eqb_reflx. cbn [negb]. apply IH; [done|].
  intros k vtx Hk. apply Hside. by right.
Qed.

(** X17.  A contour whose vertices are all on one side of the horizontal
    line through the point (all with [y >= py], or none) does not contain
    the point: [pointInContour] returns [false], whatever the x
    coordinates. *)
Theorem pointInContour_one_side (px py : float) (cntr : list nat)
    (pts : list Model.Point) (side : bool) :
  contour_ok pts cntr = true ->
  (forall j vtx, j ∈ cntr -> pts !! j = Some vtx -> Model.geb (Model.y vtx) py = side) ->
  Model.pointInContour px py cntr pts = Ok false.
Proof.
  unfold contour_ok, Model.pointInContour. intros [Hne Hall]%andb_prop Hside.
  destruct (last cntr) as [l|] eqn:Hlast;
    [|apply last_None in Hlast as ->; discriminate].
  assert (l ∈ cntr) as Hl.
  { apply last_Some in Hlast as [cntr' ->]. apply elem_of_app. right. by left. }
  assert (l < length pts) as Hlt.
  { rewrite forallb_forall in Hall. apply Nat.ltb_lt, Hall. by apply list_elem_of_In. }
  destruct (lookup_lt_is_Some_2 pts l Hlt) as [vtx0 Hvtx0]. rewrite Hvtx0.
  rewrite (Hside l vtx0 Hl Hvtx0). by apply contourLoop_one_side.
Qed.

Lemma pointInContour_one_side_witness :
  Model.pointInContour 0.5 5 [0; 1; 2; 3] (Model.decodeClip unitSquare).2 = Ok false.
Proof.
  apply (pointInContour_one_side 0.5 5 [0; 1; 2; 3] (Model.decodeClip unitSquare).2 false).
  - reflexivity.
  - intros j vtx Hj. repeat (apply elem_of_cons in Hj as [->|Hj]);
      [| | | | by apply elem_of_nil in Hj]; intros [= <-]; reflexivity.
Defined.

(** ** Decoding a clip *)

Lemma reorganizeContours_concat (counts : list nat) (index : nat) :
  concat (Model.reorganizeContours counts index) = seq index (sum_list counts)
  /\ map length (Model.reorganizeContours counts index) = counts.
Proof.
  revert index. induction counts as [|count counts IH]; intros index;
    cbn [Model.reorganizeContours concat map sum_list sum_list_with]; [done|].
  destruct (IH (index + count)) as [-> ->]. split.
  - by rewrite seq_app.
  - by rewrite length_seq.
Qed.

Lemma reorganizePoints_pairs (n : nat) :
  forall points : list float,
    length points <= n ->
    length (Model.reorganizePoints points) = Nat.div2 (S (length points))
    /\ (Nat.even (length points) = true ->
        coordinates (Model.reorganizePoints points) = points).
Proof.
  induction n as [|n IH]; intros [|px [|py rest]] Hlen; cbn [length] in *;
    try lia; cbn [Model.reorganizePoints]; try done.
  destruct (IH rest) as [Hl Hc]; [lia|]. split.
  - cbn [length]. rewrite Hl. reflexivity.
  - intros Heven. unfold coordinates in *. cbn [flat_map Model.x Model.y app].
    rewrite Hc; [done|]. exact Heven.
Qed.

(** X18.  [getClip] returns for a viewport id whose clip entry is there
    and throws a TypeError otherwise.  The contours it returns number
    the points from 0 on without a gap, contour after contour, each
    contour as long as its count says; there is one point for every two
    coordinates, rounded up, and for an even number of coordinates the
    points hold them all in order. *)
Theorem getClip_decodes (data : Model.F2D) (vpId : nat) :
  match Model.getClip data vpId with
  | Ok (contours, pts) =>
      exists clip,
        Model.clips data ≫= (fun cs => cs !! vpId) = Some (Some clip)
        /\ concat contours = seq 0 (sum_list (Model.contourCounts clip))
        /\ map length contours = Model.contourCounts clip
        /\ length pts = Nat.div2 (S (length (Model.points clip)))
        /\ (Nat.even (length (Model.points clip)) = true ->
            coordinates pts = Model.points clip)
  | Throw e =>
      e = TypeError
      /\ forall clip, Model.clips data ≫= (fun cs => cs !! vpId) <> Some (Some clip)
  end.
Proof.
  unfold Model.getClip. destruct (Model.clips data) as [cs|]; cbn [mbind option_bind];
    [|done].
  destruct (cs !! vpId) as [[clip|]|]; [|done..].
  unfold Model.decodeClip. exists clip. split; [done|].
  destruct (reorganizeContours_concat (Model.contourCounts clip) 0) as [Hc Hl].
  destruct (reorganizePoints_pairs _ (Model.points clip) (le_n _)) as [Hn Hp].
  done.
Qed.

(** ** Clips around a point *)

(** X19.  [pointInClip] returns exactly when the clips are there and every
    entry from index 1 on, other than the one of the viewport asked
    about, is a clip whose contours each have a vertex and name only
    points that are there; otherwise it throws a TypeError.  The entries
    at index 0 and at the viewport's own index are never read: they may
    be null. *)
Theorem pointInClip_returns (data : Model.F2D) (point : Model.Point) (vpId : nat) :
  match Model.pointInClip data point vpId with
  | Ok _ =>
      exists cs, Model.clips data = Some cs
                 /\ forall i, 1 <= i < length cs -> i <> vpId -> entry_ok (cs !! i) = true
  | Throw e =>
      e = TypeError
      /\ (Model.clips data = None
          \/ exists cs i, Model.clips data = Some cs
                          /\ 1 <= i < length cs /\ i <> vpId
                          /\ entry_ok (cs !! i) = false)
  end.
Proof.
  unfold Model.pointInClip. destruct (Model.clips data) as [cs|]; [|by split; [|left]].
  pose proof (clipLoop_result cs point vpId (length cs - 1) 1 [] eq_refl) as Hloop.
  destruct (forallb _ _) eqn:Hall.
  - destruct Hloop as [ids ->]. exists cs. split; [done|].
    intros i Hi Hne. rewrite forallb_forall in Hall.
    specialize (Hall i). rewrite in_seq in Hall.
    destruct (Nat.eqb_spec i vpId); [done|]. apply Hall. lia.
  - rewrite Hloop. split; [done|]. right.
    apply forallb_fails in Hall as (i & Hin%in_seq & Hi). exists cs, i.
    split; [done|]. destruct (Nat.eqb_spec i vpId); [done|].
    cbn [orb] in Hi. split_and!; try done; lia.
Qed.

(** ** Units *)

Lemma scaleSwitch_unitSwitch (unit : option string) :
  ModelInfo.scaleSwitch unit = metersPer (ModelInfo.unitSwitch unit).
Proof.
  destruct unit as [u|]; [|reflexivity]. unfold ModelInfo.scaleSwitch, ModelInfo.unitSwitch.
  repeat match goal with
         | |- context [if ?b then _ else _] => destruct b
         end; reflexivity.
Qed.

(** X20.  For a 2-D model, and for a 3-D model without overridden units,
    [getUnitScale] is the length in meters of the unit [getUnitString]
    returns, 1 when that unit is null; the two throw on the same data. *)
Theorem getUnitScale_of_unit (myData : option ModelInfo.Data) :
  ModelInfo.is2dModel myData = true \/ ModelInfo.overridden myData = None ->
  ModelInfo.getUnitScale myData =
    (unit ← ModelInfo.getUnitString myData; Ok (metersPer unit)).
Proof.
  intros Hplain. unfold ModelInfo.getUnitScale, ModelInfo.getUnitString.
  assert ((if negb (ModelInfo.is2dModel myData)
           then match ModelInfo.overridden myData with
                | Some u => Ok (ModelInfo.TheSubitem (JPrim (PStr u)))
                | None => ModelInfo.getMetadata myData "distance unit" (Some "value")
                end
           else ModelInfo.getMetadata myData "page_dimensions" (Some "page_units")) =
          (if negb (ModelInfo.is2dModel myData)
           then ModelInfo.getMetadata myData "distance unit" (Some "value")
           else ModelInfo.getMetadata myData "page_dimensions" (Some "page_units"))) as ->.
  { destruct Hplain as [-> | ->]; reflexivity. }
  destruct (if negb _ then _ else _) as [unit|e]; [|reflexivity].
  cbn [mbind Result_bind]. destruct (ModelInfo.lowered unit) as [u|e]; [|reflexivity].
  cbn [mbind Result_bind]. by rewrite scaleSwitch_unitSwitch.
Qed.

(** ** Filtering a viewer state *)

Lemma json_size_lookup array (m : gmap string ViewerState.json) k v :
  m !! k = Some v -> json_size v < json_size (ViewerState.JObj array m).
Proof.
  intros H. cbn [json_size].
  rewrite <- (insert_delete_id m k v H).
  rewrite map_fold_insert_L.
  - lia.
  - intros. lia.
  - apply lookup_delete_eq.
Qed.

Lemma json_ind (P : ViewerState.json -> Prop) :
  P ViewerState.JNull ->
  (forall b, P (ViewerState.JBool b)) ->
  (forall x, P (ViewerState.JNumber x)) ->
  (forall s, P (ViewerState.JString s)) ->
  (forall array m, map_Forall (fun _ v => P v) m -> P (ViewerState.JObj array m)) ->
  forall v, P v.
Proof.
  intros Hnull Hbool Hnumber Hstring Hobj v.
  remember (json_size v) as n eqn:Hn. revert v Hn.
  induction n as [n IH] using lt_wf_ind. intros [] Hn; auto.
  apply Hobj. intros k v Hk. eapply IH; [|reflexivity]. subst n.
  by eapply json_size_lookup.
Qed.

Lemma filtered_object array state fa f :
  ViewerState.filtered (ViewerState.JObj array state) fa f =
  match state !! "hasOwnProperty" with
  | Some _ => ViewerState.Raised TypeError
  | None =>
      ViewerState.loopOutcome array (map_imap (fun key value => Some (keyOutcome fa f key value)) state)
  end.
Proof. reflexivity. Qed.

Lemma outcomes_none (P : ViewerState.KeyOutcome -> bool)
    (outcomes : gmap string ViewerState.KeyOutcome) :
  existsb (fun kv => P kv.2) (map_to_list outcomes) = false <->
  forall k o, outcomes !! k = Some o -> P o = false.
Proof.
  split.
  - intros Hnone k o Hk. apply not_true_iff_false. intros Ho.
    apply not_true_iff_false in Hnone. apply Hnone, existsb_exists.
    exists (k, o). split; [|done]. by apply list_elem_of_In, elem_of_map_to_list.
  - intros Hall. apply not_true_iff_false. intros [[k o] [Hin Ho]]%existsb_exists.
    apply list_elem_of_In, elem_of_map_to_list in Hin. cbn [snd] in Ho.
    rewrite (Hall k o Hin) in Ho. discriminate.
Qed.

Lemma loopOutcome_filtered array outcomes v :
  ViewerState.loopOutcome array outcomes = ViewerState.Filtered v <->
  (forall k o, outcomes !! k = Some o -> o <> ViewerState.Open /\ o <> ViewerState.Failed)
  /\ v = ViewerState.JObj array (omap ViewerState.kept_value outcomes).
Proof.
  unfold ViewerState.loopOutcome. split.
  - destruct (existsb _ _) eqn:Hopen; [discriminate|].
    destruct (existsb (fun kv => ViewerState.is_failed kv.2) _) eqn:Hfailed; [discriminate|].
    intros [= <-]. split; [|done]. intros k o Hk.
    pose proof (proj1 (outcomes_none _ _) Hopen k o Hk) as Ho.
    pose proof (proj1 (outcomes_none _ _) Hfailed k o Hk) as Hf.
    by destruct o.
  - intros [Hall ->].
    rewrite (proj2 (outcomes_none ViewerState.is_open outcomes)).
    + rewrite (proj2 (outcomes_none ViewerState.is_failed outcomes)); [done|].
      intros k o Hk. destruct (Hall k o Hk). by destruct o.
    + intros k o Hk. destruct (Hall k o Hk). by destruct o.
Qed.

Lemma filtered_is_object array state fa f v :
  ViewerState.filtered (ViewerState.JObj array state) fa f = ViewerState.Filtered v ->
  state !! "hasOwnProperty" = None
  /\ (forall k value, state !! k = Some value ->
        keyOutcome fa f k value <> ViewerState.Open
        /\ keyOutcome fa f k value <> ViewerState.Failed)
  /\ v = ViewerState.JObj array
           (omap ViewerState.kept_value (map_imap (fun key value => Some (keyOutcome fa f key value)) state)).
Proof.
  rewrite filtered_object. destruct (state !! "hasOwnProperty"); [discriminate|].
  intros [Hall ->]%loopOutcome_filtered. split_and!; [done | | done].
  intros k value Hk. apply (Hall k). by rewrite map_lookup_imap, Hk.
Qed.

Lemma kept_lookup fa f (state : gmap string ViewerState.json) k w :
  omap ViewerState.kept_value (map_imap (fun key value => Some (keyOutcome fa f key value)) state) !! k = Some w <->
  exists value, state !! k = Some value /\ keyOutcome fa f k value = ViewerState.Kept w.
Proof.
  rewrite lookup_omap, map_lookup_imap.
  destruct (state !! k) as [value|]; cbn [mbind option_bind].
  - destruct (keyOutcome fa f k value) eqn:Ho; cbn; split;
      try (intros [= <-]; eauto); try (intros (? & [= <-] & ?); congruence);
      try discriminate.
  - split; [discriminate | by intros (? & ? & ?)].
Qed.

Lemma keyOutcome_unfold fa f key value :
  keyOutcome fa f key value =
  match ViewerState.filterValue fa f key with
  | ViewerState.Unspecified => ViewerState.Removed
  | ViewerState.Flag false => ViewerState.Removed
  | ViewerState.Flag true => ViewerState.Kept value
  | ViewerState.Nested fa' f' =>
      match value with
      | ViewerState.JObj _ _ =>
          match ViewerState.filtered value fa' f' with
          | ViewerState.Filtered v => ViewerState.Kept v
          | ViewerState.Raised _ => ViewerState.Failed
          | ViewerState.HostDefined => ViewerState.Open
          end
      | _ => ViewerState.Kept value
      end
  | ViewerState.Function =>
      match value with
      | ViewerState.JObj _ sub =>
          if Nat.eqb (size sub) 0 then ViewerState.Kept value else ViewerState.Open
      | _ => ViewerState.Kept value
      end
  | ViewerState.Invalid => ViewerState.Kept value
  | ViewerState.HostProperty => ViewerState.Open
  end.
Proof. reflexivity. Qed.

Lemma filtered_idempotent (v : ViewerState.json) :
  forall fa f v',
    ViewerState.filtered v fa f = ViewerState.Filtered v' ->
    ViewerState.filtered v' fa f = ViewerState.Filtered v'.
Proof.
  induction v as [| | | |array state IH] using json_ind; intros fa f v';
    try by intros [= <-].
  intros (Hown & Hall & ->)%filtered_is_object.
  set (kept := omap ViewerState.kept_value (map_imap (fun key value => Some (keyOutcome fa f key value)) state)).
  assert (forall k w, kept !! k = Some w -> keyOutcome fa f k w = ViewerState.Kept w)
    as Hkept.
  { intros k w (value & Hk & Ho)%kept_lookup. rewrite keyOutcome_unfold in Ho |- *.
    destruct (ViewerState.filterValue fa f k) as [|[|]|fa' f'| | |]; try discriminate.
    - by injection Ho as <-.
    - destruct value as [| | | |a' s']; try by injection Ho as <-.
      destruct (ViewerState.filtered (ViewerState.JObj a' s') fa' f') as [w'| |] eqn:Hw;
        try discriminate.
      injection Ho as <-.
      pose proof (IH k _ Hk fa' f' w' Hw) as Hagain. cbn beta in Hagain.
      apply filtered_is_object in Hw as (_ & _ & ->). by rewrite Hagain.
    - destruct value as [| | | |a' s']; try by injection Ho as <-.
      destruct (Nat.eqb (size s') 0) eqn:Hsize; [|discriminate].
      injection Ho as <-. by rewrite Hsize.
    - by injection Ho as <-. }
  rewrite filtered_object.
  assert (kept !! "hasOwnProperty" = None) as ->.
  { destruct (kept !! "hasOwnProperty") as [w|] eqn:Hw; [|done].
    apply kept_lookup in Hw as (value & Hv & _). congruence. }
  apply loopOutcome_filtered. split.
  - intros k o. rewrite map_lookup_imap.
    destruct (kept !! k) as [w|] eqn:Hk; [|discriminate]. cbn [mbind option_bind].
    rewrite (Hkept k w Hk). by intros [= <-].
  - f_equal. apply map_eq. intros k. rewrite lookup_omap, map_lookup_imap.
    destruct (kept !! k) as [w|] eqn:Hk; [|done]. cbn [mbind option_bind].
    by rewrite (Hkept k w Hk).
Qed.

(** X22.  [applyFilter] is idempotent: when it leaves a state, that state
    is an object of the same kind (array or not), and filtering it again
    with the same filter leaves it as it is. *)
Theorem applyFilter_idempotent (array : bool) (state : gmap string ViewerState.json)
    (filter : ViewerState.Filter) (v : ViewerState.json) :
  ViewerState.applyFilter array state filter = ViewerState.Filtered v ->
  exists kept,
    v = ViewerState.JObj array kept
    /\ ViewerState.applyFilter array kept filter =
         ViewerState.Filtered (ViewerState.JObj array kept).
Proof.
  destruct filter as [|fa f]; cbn [ViewerState.applyFilter].
  - intros [= <-]. by eexists.
  - intros Hv. pose proof (filtered_idempotent _ _ _ _ Hv) as Hagain.
    apply filtered_is_object in Hv as (_ & _ & ->). by eexists.
Qed.

Lemma applyFilter_idempotent_witness :
  exists kept,
    ViewerState.applyFilter false sampleViewerState sampleViewerFilter =
      ViewerState.Filtered (ViewerState.JObj false kept)
    /\ kept !! "seedURN" = None
    /\ ViewerState.applyFilter false kept sampleViewerFilter =
         ViewerState.Filtered (ViewerState.JObj false kept).
Proof.
  assert (ViewerState.applyFilter false sampleViewerState sampleViewerFilter =
          ViewerState.Filtered
            (ViewerState.JObj false
               {[ "viewport" :=
                    ViewerState.JObj false {[ "fov" := ViewerState.JNumber 45 ]} ]}))
    as Hfirst by (vm_compute; reflexivity).
  destruct (applyFilter_idempotent _ _ _ _ Hfirst) as (kept & Hkept & Hagain).
  exists kept. injection Hkept as <-. split_and!; [exact Hfirst | reflexivity | exact Hagain].
Defined.



(** ** Light presets *)

Lemma lightPresetFrom_spec (presets : list string) (name : string) (i : nat) :
  (ViewerState.lightPresetFrom presets name i = (-1)%Z <-> name ∉ presets)
  /\ (forall k,
        ViewerState.lightPresetFrom presets name i = Z.of_nat (i + k) <->
        presets !! k = Some name /\ forall j, j < k -> presets !! j <> Some name)
  /\ (-1 <= ViewerState.lightPresetFrom presets name i)%Z
  /\ (ViewerState.lightPresetFrom presets name i <> (-1)%Z ->
      (Z.of_nat i <= ViewerState.lightPresetFrom presets name i)%Z).
Proof.
  revert i. induction presets as [|p presets IH]; intros i;
    cbn [ViewerState.lightPresetFrom].
  - split_and!; [| |lia|done].
    + split; [intros _; apply not_elem_of_nil | done].
    + intros k. split; [lia | by intros [? _]].
  - destruct (String.eqb_spec p name) as [->|Hne].
    + split_and!; [| |lia|lia].
      * split; [lia | intros []; by left].
      * intros [|k]; split.
        -- intros _. split; [done | lia].
        -- intros _. f_equal. lia.
        -- lia.
        -- intros [_ Hfirst]. by destruct (Hfirst 0); [lia|].
    + destruct (IH (S i)) as (Hnone & Hsome & Hlow & Hhigh). split_and!.
      * rewrite Hnone, not_elem_of_cons.
        split; [intros Hout; split; [congruence | exact Hout] | by intros [_ Hout]].
      * intros [|k].
        -- split; [|by intros [[= ?] _]].
           intros Heq.
           destruct (Z.eq_dec (ViewerState.lightPresetFrom presets name (S i)) (-1)%Z)
             as [Hout|Hfound]; [lia | specialize (Hhigh Hfound); lia].
        -- replace (i + S k) with (S i + k) by lia. rewrite Hsome. cbn [lookup list_lookup].
           split; intros [Hk Hfirst]; (split; [exact Hk|]).
           ++ intros [|j] Hj; [by intros [= ?] | apply Hfirst; lia].
           ++ intros j Hj. apply (Hfirst (S j)). lia.
      * lia.
      * intros Hfound. specialize (Hhigh Hfound). lia.
Qed.

(** X24.  [getLightPresetIndex] returns the index of the first preset with
    the name, and -1 exactly when no preset has it. *)
Theorem getLightPresetIndex_first (presets : list string) (environmentName : string) :
  (ViewerState.getLightPresetIndex presets environmentName = (-1)%Z <->
   environmentName ∉ presets)
  /\ (forall i,
        ViewerState.getLightPresetIndex presets environmentName = Z.of_nat i <->
        presets !! i = Some environmentName
        /\ forall j, j < i -> presets !! j <> Some environmentName).
Proof.
  unfold ViewerState.getLightPresetIndex.
  destruct (lightPresetFrom_spec presets environmentName 0) as (Hnone & Hsome & _).
  split; [exact Hnone | exact Hsome].
Qed.

(** ** Units of a model *)

Lemma getUnitScale_of_unit_witness :
  ModelInfo.getUnitScale (Some sampleUnits) = Ok 0.3048%float.
Proof.
  refine (eq_trans (getUnitScale_of_unit (Some sampleUnits) _) _).
  - right. reflexivity.
  - vm_compute. reflexivity.
Defined.

(** X21.  [getDisplayUnit] and [getUnitString] agree for a 3-D model
    without overridden units, and for a 2-D model whose page dimensions
    have no usable [model_units]: the display unit is then the paper
    unit. *)
Theorem getDisplayUnit_unit_string (myData : option ModelInfo.Data) :
  (ModelInfo.is2dModel myData = false -> ModelInfo.overridden myData = None ->
   ModelInfo.getDisplayUnit myData = ModelInfo.getUnitString myData)
  /\ (ModelInfo.is2dModel myData = true ->
      (forall model_units,
          ModelInfo.getMetadata myData "page_dimensions" (Some "model_units") =
            Ok model_units ->
          ModelInfo.truthyResult model_units = false) ->
      ModelInfo.getDisplayUnit myData = ModelInfo.getUnitString myData).
Proof.
  unfold ModelInfo.getDisplayUnit, ModelInfo.getUnitString. split.
  - by intros -> ->.
  - intros -> Hunset. cbn [negb].
    destruct (ModelInfo.getMetadata myData "page_dimensions" (Some "model_units"))
      as [model_units|e] eqn:Hmodel.
    + cbn [mbind Result_bind]. by rewrite (Hunset model_units eq_refl).
    + cbn [mbind Result_bind].
      assert (ModelInfo.getMetadata myData "page_dimensions" (Some "page_units") = Throw e)
        as ->; [|reflexivity].
      revert Hmodel. unfold ModelInfo.getMetadata.
      destruct myData as [data|]; [|discriminate].
      destruct (ModelInfo.metadata data) as [md|]; [|discriminate].
      destruct (md !! "page_dimensions") as [[|properties]|]; try discriminate.
      * cbn. done.
      * cbn. by destruct (properties !! "model_units").
Qed.

(** ** Numbered shader sources *)

Lemma split_lines_lines s :
  split_lines s <> [] /\ Forall (fun l => no_newline l = true) (split_lines s)
  /\ join_lines (split_lines s) = s.
Proof.
  induction s as [|c s IH]; cbn [split_lines]; [|destruct IH as (Hne & Hall & Hjoin)].
  - split_and!; [done | by repeat constructor | done].
  - destruct (Ascii.eqb_spec c "010"%char) as [->|Hc].
    + split_and!; [done | by constructor |].
      cbn [join_lines]. destruct (split_lines s) eqn:Hs; [done|]. by rewrite Hjoin.
    + destruct (split_lines s) as [|line rest]; [done|].
      apply Forall_cons in Hall as [Hline Hrest]. split_and!; [done| |].
      * constructor; [|done]. cbn. rewrite Hline.
        by destruct (Ascii.eqb_spec c "010"%char).
      * rewrite <- Hjoin. cbn [join_lines]. by destruct rest.
Qed.

Lemma no_newline_app a b :
  no_newline (a +:+ b) = no_newline a && no_newline b.
Proof.
  induction a as [|c a IH]; [done|].
  change (String c a +:+ b) with (String c (a +:+ b)). cbn [no_newline].
  rewrite IH. by rewrite andb_assoc.
Qed.

Lemma split_lines_app line s :
  no_newline line = true ->
  split_lines (line +:+ String "010"%char s) = line :: split_lines s.
Proof.
  induction line as [|c line IH]; [done|]. cbn [no_newline].
  intros [Hc Hline]%andb_prop.
  change (String c line +:+ ?x) with (String c (line +:+ x)). cbn [split_lines].
  destruct (Ascii.eqb c "010"%char); [done|]. by rewrite (IH Hline).
Qed.

Lemma split_lines_line line :
  no_newline line = true -> split_lines line = [line].
Proof.
  induction line as [|c line IH]; [done|]. cbn [no_newline split_lines].
  intros [Hc Hline]%andb_prop. destruct (Ascii.eqb c "010"%char); [done|].
  by rewrite (IH Hline).
Qed.

Lemma split_join lines :
  lines <> [] -> Forall (fun l => no_newline l = true) lines ->
  split_lines (join_lines lines) = lines.
Proof.
  induction lines as [|line rest IH]; [done|]. intros _ Hall.
  apply Forall_cons in Hall as [Hline Hrest].
  destruct rest as [|line' rest]; cbn [join_lines].
  - by apply split_lines_line.
  - rewrite split_lines_app by done. f_equal. by apply IH.
Qed.

Lemma no_newline_uint d : no_newline (NilEmpty.string_of_uint d) = true.
Proof. induction d; cbn; done. Qed.

Lemma no_newline_decimal n : no_newline (NilZero.string_of_uint n) = true.
Proof. destruct n; try done; apply (no_newline_uint (_ _)). Qed.

Lemma no_newline_numbered i line :
  no_newline line = true -> no_newline (numbered i line) = true.
Proof.
  intros Hline. unfold numbered. rewrite !no_newline_app, no_newline_decimal, Hline.
  reflexivity.
Qed.

(** X25.  [addLineNumbers] keeps the lines of a source as they are: its
    result has as many lines as the source, and line [i] of it (from 0)
    is the number [i + 1], a colon and a space, and then line [i] of the
    source. *)
Theorem addLineNumbers_lines (s : string) :
  split_lines (addLineNumbers s) = imap numbered (split_lines s)
  /\ length (split_lines (addLineNumbers s)) = length (split_lines s)
  /\ (forall i line, split_lines s !! i = Some line ->
        split_lines (addLineNumbers s) !! i = Some (numbered i line)).
Proof.
  destruct (split_lines_lines s) as (Hne & Hall & _).
  assert (split_lines (addLineNumbers s) = imap numbered (split_lines s)) as ->.
  { unfold addLineNumbers. apply split_join.
    - by destruct (split_lines s).
    - apply Forall_lookup. intros i line. rewrite list_lookup_imap.
      destruct (split_lines s !! i) as [l|] eqn:Hl; [|done]. intros [= <-].
      apply no_newline_numbered. by apply (Forall_lookup_1 _ _ _ _ Hall Hl). }
  split_and!; [done | by rewrite length_imap |].
  intros i line Hi. by rewrite list_lookup_imap, Hi.
Qed.

(** ** Leaflet options *)

(** X26.  [getLeafletParams] is idempotent on the load options: a second
    call for the same items on the options the first call left leaves
    them as they are. *)
Theorem getLeafletParams_idempotent (host : Host) (out out' : LoadOptions.t)
    (geomItem leafletItem : node) :
  getLeafletParams host out geomItem leafletItem = Ok out' ->
  getLeafletParams host out' geomItem leafletItem = Ok out'.
Proof.
  unfold getLeafletParams. destruct (resolution (fields leafletItem)); [|discriminate].
  intros [= <-]. cbn [LoadOptions.maxLevel getSubItemsWithProperties].
  by destruct (subItemsWithProperties _ _ _).
Qed.

Lemma getLeafletParams_idempotent_witness :
  exists out',
    getLeafletParams browser LoadOptions.empty sampleSheet sampleLeaflet = Ok out'
    /\ getLeafletParams browser out' sampleSheet sampleLeaflet = Ok out'.
Proof.
  eexists. split; [vm_compute; reflexivity|].
  apply (getLeafletParams_idempotent browser LoadOptions.empty _ sampleSheet sampleLeaflet).
  vm_compute. reflexivity.
Defined.
